(** * AsfExtractor: packet demultiplexing, fragment reassembly and seeking

    A shallow embedding of [media/libstagefright/AsfExtractor.cpp] and
    [include/AsfExtractor.h].  The extractor's fields become a record that
    is passed from call to call; the linked list of [Track] records becomes
    a list, and a [Track*] is the position of the record in that list
    ([None] for [NULL]).  The stream parser and the data source are the
    extractor's collaborators: their code is not part of these sources, so
    they enter as an interface ([AsfStreamParser]) and a read function
    ([DataSource]). *)

From Stdlib Require Import ZArith Lia Ascii String.
From Stdlib Require Import Init.Byte.
From stdpp Require Import base tactics option list.

Local Open Scope Z_scope.

(** ** Machine integers

    Fixed-width integers are values of [Z]; a conversion to a narrower or
    differently signed type is written out as a wrap-around. *)

Definition wrap_unsigned (bits z : Z) : Z := z mod 2 ^ bits.

Definition wrap_signed (bits z : Z) : Z :=
  (z + 2 ^ (bits - 1)) mod 2 ^ bits - 2 ^ (bits - 1).

Definition uint8 : Z -> Z := wrap_unsigned 8.
Definition uint32 : Z -> Z := wrap_unsigned 32.
Definition uint64 : Z -> Z := wrap_unsigned 64.
Definition int32 : Z -> Z := wrap_signed 32.
Definition int64 : Z -> Z := wrap_signed 64.

Definition INT32_MAX : Z := 2 ^ 31 - 1.
Definition INT64_MIN : Z := - 2 ^ 63.
Definition INT64_MAX : Z := 2 ^ 63 - 1.

Definition in_int64 (z : Z) : Prop := INT64_MIN <= z <= INT64_MAX.

(** The value of [n] bytes of memory read as a little-endian integer, as
    in [*(uint64_t* )(dataObjectHeaderData + 16)]. *)
Fixpoint le_decode (bs : list byte) : Z :=
  match bs with
  | [] => 0
  | b :: rest => Z.of_N (Byte.to_N b) + 256 * le_decode rest
  end.

Definition slice (off len : Z) (bs : list byte) : list byte :=
  take (Z.to_nat len) (drop (Z.to_nat off) bs).

(** ** Results of a call

    A call returns, or has no defined behaviour (a copy outside an
    allocation, an allocation of a negative size), or is cut off by the
    fuel that bounds the loops of the model. *)

Inductive run (A : Type) : Type :=
| Returns (a : A)
| Faults
| OutOfFuel.

Arguments Returns {A} a.
Arguments Faults {A}.
Arguments OutOfFuel {A}.

Instance run_ret : MRet run := fun A a => Returns a.

Instance run_bind : MBind run := fun A B k m =>
  match m with
  | Returns a => k a
  | Faults => Faults
  | OutOfFuel => OutOfFuel
  end.

(** ** status_t *)

Inductive status_t : Type :=
| OK
| BAD_VALUE
| NO_MEMORY
| ERROR_IO
| ERROR_MALFORMED
| ERROR_UNSUPPORTED
| ERROR_END_OF_STREAM.

Instance status_t_eq_dec : EqDecision status_t.
Proof. solve_decision. Defined.

(** ** MetaData *)

Inductive MetaKey : Type :=
| kKeyMIMEType | kKeyDuration | kKeyChannelCount | kKeySampleRate
| kKeyConfigData | kKeySuggestedBufferSize | kKeyWidth | kKeyHeight
| kKeyThumbnailTime | kKeyTime | kKeyIsSyncFrame.

Instance MetaKey_eq_dec : EqDecision MetaKey.
Proof. solve_decision. Defined.

(** The MIME constants of [MediaDefs.h] are not part of these sources and
    stay symbolic; the literals of this file are kept as strings. *)
Inductive mime : Type :=
| MEDIA_MIMETYPE_CONTAINER_ASF
| MEDIA_MIMETYPE_VIDEO_WMV
| MEDIA_MIMETYPE_AUDIO_WMA
| mime_literal (s : string).

Inductive MetaValue : Type :=
| VInt32 (z : Z)
| VInt64 (z : Z)
| VCString (m : mime)
| VData (bs : list byte).

(** Modelled from the spec: "an attached small set of named attributes".
    A set of attributes is an association list with one entry per key. *)
Abbreviation MetaData := (list (MetaKey * MetaValue)).

Definition meta_set (k : MetaKey) (v : MetaValue) (m : MetaData) : MetaData :=
  (k, v) :: filter (fun kv => kv.1 <> k) m.

Definition meta_find (k : MetaKey) (m : MetaData) : option MetaValue :=
  snd <$> head (filter (fun kv => kv.1 = k) m).

Definition setInt32 (k : MetaKey) (z : Z) : MetaData -> MetaData :=
  meta_set k (VInt32 (int32 z)).
Definition setInt64 (k : MetaKey) (z : Z) : MetaData -> MetaData :=
  meta_set k (VInt64 (int64 z)).
Definition setCString (k : MetaKey) (s : mime) : MetaData -> MetaData :=
  meta_set k (VCString s).
Definition setData (k : MetaKey) (bs : list byte) (size : Z) : MetaData -> MetaData :=
  meta_set k (VData (slice 0 size bs)).

(** ** MediaBuffer and the byte store

    Modelled from the spec: the class [MediaBuffer] is not part of these
    sources.  "A reference-counted allocation of bytes plus a
    currently-valid logical sub-range [rangeOffset, rangeOffset+rangeLength)
    and an attached small set of named attributes.  Multiple logical
    sub-ranges may share one allocation."  Allocations live in a store and
    a buffer names its allocation by position, so that a clone and the
    buffer it was cloned from see the same bytes.  [mOwnsData] tells the
    buffer that made the allocation from a cloned view of it. *)

Record MediaBuffer : Type := {
  mData : nat;
  mOwnsData : bool;
  mRangeOffset : Z;
  mRangeLength : Z;
  meta_data : MetaData
}.

Abbreviation Store := (list (list byte)).

(** [new MediaBuffer(size)]: a fresh allocation of [size] bytes.  The
    argument is a [size_t]; a negative [int] converts to a size no
    allocation can have. *)
Definition MediaBuffer_new (store : Store) (size : Z) : run (MediaBuffer * Store) :=
  if size <? 0 then Faults
  else Returns ({| mData := length store; mOwnsData := true;
                   mRangeOffset := 0; mRangeLength := size;
                   meta_data := [] |},
                store ++ [replicate (Z.to_nat size) x00]).

Definition set_range (offset len : Z) (b : MediaBuffer) : MediaBuffer :=
  {| mData := mData b; mOwnsData := mOwnsData b;
     mRangeOffset := offset; mRangeLength := len;
     meta_data := meta_data b |}.

Definition set_meta (f : MetaData -> MetaData) (b : MediaBuffer) : MediaBuffer :=
  {| mData := mData b; mOwnsData := mOwnsData b;
     mRangeOffset := mRangeOffset b; mRangeLength := mRangeLength b;
     meta_data := f (meta_data b) |}.

(** [clone()]: a second buffer on the same allocation, with the range and
    a copy of the attributes of the original. *)
Definition clone (b : MediaBuffer) : MediaBuffer :=
  {| mData := mData b; mOwnsData := false;
     mRangeOffset := mRangeOffset b; mRangeLength := mRangeLength b;
     meta_data := meta_data b |}.

(** [memcpy((uint8_t* )data + off, src, n)] into allocation [a]: defined
    when the [n] bytes lie inside the source and inside the allocation. *)
Definition memcpy (store : Store) (a : nat) (off : Z) (src : list byte) (n : Z)
  : run Store :=
  match store !! a with
  | None => Faults
  | Some cell =>
      if (0 <=? off) && (0 <=? n) && (n <=? Z.of_nat (length src))
         && (off + n <=? Z.of_nat (length cell))
      then Returns (<[a := take (Z.to_nat off) cell
                            ++ take (Z.to_nat n) src
                            ++ drop (Z.to_nat (off + n)) cell]> store)
      else Faults
  end.

(** The bytes of the logical range of a buffer. *)
Definition range_bytes (store : Store) (b : MediaBuffer) : option (list byte) :=
  slice (mRangeOffset b) (mRangeLength b) <$> store !! mData b.

(** ** Track *)

Record Track : Type := {
  meta : MetaData;
  skipTrack : bool;
  seekCompleted : bool;
  encrypted : bool;
  streamNumber : Z;
  bufferQueue : list MediaBuffer;
  bufferActive : option MediaBuffer
}.

Definition set_skipTrack (v : bool) (t : Track) : Track :=
  {| meta := meta t; skipTrack := v; seekCompleted := seekCompleted t;
     encrypted := encrypted t; streamNumber := streamNumber t;
     bufferQueue := bufferQueue t; bufferActive := bufferActive t |}.

Definition set_seekCompleted (v : bool) (t : Track) : Track :=
  {| meta := meta t; skipTrack := skipTrack t; seekCompleted := v;
     encrypted := encrypted t; streamNumber := streamNumber t;
     bufferQueue := bufferQueue t; bufferActive := bufferActive t |}.

Definition set_bufferQueue (q : list MediaBuffer) (t : Track) : Track :=
  {| meta := meta t; skipTrack := skipTrack t; seekCompleted := seekCompleted t;
     encrypted := encrypted t; streamNumber := streamNumber t;
     bufferQueue := q; bufferActive := bufferActive t |}.

Definition set_bufferActive (b : option MediaBuffer) (t : Track) : Track :=
  {| meta := meta t; skipTrack := skipTrack t; seekCompleted := seekCompleted t;
     encrypted := encrypted t; streamNumber := streamNumber t;
     bufferQueue := bufferQueue t; bufferActive := b |}.

Definition push (b : MediaBuffer) (t : Track) : Track :=
  set_bufferQueue (bufferQueue t ++ [b]) t.

(** ** Records produced by the stream parser

    Modelled from the spec: the declarations of [AsfStreamParser.h] are not
    part of these sources.  A payload entry has a "stream id, total
    logical-object length, this entry's payload length, this entry's byte
    offset within the logical object, a keyframe flag, a presentation time,
    and a pointer to payload bytes inside the packet buffer"; a stream
    descriptor has the fields [setupTracks] reads.  The linked lists of the
    parser are lists. *)

Record AsfPayloadDataInfo : Type := {
  payloadData : list byte;
  payloadSize : Z;
  presentationTime : Z;
  offsetIntoMediaObject : Z;
  mediaObjectLength : Z;
  payloadStreamNumber : Z;
  keyframe : bool
}.

Record AsfAudioStreamInfo : Type := {
  audioStreamNumber : Z;
  audioEncryptedContentFlag : bool;
  numChannels : Z;
  sampleRate : Z;
  audioCodecDataSize : Z;
  audioCodecData : list byte;
  codecID : Z
}.

Record AsfVideoStreamInfo : Type := {
  videoStreamNumber : Z;
  videoEncryptedContentFlag : bool;
  width : Z;
  height : Z;
  videoCodecDataSize : Z;
  videoCodecData : list byte;
  fourCC : Z
}.

Record AsfFileMediaInfo : Type := { seekable : bool }.

(** The interface of the stream parser, over the type [P] of its state.
    A call that changes the parser returns its new state. *)
Class AsfStreamParser (P : Type) : Type := {
  ASF_PARSER_SUCCESS : Z;
  ASF_DATA_OBJECT_HEADER_SIZE : Z;
  parseHeaderObject : P -> list byte -> Z -> Z * P;
  parseDataObjectHeader : P -> list byte -> Z -> Z * P;
  parseSimpleIndexObject : P -> list byte -> Z -> Z * P;
  isSimpleIndexObject : list byte -> bool;
  parseDataPacket : P -> list byte -> Z -> Z * list AsfPayloadDataInfo * P;
  parser_seek : P -> Z -> bool -> option (Z * Z);
  getDataPacketSize : P -> Z;
  getMaxObjectSize : P -> Z;
  getDuration : P -> Z;
  getFileInfo : P -> option AsfFileMediaInfo;
  hasVideo : P -> bool;
  hasAudio : P -> bool;
  getAudioInfo : P -> list AsfAudioStreamInfo;
  getVideoInfo : P -> list AsfVideoStreamInfo
}.

(** Modelled from the spec: "readAt(offset, length) -> bytes | shortRead".
    [None] is a failed read; otherwise the bytes read, whose number is the
    value the call returns. *)
Definition DataSource : Type := Z -> Z -> option (list byte).

(** [readAt(offset, data, size) != size] *)
Definition read_fully (source : DataSource) (offset size : Z) : option (list byte) :=
  match source offset size with
  | Some bs => if Z.of_nat (length bs) =? size then Some bs else None
  | None => None
  end.

(** ** MediaSource::ReadOptions

    Modelled from the spec: the pull call takes an "optionalSeekRequest";
    the options also carry settings that are no seek request. *)

Inductive SeekMode : Type :=
| SEEK_PREVIOUS_SYNC
| SEEK_NEXT_SYNC
| SEEK_CLOSEST_SYNC
| SEEK_CLOSEST.

Record ReadOptions : Type := {
  mSeekTo : option (Z * SeekMode);
  mLatenessUs : Z
}.

Definition getSeekTo (options : ReadOptions) : option (Z * SeekMode) :=
  mSeekTo options.

Definition SCALE_100_NANOSEC_TO_USEC : Z := 10.

(** ** The extractor *)

Section Extractor.

Context {P : Type} {parser : AsfStreamParser P}.

(** The extractor's data source, fixed when the extractor is built. *)
Variable mDataSource : DataSource.

Record AsfExtractor : Type := {
  mInitialized : bool;
  mTracks : list Track;
  mParser : P;
  mFileMetaData : MetaData;
  mHeaderObjectSize : Z;
  mDataObjectSize : Z;
  mDataPacketBeginOffset : Z;
  mDataPacketEndOffset : Z;
  mDataPacketCurrentOffset : Z;
  mDataPacketSize : Z;
  mDataPacketData : option (list byte);
  mStore : Store
}.

Definition set_mInitialized (v : bool) (e : AsfExtractor) : AsfExtractor :=
  {| mInitialized := v; mTracks := mTracks e; mParser := mParser e;
     mFileMetaData := mFileMetaData e;
     mHeaderObjectSize := mHeaderObjectSize e;
     mDataObjectSize := mDataObjectSize e;
     mDataPacketBeginOffset := mDataPacketBeginOffset e;
     mDataPacketEndOffset := mDataPacketEndOffset e;
     mDataPacketCurrentOffset := mDataPacketCurrentOffset e;
     mDataPacketSize := mDataPacketSize e;
     mDataPacketData := mDataPacketData e; mStore := mStore e |}.

Definition set_mTracks (v : list Track) (e : AsfExtractor) : AsfExtractor :=
  {| mInitialized := mInitialized e; mTracks := v; mParser := mParser e;
     mFileMetaData := mFileMetaData e;
     mHeaderObjectSize := mHeaderObjectSize e;
     mDataObjectSize := mDataObjectSize e;
     mDataPacketBeginOffset := mDataPacketBeginOffset e;
     mDataPacketEndOffset := mDataPacketEndOffset e;
     mDataPacketCurrentOffset := mDataPacketCurrentOffset e;
     mDataPacketSize := mDataPacketSize e;
     mDataPacketData := mDataPacketData e; mStore := mStore e |}.

Definition set_mParser (v : P) (e : AsfExtractor) : AsfExtractor :=
  {| mInitialized := mInitialized e; mTracks := mTracks e; mParser := v;
     mFileMetaData := mFileMetaData e;
     mHeaderObjectSize := mHeaderObjectSize e;
     mDataObjectSize := mDataObjectSize e;
     mDataPacketBeginOffset := mDataPacketBeginOffset e;
     mDataPacketEndOffset := mDataPacketEndOffset e;
     mDataPacketCurrentOffset := mDataPacketCurrentOffset e;
     mDataPacketSize := mDataPacketSize e;
     mDataPacketData := mDataPacketData e; mStore := mStore e |}.

Definition set_mFileMetaData (v : MetaData) (e : AsfExtractor) : AsfExtractor :=
  {| mInitialized := mInitialized e; mTracks := mTracks e; mParser := mParser e;
     mFileMetaData := v;
     mHeaderObjectSize := mHeaderObjectSize e;
     mDataObjectSize := mDataObjectSize e;
     mDataPacketBeginOffset := mDataPacketBeginOffset e;
     mDataPacketEndOffset := mDataPacketEndOffset e;
     mDataPacketCurrentOffset := mDataPacketCurrentOffset e;
     mDataPacketSize := mDataPacketSize e;
     mDataPacketData := mDataPacketData e; mStore := mStore e |}.

Definition set_mHeaderObjectSize (v : Z) (e : AsfExtractor) : AsfExtractor :=
  {| mInitialized := mInitialized e; mTracks := mTracks e; mParser := mParser e;
     mFileMetaData := mFileMetaData e;
     mHeaderObjectSize := v;
     mDataObjectSize := mDataObjectSize e;
     mDataPacketBeginOffset := mDataPacketBeginOffset e;
     mDataPacketEndOffset := mDataPacketEndOffset e;
     mDataPacketCurrentOffset := mDataPacketCurrentOffset e;
     mDataPacketSize := mDataPacketSize e;
     mDataPacketData := mDataPacketData e; mStore := mStore e |}.

(** The assignments of [initialize] to the fields of the packet region. *)
Definition set_region (objsize begin end_ size : Z) (e : AsfExtractor) : AsfExtractor :=
  {| mInitialized := mInitialized e; mTracks := mTracks e; mParser := mParser e;
     mFileMetaData := mFileMetaData e;
     mHeaderObjectSize := mHeaderObjectSize e;
     mDataObjectSize := objsize;
     mDataPacketBeginOffset := begin;
     mDataPacketEndOffset := end_;
     mDataPacketCurrentOffset := begin;
     mDataPacketSize := size;
     mDataPacketData := mDataPacketData e; mStore := mStore e |}.

Definition set_mDataPacketCurrentOffset (v : Z) (e : AsfExtractor) : AsfExtractor :=
  {| mInitialized := mInitialized e; mTracks := mTracks e; mParser := mParser e;
     mFileMetaData := mFileMetaData e;
     mHeaderObjectSize := mHeaderObjectSize e;
     mDataObjectSize := mDataObjectSize e;
     mDataPacketBeginOffset := mDataPacketBeginOffset e;
     mDataPacketEndOffset := mDataPacketEndOffset e;
     mDataPacketCurrentOffset := v;
     mDataPacketSize := mDataPacketSize e;
     mDataPacketData := mDataPacketData e; mStore := mStore e |}.

Definition set_mDataPacketData (v : option (list byte)) (e : AsfExtractor) : AsfExtractor :=
  {| mInitialized := mInitialized e; mTracks := mTracks e; mParser := mParser e;
     mFileMetaData := mFileMetaData e;
     mHeaderObjectSize := mHeaderObjectSize e;
     mDataObjectSize := mDataObjectSize e;
     mDataPacketBeginOffset := mDataPacketBeginOffset e;
     mDataPacketEndOffset := mDataPacketEndOffset e;
     mDataPacketCurrentOffset := mDataPacketCurrentOffset e;
     mDataPacketSize := mDataPacketSize e;
     mDataPacketData := v; mStore := mStore e |}.

Definition set_mStore (v : Store) (e : AsfExtractor) : AsfExtractor :=
  {| mInitialized := mInitialized e; mTracks := mTracks e; mParser := mParser e;
     mFileMetaData := mFileMetaData e;
     mHeaderObjectSize := mHeaderObjectSize e;
     mDataObjectSize := mDataObjectSize e;
     mDataPacketBeginOffset := mDataPacketBeginOffset e;
     mDataPacketEndOffset := mDataPacketEndOffset e;
     mDataPacketCurrentOffset := mDataPacketCurrentOffset e;
     mDataPacketSize := mDataPacketSize e;
     mDataPacketData := mDataPacketData e; mStore := v |}.

(** A write through a [Track*]. *)
Definition update_track (i : nat) (f : Track -> Track) (e : AsfExtractor) : AsfExtractor :=
  match mTracks e !! i with
  | Some t => set_mTracks (<[i := f t]> (mTracks e)) e
  | None => e
  end.

(** The constructor: [new AsfStreamParser] is the parser state [p0]. *)
Definition AsfExtractor_new (p0 : P) : AsfExtractor :=
  {| mInitialized := false; mTracks := []; mParser := p0;
     mFileMetaData := [];
     mHeaderObjectSize := 0; mDataObjectSize := 0;
     mDataPacketBeginOffset := 0; mDataPacketEndOffset := 0;
     mDataPacketCurrentOffset := 0; mDataPacketSize := 0;
     mDataPacketData := None; mStore := [] |}.

(** *** Track lookup *)

(** The loop of [getTrackByTrackIndex], at the track in position [pos]
    with [rest] the list from that track on. *)
Fixpoint walk_index (pos : nat) (rest : list Track) (index : Z) : option nat :=
  if 0 <? index then
    match rest with
    | [] => None
    | _ :: next => walk_index (S pos) next (index - 1)
    end
  else
    match rest with
    | [] => None
    | _ :: _ => Some pos
    end.

Definition getTrackByTrackIndex (e : AsfExtractor) (index : Z) : option nat :=
  walk_index 0 (mTracks e) index.

Fixpoint walk_stream (pos : nat) (rest : list Track) (stream : Z) : option nat :=
  match rest with
  | [] => None
  | track :: next =>
      if streamNumber track =? stream then Some pos
      else walk_stream (S pos) next stream
  end.

Definition getTrackByStreamNumber (e : AsfExtractor) (stream : Z) : option nat :=
  walk_stream 0 (mTracks e) stream.

(** *** readPacket *)

(** The buffer made for a complete object or for the first payload of a
    fragmented one.  [new] does not return [NULL], so the [NO_MEMORY]
    branch of the source is not taken. *)
Definition new_object_buffer (store : Store) (payload : AsfPayloadDataInfo)
  : run (MediaBuffer * Store) :=
  let size := int32 (Z.quot (mediaObjectLength payload + 4096 - 1) 4096 * 4096) in
  '(buffer, store1) ← MediaBuffer_new store size;
  store2 ← memcpy store1 (mData buffer) 0 (payloadData payload) (payloadSize payload);
  let buffer := set_range 0 (mediaObjectLength payload) buffer in
  let buffer := set_meta (setInt64 kKeyTime (presentationTime payload * 1000)) buffer in
  let buffer := if keyframe payload
                then set_meta (setInt32 kKeyIsSyncFrame 1) buffer else buffer in
  mret (buffer, store2).

(** The body of the loop over the payloads of one packet. *)
Definition demuxPayload (e : AsfExtractor) (payload : AsfPayloadDataInfo)
  : run AsfExtractor :=
  match getTrackByStreamNumber e (payloadStreamNumber payload) with
  | None => mret e
  | Some i =>
    match mTracks e !! i with
    | None => mret e
    | Some track =>
      if skipTrack track then mret e
      else if (mediaObjectLength payload =? payloadSize payload)
              || (offsetIntoMediaObject payload =? 0) then
        '(buffer, store) ← new_object_buffer (mStore e) payload;
        let e := set_mStore store e in
        if mediaObjectLength payload =? payloadSize payload then
          mret (update_track i (push buffer) e)
        else
          let e := update_track i (set_bufferActive (Some buffer)) e in
          if encrypted track then
            mret (update_track i
                    (push (set_range 0 (payloadSize payload) (clone buffer))) e)
          else mret e
      else
        match bufferActive track with
        | None => mret e
        | Some active =>
          store ← memcpy (mStore e) (mData active)
                         (offsetIntoMediaObject payload)
                         (payloadData payload) (payloadSize payload);
          let e := set_mStore store e in
          if offsetIntoMediaObject payload + payloadSize payload
             =? mediaObjectLength payload then
            if negb (encrypted track) then
              mret (update_track i
                      (fun t => set_bufferActive None (push active t)) e)
            else
              let active := set_range (offsetIntoMediaObject payload)
                                      (payloadSize payload) active in
              mret (update_track i
                      (fun t => set_bufferActive None (push active t)) e)
          else if encrypted track then
            mret (update_track i
                    (push (set_range (offsetIntoMediaObject payload)
                                     (payloadSize payload) (clone active))) e)
          else mret e
        end
    end
  end.

Fixpoint demuxPayloads (e : AsfExtractor) (payloads : list AsfPayloadDataInfo)
  : run AsfExtractor :=
  match payloads with
  | [] => mret e
  | payload :: next => e' ← demuxPayload e payload; demuxPayloads e' next
  end.

(** What [readPacket] does with the bytes of one packet once the cursor
    has moved past them. *)
Definition demuxPacket (e : AsfExtractor) (data : list byte)
  : run (status_t * AsfExtractor) :=
  let '(status, payloads, p) := parseDataPacket (mParser e) data (mDataPacketSize e) in
  let e := set_mParser p e in
  if negb (status =? ASF_PARSER_SUCCESS) || bool_decide (payloads = []) then
    mret (ERROR_END_OF_STREAM, e)
  else
    e' ← demuxPayloads e payloads; mret (OK, e').

Definition readPacket (e : AsfExtractor) : run (status_t * AsfExtractor) :=
  if mDataPacketEndOffset e
     <? int64 (mDataPacketCurrentOffset e + mDataPacketSize e) then
    mret (ERROR_END_OF_STREAM, e)
  else
    match read_fully mDataSource (mDataPacketCurrentOffset e) (mDataPacketSize e) with
    | None => mret (ERROR_END_OF_STREAM, e)
    | Some data =>
        let e := set_mDataPacketData (Some data) e in
        let e := set_mDataPacketCurrentOffset
                   (int64 (mDataPacketCurrentOffset e + mDataPacketSize e)) e in
        demuxPacket e data
    end.

(** *** seek_l *)

(** What the flush loop of [seek_l] does to the track in position [i],
    [origin] being the track the request came in on. *)
Definition flush_track (origin i : nat) (t : Track) : Track :=
  let t := set_bufferActive None t in
  let t := set_bufferQueue [] t in
  if bool_decide (i <> origin) then set_seekCompleted true t else t.

Definition nextSync_of (mode : SeekMode) : bool :=
  match mode with
  | SEEK_NEXT_SYNC => true
  | SEEK_PREVIOUS_SYNC | SEEK_CLOSEST_SYNC | SEEK_CLOSEST => false
  end.

Definition seek_l (e : AsfExtractor) (track : nat) (options : ReadOptions)
  : run (status_t * AsfExtractor) :=
  match mTracks e !! track with
  | None => Faults
  | Some t =>
    if seekCompleted t then
      mret (OK, update_track track (set_seekCompleted false) e)
    else
      match getSeekTo options with
      | None => mret (OK, e)
      | Some (seekTimeUs, mode) =>
        match parser_seek (mParser e)
                (int64 (seekTimeUs * SCALE_100_NANOSEC_TO_USEC))
                (nextSync_of mode) with
        | None => mret (ERROR_END_OF_STREAM, e)
        | Some (packetNumber, targetTime) =>
          let packetNumber := uint32 packetNumber in
          let e := set_mDataPacketCurrentOffset
                     (int64 (mDataPacketBeginOffset e
                             + int64 (packetNumber * mDataPacketSize e))) e in
          mret (OK, set_mTracks (imap (flush_track track) (mTracks e)) e)
        end
      end
  end.

(** *** read_l and read *)

Fixpoint read_l (fuel : nat) (e : AsfExtractor) (track : nat)
  : run (status_t * option MediaBuffer * AsfExtractor) :=
  match fuel with
  | O => OutOfFuel
  | S fuel =>
    match mTracks e !! track with
    | None => Faults
    | Some t =>
      match bufferQueue t with
      | buffer :: rest =>
          mret (OK, Some buffer, update_track track (set_bufferQueue rest) e)
      | [] =>
          '(err, e') ← readPacket e;
          if bool_decide (err = OK) then read_l fuel e' track
          else mret (err, None, e')
      end
    end
  end.

Definition read (fuel : nat) (e : AsfExtractor) (trackIndex : Z)
    (options : option ReadOptions)
  : run (status_t * option MediaBuffer * AsfExtractor) :=
  match getTrackByTrackIndex e trackIndex with
  | None => mret (BAD_VALUE, None, e)
  | Some track =>
    match options with
    | Some options =>
        '(err, e') ← seek_l e track options;
        if bool_decide (err <> OK) then mret (err, None, e')
        else read_l fuel e' track
    | None => read_l fuel e track
    end
  end.

(** *** setupTracks *)

(** [FOURCC(c1, c2, c3, c4)]; the comment of [FourCC2MIME] fixes the byte
    order: "WVC1 => 0x31435657". *)
Definition FOURCC (c1 c2 c3 c4 : Ascii.ascii) : Z :=
  let code c := Z.of_nat (Ascii.nat_of_ascii c) in
  Z.lor (Z.lor (Z.lor (Z.shiftl (code c1) 24) (Z.shiftl (code c2) 16))
               (Z.shiftl (code c3) 8)) (code c4).

Definition FourCC2MIME (fourcc : Z) : mime :=
  if fourcc =? FOURCC "1"%char "V"%char "M"%char "W"%char then mime_literal "video/wmv1"%string
  else if fourcc =? FOURCC "2"%char "V"%char "M"%char "W"%char then mime_literal "video/wmv2"%string
  else if fourcc =? FOURCC "A"%char "V"%char "M"%char "W"%char then MEDIA_MIMETYPE_VIDEO_WMV
  else if (fourcc =? FOURCC "3"%char "V"%char "M"%char "W"%char) || (fourcc =? FOURCC "1"%char "C"%char "V"%char "W"%char)
  then MEDIA_MIMETYPE_VIDEO_WMV
  else mime_literal "video/unknown-type"%string.

Definition CodecID2MIME (codecID : Z) : mime :=
  if (codecID =? 0x0160) || (codecID =? 0x0161) || (codecID =? 0x0162)
  then MEDIA_MIMETYPE_AUDIO_WMA
  else if codecID =? 0x0163 then MEDIA_MIMETYPE_AUDIO_WMA
  else if (codecID =? 0x000A) || (codecID =? 0x000B)
  then mime_literal "audio/wma-voice"%string
  else mime_literal "audio/unknown-type"%string.

Definition audio_track (p : P) (audioInfo : AsfAudioStreamInfo) : Track :=
  let m := setInt32 kKeyChannelCount (numChannels audioInfo) [] in
  let m := setInt32 kKeySampleRate (sampleRate audioInfo) m in
  let m := if audioCodecDataSize audioInfo =? 0 then m
           else setData kKeyConfigData (audioCodecData audioInfo)
                        (audioCodecDataSize audioInfo) m in
  let m := setInt64 kKeyDuration
             (Z.quot (getDuration p) SCALE_100_NANOSEC_TO_USEC) m in
  let m := setCString kKeyMIMEType (CodecID2MIME (codecID audioInfo)) m in
  let m := setInt32 kKeySuggestedBufferSize (getDataPacketSize p) m in
  {| meta := m; skipTrack := true; seekCompleted := false;
     encrypted := audioEncryptedContentFlag audioInfo;
     streamNumber := uint8 (audioStreamNumber audioInfo);
     bufferQueue := []; bufferActive := None |}.

Definition video_track (p : P) (videoInfo : AsfVideoStreamInfo) : Track :=
  let m := setInt32 kKeyWidth (width videoInfo) [] in
  let m := setInt32 kKeyHeight (height videoInfo) m in
  let m := if videoCodecDataSize videoInfo =? 0 then m
           else setData kKeyConfigData (videoCodecData videoInfo)
                        (videoCodecDataSize videoInfo) m in
  let m := setInt64 kKeyDuration
             (Z.quot (getDuration p) SCALE_100_NANOSEC_TO_USEC) m in
  let m := setCString kKeyMIMEType (FourCC2MIME (fourCC videoInfo)) m in
  let maxSize := int32 (getMaxObjectSize p) in
  let maxSize := if maxSize =? 0 then int32 (10 * getDataPacketSize p)
                 else maxSize in
  let m := setInt32 kKeySuggestedBufferSize maxSize m in
  let m := setInt64 kKeyThumbnailTime
             (Z.quot (getDuration p) (SCALE_100_NANOSEC_TO_USEC * 2)) m in
  {| meta := m; skipTrack := true; seekCompleted := false;
     encrypted := videoEncryptedContentFlag videoInfo;
     streamNumber := uint8 (videoStreamNumber videoInfo);
     bufferQueue := []; bufferActive := None |}.

(** The loop [while (audioInfo || videoInfo)]: the audio descriptors are
    taken first, then the video descriptors; each new track goes to the
    end of the list. *)
Fixpoint setupTracks_video (p : P) (videoInfo : list AsfVideoStreamInfo)
    (tracks : list Track) : list Track :=
  match videoInfo with
  | [] => tracks
  | v :: next => setupTracks_video p next (tracks ++ [video_track p v])
  end.

Fixpoint setupTracks_loop (p : P) (audioInfo : list AsfAudioStreamInfo)
    (videoInfo : list AsfVideoStreamInfo) (tracks : list Track) : list Track :=
  match audioInfo with
  | [] => setupTracks_video p videoInfo tracks
  | a :: next => setupTracks_loop p next videoInfo (tracks ++ [audio_track p a])
  end.

(** [audioInfo] is [NULL]: the call of [mParser->getAudioInfo()] is
    commented out in the source ("Audio is temporarily disabled"). *)
Definition setupTracks (e : AsfExtractor) : AsfExtractor :=
  let audioInfo : list AsfAudioStreamInfo := [] in
  let videoInfo := getVideoInfo (mParser e) in
  set_mTracks (setupTracks_loop (mParser e) audioInfo videoInfo (mTracks e)) e.

(** *** initialize *)

(** The loop that looks for the simple index object from [offset] on. *)
Fixpoint findSimpleIndex (fuel : nat) (p : P) (offset : Z) : run P :=
  match fuel with
  | O => OutOfFuel
  | S fuel =>
    match read_fully mDataSource offset 24 with
    | None => mret p
    | Some objectHeader =>
      let objectSize := int64 (le_decode (slice 16 8 objectHeader)) in
      if negb (isSimpleIndexObject objectHeader) then
        findSimpleIndex fuel p (uint64 (offset + objectSize))
      else if objectSize <? 0 then Faults
      else
        match read_fully mDataSource offset objectSize with
        | Some indexObjectData =>
            mret (parseSimpleIndexObject p indexObjectData objectSize).2
        | None => mret p
        end
    end
  end.

Definition initialize (fuel : nat) (e : AsfExtractor)
  : run (status_t * AsfExtractor) :=
  if mInitialized e then mret (OK, e)
  else
    match read_fully mDataSource 16 8 with
    | None => mret (ERROR_IO, e)
    | Some sizeBytes =>
      let e := set_mHeaderObjectSize (int64 (le_decode sizeBytes)) e in
      if mHeaderObjectSize e <? 0 then Faults
      else
        match read_fully mDataSource 0 (mHeaderObjectSize e) with
        | None => mret (ERROR_IO, e)
        | Some headerObjectData =>
          let '(status, p) :=
            parseHeaderObject (mParser e) headerObjectData (mHeaderObjectSize e) in
          let e := set_mParser p e in
          if negb (status =? ASF_PARSER_SUCCESS) then mret (ERROR_MALFORMED, e)
          else
            match read_fully mDataSource (mHeaderObjectSize e)
                             ASF_DATA_OBJECT_HEADER_SIZE with
            | None => mret (ERROR_IO, e)
            | Some dataObjectHeaderData =>
              let '(status, p) :=
                parseDataObjectHeader (mParser e) dataObjectHeaderData
                                      ASF_DATA_OBJECT_HEADER_SIZE in
              let e := set_mParser p e in
              if negb (status =? ASF_PARSER_SUCCESS) then mret (ERROR_MALFORMED, e)
              else
                let objsize := int64 (le_decode (slice 16 8 dataObjectHeaderData)) in
                let e := set_region objsize
                           (int64 (mHeaderObjectSize e + ASF_DATA_OBJECT_HEADER_SIZE))
                           (int64 (mHeaderObjectSize e + objsize))
                           (int64 (getDataPacketSize (mParser e))) e in
                if mDataPacketSize e <? 0 then Faults
                else
                  let e := set_mDataPacketData
                             (Some (replicate (Z.to_nat (mDataPacketSize e)) x00)) e in
                  p ← match getFileInfo (mParser e) with
                      | Some fileMediaInfo =>
                          if seekable fileMediaInfo
                          then findSimpleIndex fuel (mParser e)
                                               (uint64 (mDataPacketEndOffset e))
                          else mret (mParser e)
                      | None => mret (mParser e)
                      end;
                  let e := set_mParser p e in
                  if hasVideo (mParser e) || hasAudio (mParser e) then
                    let e := set_mFileMetaData
                               (setCString kKeyMIMEType MEDIA_MIMETYPE_CONTAINER_ASF
                                           (mFileMetaData e)) e in
                    let e := set_mFileMetaData
                               (setInt64 kKeyDuration
                                  (Z.quot (getDuration (mParser e))
                                          SCALE_100_NANOSEC_TO_USEC)
                                  (mFileMetaData e)) e in
                    let e := setupTracks e in
                    mret (OK, set_mInitialized true e)
                  else mret (ERROR_UNSUPPORTED, e)
            end
        end
    end.

(** *** The calls of the host *)

Definition countTracks (fuel : nat) (e : AsfExtractor) : run (Z * AsfExtractor) :=
  '(err, e) ← initialize fuel e;
  if bool_decide (err <> OK) then mret (0, e)
  else mret (Z.of_nat (length (mTracks e)), e).

(** [index] is a [size_t]; [getTrackByTrackIndex] takes an [int]. *)
Definition getTrackMetaData (fuel : nat) (e : AsfExtractor) (index : Z) (flags : Z)
  : run (option MetaData * AsfExtractor) :=
  '(err, e) ← initialize fuel e;
  if bool_decide (err <> OK) then mret (None, e)
  else
    match getTrackByTrackIndex e (int32 index) with
    | None => mret (None, e)
    | Some track => mret (meta <$> mTracks e !! track, e)
    end.

(** The source returned for a track: [new ASFSource(this, index)], which
    keeps the index as an [int]. *)
Record ASFSource : Type := { mTrackIndex : Z }.

Definition getTrack (fuel : nat) (e : AsfExtractor) (index : Z)
  : run (option ASFSource * AsfExtractor) :=
  '(err, e) ← initialize fuel e;
  if bool_decide (err <> OK) then mret (None, e)
  else
    match getTrackByTrackIndex e (int32 index) with
    | None => mret (None, e)
    | Some track =>
        mret (Some {| mTrackIndex := int32 index |},
              update_track track (set_skipTrack false) e)
    end.

(** [getMetaData]: the file's attributes, or a fresh empty set when the
    extractor cannot be initialized. *)
Definition getMetaData (fuel : nat) (e : AsfExtractor)
  : run (MetaData * AsfExtractor) :=
  '(err, e) ← initialize fuel e;
  if bool_decide (err <> OK) then mret ([], e)
  else mret (mFileMetaData e, e).

(** [ASFSource::read] *)
Definition ASFSource_read (fuel : nat) (e : AsfExtractor) (source : ASFSource)
    (options : option ReadOptions)
  : run (status_t * option MediaBuffer * AsfExtractor) :=
  read fuel e (mTrackIndex source) options.

End Extractor.

(** ** A small container format

    A parser for a container of a few bytes, and files in that format, on
    which the statements below are exercised.

    Header object: 16 bytes of GUID, the size of the object in 8 bytes,
    then the number of audio streams, the number of video streams, the
    seekable flag, the packet size and the encryption flag of the video
    streams, one byte each.  The audio streams are numbered from 1, the
    video streams follow them.  A packet is the byte 1, then stream
    number, object length, offset into the object and payload size of its
    one payload, then the payload bytes; a packet that starts with another
    byte is malformed.  The index object starts with the byte 0x33 and
    indexes three seconds, one packet per second. *)

Module Toy.

Record state : Type := {
  audio_count : Z;
  video_count : Z;
  seekable_flag : bool;
  packet_size : Z;
  video_encrypted : bool;
  index_loaded : bool
}.

Definition new : state :=
  {| audio_count := 0; video_count := 0; seekable_flag := false;
     packet_size := 0; video_encrypted := false; index_loaded := false |}.

Definition byte_at (i : nat) (bs : list byte) : Z :=
  match bs !! i with
  | Some b => Z.of_N (Byte.to_N b)
  | None => 0
  end.

Definition parse_header (p : state) (bs : list byte) (size : Z) : Z * state :=
  if size <? 29 then (1, p)
  else (0, {| audio_count := byte_at 24 bs; video_count := byte_at 25 bs;
              seekable_flag := negb (byte_at 26 bs =? 0);
              packet_size := byte_at 27 bs;
              video_encrypted := negb (byte_at 28 bs =? 0);
              index_loaded := index_loaded p |}).

Definition load_index (p : state) : state :=
  {| audio_count := audio_count p; video_count := video_count p;
     seekable_flag := seekable_flag p; packet_size := packet_size p;
     video_encrypted := video_encrypted p;
     index_loaded := true |}.

Definition fragment (stream objLen offset : Z) (data : list byte)
  : AsfPayloadDataInfo :=
  {| payloadData := data;
     payloadSize := Z.of_nat (length data);
     presentationTime := 40;
     offsetIntoMediaObject := offset;
     mediaObjectLength := objLen;
     payloadStreamNumber := stream;
     keyframe := true |}.

Definition parse_packet (p : state) (bs : list byte) (size : Z)
  : Z * list AsfPayloadDataInfo * state :=
  if byte_at 0 bs =? 1 then
    (0, [ fragment (byte_at 1 bs) (byte_at 2 bs) (byte_at 3 bs)
                   (slice 5 (byte_at 4 bs) bs) ], p)
  else (1, [], p).

Definition seek (p : state) (time : Z) (nextSync : bool) : option (Z * Z) :=
  if index_loaded p then
    if (0 <=? time) && (time <? 30000000)
    then Some (time / 10000000, time / 10000000 * 10000000)
    else None
  else None.

Definition audio_info (n : nat) : AsfAudioStreamInfo :=
  {| audioStreamNumber := Z.of_nat n + 1; audioEncryptedContentFlag := false;
     numChannels := 2; sampleRate := 44100;
     audioCodecDataSize := 0; audioCodecData := []; codecID := 0x0161 |}.

Definition video_info (first : Z) (enc : bool) (n : nat) : AsfVideoStreamInfo :=
  {| videoStreamNumber := first + Z.of_nat n; videoEncryptedContentFlag := enc;
     width := 320; height := 240;
     videoCodecDataSize := 0; videoCodecData := [];
     fourCC := FOURCC "1"%char "C"%char "V"%char "W"%char |}.

#[global] Instance parser : AsfStreamParser state := {|
  ASF_PARSER_SUCCESS := 0;
  ASF_DATA_OBJECT_HEADER_SIZE := 50;
  parseHeaderObject := parse_header;
  parseDataObjectHeader := fun p bs size => (0, p);
  parseSimpleIndexObject := fun p bs size => (0, load_index p);
  isSimpleIndexObject := fun bs => byte_at 0 bs =? 0x33;
  parseDataPacket := parse_packet;
  parser_seek := seek;
  getDataPacketSize := packet_size;
  getMaxObjectSize := fun p => 0;
  getDuration := fun p => 30000000;
  getFileInfo := fun p => Some {| seekable := seekable_flag p |};
  hasVideo := fun p => 0 <? video_count p;
  hasAudio := fun p => 0 <? audio_count p;
  getAudioInfo := fun p => audio_info <$> seq 0 (Z.to_nat (audio_count p));
  getVideoInfo := fun p =>
    video_info (audio_count p + 1) (video_encrypted p)
      <$> seq 0 (Z.to_nat (video_count p))
|}.

(** A file in memory as a data source. *)
Definition file (contents : list byte) : DataSource := fun offset size =>
  if (offset <? 0) || (size <? 0) then None
  else Some (take (Z.to_nat size) (drop (Z.to_nat offset) contents)).

Definition b (z : Z) : byte :=
  match Byte.of_N (Z.to_N z) with
  | Some x => x
  | None => x00
  end.

Definition le64 (z : Z) : list byte :=
  (fun i => b (Z.shiftr z (8 * Z.of_nat i) mod 256)) <$> seq 0 8.

Definition header_object (audio video seekable size enc : Z) : list byte :=
  replicate 16 x00 ++ le64 30
  ++ [b audio; b video; b seekable; b size; b enc; x00].

Definition data_object_header (packets size : Z) : list byte :=
  replicate 16 x00 ++ le64 (50 + packets * size) ++ replicate 26 x00.

Definition packet (stream objlen offset : Z) (data : list byte) (size : Z)
  : list byte :=
  let body := [x01; b stream; b objlen; b offset; b (Z.of_nat (length data))]
              ++ data in
  body ++ replicate (Z.to_nat size - length body) x00.

Definition malformed_packet (size : Z) : list byte :=
  replicate (Z.to_nat size) xff.

Definition index_object : list byte :=
  [x33] ++ replicate 15 x00 ++ le64 24.

(** One audio and one video stream, no index; two packets for stream 2,
    each a complete object of two bytes. *)
Definition movie : list byte :=
  header_object 1 1 0 8 0 ++ data_object_header 2 8
  ++ packet 2 2 0 [x41; x42] 8 ++ packet 2 2 0 [x43; x44] 8.

(** The same streams with an index after the packets. *)
Definition indexed_movie : list byte :=
  header_object 1 1 1 8 0 ++ data_object_header 2 8
  ++ packet 2 2 0 [x41; x42] 8 ++ packet 2 2 0 [x43; x44] 8
  ++ index_object.

(** Two video streams and an index. *)
Definition two_video_movie : list byte :=
  header_object 0 2 1 8 0 ++ data_object_header 2 8
  ++ packet 1 2 0 [x41; x42] 8 ++ packet 2 2 0 [x43; x44] 8
  ++ index_object.


(** A malformed packet followed by a well-formed one. *)
Definition damaged_movie : list byte :=
  header_object 0 1 0 8 0 ++ data_object_header 2 8
  ++ malformed_packet 8 ++ packet 1 2 0 [x43; x44] 8.

(** The extractor once [countTracks] has been called. *)
Definition initialized (contents : list byte) : @AsfExtractor state :=
  match countTracks (file contents) 8 (AsfExtractor_new new) with
  | Returns (_, e) => e
  | _ => AsfExtractor_new new
  end.

(** The extractor once the host has asked for every track. *)
Definition player (contents : list byte) : @AsfExtractor state :=
  let e := initialized contents in
  foldl (fun e i => match getTrack (file contents) 8 e (Z.of_nat i) with
                    | Returns (_, e') => e'
                    | _ => e
                    end) e (seq 0 (length (mTracks e))).

Definition empty_track : Track :=
  {| meta := []; skipTrack := true; seekCompleted := false;
     encrypted := false; streamNumber := 0;
     bufferQueue := []; bufferActive := None |}.

Definition track (e : @AsfExtractor state) (i : nat) : Track :=
  default empty_track (mTracks e !! i).

Definition seek_to (timeUs : Z) : ReadOptions :=
  {| mSeekTo := Some (timeUs, SEEK_CLOSEST); mLatenessUs := 0 |}.

Definition no_seek : ReadOptions :=
  {| mSeekTo := None; mLatenessUs := 20000 |}.

(** The two-stream player after a seek to the first second on track 0. *)
Definition after_seek : @AsfExtractor state :=
  match seek_l (player two_video_movie) 0 (seek_to 1000000) with
  | Returns (_, e) => e
  | _ => player two_video_movie
  end.

(** The same player after a seek on track 0 to the second second, which
    is the end of the packets. *)
Definition after_seek_to_end : @AsfExtractor state :=
  match seek_l (player two_video_movie) 0 (seek_to 2000000) with
  | Returns (_, e) => e
  | _ => player two_video_movie
  end.

(** The status and the extractor a pull came back with. *)
Definition status_of
    (r : run (status_t * option MediaBuffer * @AsfExtractor state))
  : option status_t :=
  match r with
  | Returns (status, _, _) => Some status
  | _ => None
  end.

Definition buffer_of
    (r : run (status_t * option MediaBuffer * @AsfExtractor state))
  : option MediaBuffer :=
  match r with
  | Returns (_, buffer, _) => buffer
  | _ => None
  end.

Definition extractor_of
    (r : run (status_t * option MediaBuffer * @AsfExtractor state))
  : @AsfExtractor state :=
  match r with
  | Returns (_, _, e) => e
  | _ => AsfExtractor_new new
  end.

(** An object of three bytes for stream [stream] in two fragments, with a
    payload of another stream between them. *)
Definition two_fragments (stream : Z) : list AsfPayloadDataInfo :=
  [fragment stream 3 0 [x41; x42]; fragment stream 3 2 [x43]].

Definition interleaved (stream other : Z) : list AsfPayloadDataInfo :=
  [fragment stream 3 0 [x41; x42]; fragment other 1 0 [x58];
   fragment stream 3 2 [x43]].

(** The extractor after the loop over [payloads]. *)
Definition demuxed (e : @AsfExtractor state)
    (payloads : list AsfPayloadDataInfo) : @AsfExtractor state :=
  match demuxPayloads e payloads with
  | Returns e' => e'
  | _ => e
  end.

(** An object of size 0 that is not the index. *)
Definition empty_object : list byte := replicate 16 x00 ++ le64 0.

(** A seekable file whose packets are followed by such an object. *)
Definition stalled_movie : list byte :=
  header_object 0 1 1 8 0 ++ data_object_header 2 8
  ++ packet 1 2 0 [x41; x42] 8 ++ packet 1 2 0 [x43; x44] 8
  ++ empty_object.

(** A header that announces no stream. *)
Definition silent_movie : list byte :=
  header_object 0 0 0 8 0 ++ data_object_header 0 8.

(** The extractor a first call of [initialize] leaves behind. *)
Definition after_initialize (contents : list byte) : @AsfExtractor state :=
  match initialize (file contents) 8 (AsfExtractor_new new) with
  | Returns (_, e) => e
  | _ => AsfExtractor_new new
  end.

(** The extractor after one more call of [readPacket]. *)
Definition after_readPacket (contents : list byte) (e : @AsfExtractor state)
  : @AsfExtractor state :=
  match readPacket (file contents) e with
  | Returns (_, e') => e'
  | _ => e
  end.

(** The player of [movie] with one and with two objects queued, and the
    extractor of [movie] at the end of its packets with no track handed
    out. *)
Definition one_queued : @AsfExtractor state :=
  after_readPacket movie (player movie).

Definition two_queued : @AsfExtractor state :=
  after_readPacket movie one_queued.

Definition at_end : @AsfExtractor state :=
  after_readPacket movie (after_readPacket movie (initialized movie)).

(** The player of [movie] while it follows an object of three bytes of
    which two have arrived. *)
Definition in_progress : @AsfExtractor state :=
  demuxed (player movie) [fragment 2 3 0 [x41; x42]].

(** A data object whose size field is 0, after a header with one video
    stream. *)
Definition hollow_movie : list byte :=
  header_object 0 1 0 8 0 ++ replicate 16 x00 ++ le64 0 ++ replicate 26 x00.

(** One video stream, one packet and an index. *)
Definition one_packet_movie : list byte :=
  header_object 0 1 1 8 0 ++ data_object_header 1 8
  ++ packet 1 2 0 [x41; x42] 8 ++ index_object.

(** The player of that file after a seek to the second second, which the
    index translates to packet 2. *)
Definition after_seek_past_end : @AsfExtractor state :=
  match seek_l (player one_packet_movie) 0 (seek_to 2000000) with
  | Returns (_, e) => e
  | _ => player one_packet_movie
  end.

(** One video stream whose object of eight bytes comes in four packets,
    the fragments at the offsets 0, 4, 2 and 6. *)
Definition shuffled_movie : list byte :=
  header_object 0 1 0 8 0 ++ data_object_header 4 8
  ++ packet 1 8 0 [x41; x42] 8 ++ packet 1 8 4 [x45; x46] 8
  ++ packet 1 8 2 [x43; x44] 8 ++ packet 1 8 6 [x47; x48] 8.

(** The same fragments as the payloads of one packet, and an object of
    six bytes of which the middle fragment does not arrive. *)
Definition shuffled (stream : Z) : list AsfPayloadDataInfo :=
  [fragment stream 8 0 [x41; x42]; fragment stream 8 4 [x45; x46];
   fragment stream 8 2 [x43; x44]; fragment stream 8 6 [x47; x48]].

Definition with_gap (stream : Z) : list AsfPayloadDataInfo :=
  [fragment stream 6 0 [x41; x42]; fragment stream 6 4 [x45; x46]].

(** The bytes a buffer shows in an extractor. *)
Definition shown (e : @AsfExtractor state) (buffer : option MediaBuffer)
  : option (list byte) :=
  buffer ≫= range_bytes (mStore e).

End Toy.


(** ** Predicates of the statements *)

Section Predicates.

Context {P : Type} {parser : AsfStreamParser P}.
Variable mDataSource : DataSource.

(** The four fields of the packet region. *)
Definition packet_region (e : @AsfExtractor P) : Z * Z * Z * Z :=
  (mDataPacketBeginOffset e, mDataPacketEndOffset e,
   mDataPacketCurrentOffset e, mDataPacketSize e).

(** An initialized packet region: the cursor lies between the two ends,
    packets have a size, and the sums the code forms stay in [int64_t]. *)
Definition region_ok (e : @AsfExtractor P) : Prop :=
  0 <= mDataPacketSize e
  /\ mDataPacketBeginOffset e <= mDataPacketCurrentOffset e
  /\ mDataPacketCurrentOffset e <= mDataPacketEndOffset e
  /\ INT64_MIN <= mDataPacketBeginOffset e
  /\ mDataPacketEndOffset e + mDataPacketSize e <= INT64_MAX.

(** The cursor and what the tracks hold for the consumer are the same in
    both states. *)
Definition same_output (e e' : @AsfExtractor P) : Prop :=
  mDataPacketCurrentOffset e' = mDataPacketCurrentOffset e
  /\ bufferQueue <$> mTracks e' = bufferQueue <$> mTracks e
  /\ bufferActive <$> mTracks e' = bufferActive <$> mTracks e
  /\ mStore e' = mStore e.

(** The parser holds no index: it finds a packet for no time. *)
Definition no_index (p : P) : Prop :=
  forall time nextSync, parser_seek p time nextSync = None.

(** The size [readPacket] allocates for an object, before it is stored in
    an [int]. *)
Definition alloc_size (payload : AsfPayloadDataInfo) : Z :=
  Z.quot (mediaObjectLength payload + 4096 - 1) 4096 * 4096.

(** The bytes [memcpy] takes from a payload. *)
Definition fragment_data (payload : AsfPayloadDataInfo) : list byte :=
  take (Z.to_nat (payloadSize payload)) (payloadData payload).

(** The attributes stamped on the buffer of an object. *)
Definition object_meta (payload : AsfPayloadDataInfo) : MetaData :=
  let m := setInt64 kKeyTime (presentationTime payload * 1000) [] in
  if keyframe payload then setInt32 kKeyIsSyncFrame 1 m else m.

(** The buffer of an object whose first payload is [payload], on
    allocation [a]. *)
Definition object_buffer (a : nat) (payload : AsfPayloadDataInfo) : MediaBuffer :=
  {| mData := a; mOwnsData := true;
     mRangeOffset := 0; mRangeLength := mediaObjectLength payload;
     meta_data := object_meta payload |}.

(** The payload lies inside the memory it points to, and the size of its
    object can be rounded up within an [int]. *)
Definition payload_ok (payload : AsfPayloadDataInfo) : Prop :=
  0 <= payloadSize payload <= Z.of_nat (length (payloadData payload))
  /\ 0 <= mediaObjectLength payload
  /\ mediaObjectLength payload + 4095 <= INT32_MAX.

(** The track in position [i] takes the payloads of stream [stream] and is
    active. *)
Definition routes (e : @AsfExtractor P) (stream : Z) (i : nat) (t : Track) : Prop :=
  getTrackByStreamNumber e stream = Some i
  /\ mTracks e !! i = Some t
  /\ skipTrack t = false.

(** *** Fragmented objects *)

Fixpoint total_size (frags : list AsfPayloadDataInfo) : Z :=
  match frags with
  | [] => 0
  | f :: rest => payloadSize f + total_size rest
  end.

(** The payloads [frags] belong to stream [stream] and carry, one after
    the other from offset [off] on, pieces of at least one byte of one
    object of [objLen] bytes. *)
Fixpoint chained (stream objLen off : Z) (frags : list AsfPayloadDataInfo) : Prop :=
  match frags with
  | [] => True
  | f :: rest =>
      payloadStreamNumber f = stream
      /\ mediaObjectLength f = objLen
      /\ offsetIntoMediaObject f = off
      /\ 0 < payloadSize f <= Z.of_nat (length (payloadData f))
      /\ chained stream objLen (off + payloadSize f) rest
  end.

(** An object of [objLen] bytes split into the fragments [frags], two at
    least, whose offsets start at 0 and grow by the length of each
    fragment up to [objLen]. *)
Definition fragmented_object (stream objLen : Z)
    (frags : list AsfPayloadDataInfo) : Prop :=
  (2 <= length frags)%nat
  /\ chained stream objLen 0 frags
  /\ total_size frags = objLen
  /\ objLen + 4095 <= INT32_MAX.

(** The cloned view pushed for a fragment of an encrypted object, and
    the in-progress buffer as it is pushed for the last fragment. *)
Definition fragment_view (a : nat) (first f : AsfPayloadDataInfo) : MediaBuffer :=
  set_range (offsetIntoMediaObject f) (payloadSize f)
            (clone (object_buffer a first)).

Definition final_view (a : nat) (first f : AsfPayloadDataInfo) : MediaBuffer :=
  set_range (offsetIntoMediaObject f) (payloadSize f) (object_buffer a first).

(** The buffers queued when fragment [f] is handled, [rest] being the
    fragments of the object still to come. *)
Definition emit (enc : bool) (a : nat) (first f : AsfPayloadDataInfo)
    (rest : list AsfPayloadDataInfo) : list MediaBuffer :=
  match rest with
  | [] => [if enc then final_view a first f else object_buffer a first]
  | _ :: _ => if enc then [fragment_view a first f] else []
  end.

Fixpoint emitted (enc : bool) (a : nat) (first : AsfPayloadDataInfo)
    (frags rest : list AsfPayloadDataInfo) : list MediaBuffer :=
  match frags with
  | [] => []
  | f :: next =>
      emit enc a first f (next ++ rest) ++ emitted enc a first next rest
  end.

(** The payloads of [payloads] that belong to stream [stream], in their
    order. *)
Definition of_stream (stream : Z) (payloads : list AsfPayloadDataInfo)
  : list AsfPayloadDataInfo :=
  filter (fun p => payloadStreamNumber p = stream) payloads.

(** Every in-progress buffer points into the store. *)
Definition actives_valid (e : @AsfExtractor P) : Prop :=
  forall j t m,
    mTracks e !! j = Some t -> bufferActive t = Some m ->
    (mData m < length (mStore e))%nat.

(** Allocation [a] exists and is the in-progress allocation of no track
    but, possibly, track [i]. *)
Definition isolated (e : @AsfExtractor P) (i a : nat) : Prop :=
  (a < length (mStore e))%nat
  /\ forall j t m,
       mTracks e !! j = Some t -> j <> i -> bufferActive t = Some m ->
       mData m <> a.

(** Track [i] takes the payloads of stream [stream], is active, has the
    encryption flag [enc], and holds the queue [q]; no object of the
    stream is being followed yet. *)
Definition before (stream : Z) (i : nat) (enc : bool)
    (e : @AsfExtractor P) (q : list MediaBuffer) : Prop :=
  exists t,
    routes e stream i t /\ encrypted t = enc /\ bufferQueue t = q
    /\ actives_valid e.

(** The same track while an object on allocation [a] is followed: its
    in-progress slot is [active], and the first [off] bytes of the
    allocation, whose size is [size], are [acc]. *)
Definition in_phase (stream : Z) (i : nat) (enc : bool) (a : nat) (size : Z)
    (e : @AsfExtractor P) (active : option MediaBuffer)
    (q : list MediaBuffer) (off : Z) (acc : list byte) : Prop :=
  exists t cell,
    routes e stream i t /\ encrypted t = enc /\ bufferQueue t = q
    /\ bufferActive t = active
    /\ mStore e !! a = Some cell
    /\ Z.of_nat (length cell) = size
    /\ take (Z.to_nat off) cell = acc
    /\ isolated e i a.

(** What a payload can do: nothing, or replace the track of its stream
    and either add an allocation or write into the in-progress allocation
    of that track. *)
Definition payload_effect (e : @AsfExtractor P) (payload : AsfPayloadDataInfo)
    (e' : @AsfExtractor P) : Prop :=
  e' = e
  \/ exists j t t' store',
       getTrackByStreamNumber e (payloadStreamNumber payload) = Some j
       /\ mTracks e !! j = Some t
       /\ e' = set_mTracks (<[j := t']> (mTracks e)) (set_mStore store' e)
       /\ streamNumber t' = streamNumber t
       /\ skipTrack t' = skipTrack t
       /\ encrypted t' = encrypted t
       /\ ((exists cell,
              store' = mStore e ++ [cell]
              /\ (bufferActive t' = bufferActive t
                  \/ exists b, bufferActive t' = Some b
                               /\ mData b = length (mStore e)))
           \/ (exists m cell,
                 bufferActive t = Some m
                 /\ (mData m < length (mStore e))%nat
                 /\ store' = <[mData m := cell]> (mStore e)
                 /\ (bufferActive t' = Some m \/ bufferActive t' = None))).

(** The fields of a track that demultiplexing leaves alone. *)
Definition track_static (t : Track) : MetaData * bool * bool * bool * Z :=
  (meta t, skipTrack t, seekCompleted t, encrypted t, streamNumber t).

(** The fields of a track that a seek leaves alone. *)
Definition track_identity (t : Track) : MetaData * bool * bool * Z :=
  (meta t, skipTrack t, encrypted t, streamNumber t).

(** A track as [setupTracks] leaves it: inactive, unmarked, nothing queued
    and no object in progress. *)
Definition track_idle (t : Track) : Prop :=
  skipTrack t = true /\ seekCompleted t = false
  /\ bufferQueue t = [] /\ bufferActive t = None.

(** The host pulling [n] times from one track, without options, for as
    long as it is handed a buffer. *)
Fixpoint pulls (fuel n : nat) (e : @AsfExtractor P) (track : nat)
  : run (list MediaBuffer * @AsfExtractor P) :=
  match n with
  | O => mret ([], e)
  | S n =>
      '(err, buffer, e1) ← read_l mDataSource fuel e track;
      match err, buffer with
      | OK, Some b => '(bs, e2) ← pulls fuel n e1 track; mret (b :: bs, e2)
      | _, _ => mret ([], e1)
      end
  end.

(** A run of calls of [readPacket]. *)
Inductive demux_steps : @AsfExtractor P -> @AsfExtractor P -> Prop :=
| demux_steps_refl e : demux_steps e e
| demux_steps_step e status e1 e2 :
    readPacket mDataSource e = Returns (status, e1) ->
    demux_steps e1 e2 ->
    demux_steps e e2.


(** No track is encrypted. *)
Definition no_encryption (e : @AsfExtractor P) : Prop :=
  forall j t, mTracks e !! j = Some t -> encrypted t = false.

(** Every queued buffer and every in-progress buffer points into the
    store, and the allocation of an in-progress buffer is that of no
    queued buffer and of no other in-progress buffer. *)
Definition buffers_apart (e : @AsfExtractor P) : Prop :=
  (forall j t b, mTracks e !! j = Some t -> b ∈ bufferQueue t ->
     (mData b < length (mStore e))%nat)
  /\ (forall j t m, mTracks e !! j = Some t -> bufferActive t = Some m ->
        (mData m < length (mStore e))%nat
        /\ (forall k t2 b, mTracks e !! k = Some t2 -> b ∈ bufferQueue t2 ->
              mData b <> mData m)
        /\ (forall k t2 m2, mTracks e !! k = Some t2 -> k <> j ->
              bufferActive t2 = Some m2 -> mData m2 <> mData m)).

End Predicates.

(** ** Properties *)

Section Properties.

Context {P : Type} {parser : AsfStreamParser P}.
Variable mDataSource : DataSource.

Implicit Types e : @AsfExtractor P.

Ltac run_simpl :=
  unfold mbind, mret, run_bind, run_ret in *; simpl in *.

(** *** Machine integers *)

Lemma int64_id z : in_int64 z -> int64 z = z.
Proof.
  unfold in_int64, INT64_MIN, INT64_MAX, int64, wrap_signed.
  intros H. rewrite Z.mod_small; lia.
Qed.

Lemma int32_id z : - 2 ^ 31 <= z <= INT32_MAX -> int32 z = z.
Proof.
  unfold INT32_MAX, int32, wrap_signed.
  intros H. rewrite Z.mod_small; lia.
Qed.

(** *** Track lookup *)

Lemma walk_index_spec rest : forall pos index,
  walk_index pos rest index
  = if decide (Z.to_nat index < length rest)%nat
    then Some (pos + Z.to_nat index)%nat else None.
Proof.
  induction rest as [|t next IH]; intros pos index.
  - cbn [walk_index length].
    destruct (0 <? index); destruct (decide _); try reflexivity; lia.
  - cbn [walk_index length].
    destruct (Z.ltb_spec 0 index) as [Hpos|Hneg].
    + rewrite IH.
      replace (Z.to_nat index) with (S (Z.to_nat (index - 1))) by lia.
      destruct (decide _), (decide _); try lia; [f_equal; lia | reflexivity].
    + replace (Z.to_nat index) with 0%nat by lia.
      destruct (decide _); [f_equal; lia | lia].
Qed.

Lemma getTrackByTrackIndex_spec e index :
  getTrackByTrackIndex e index
  = if decide (Z.to_nat index < length (mTracks e))%nat
    then Some (Z.to_nat index) else None.
Proof. unfold getTrackByTrackIndex. rewrite walk_index_spec. reflexivity. Qed.

Lemma getTrackByTrackIndex_out_of_range e index :
  Z.of_nat (length (mTracks e)) <= index ->
  getTrackByTrackIndex e index = None.
Proof.
  intros H. rewrite getTrackByTrackIndex_spec. destruct (decide _); [lia | reflexivity].
Qed.

Lemma getTrackByTrackIndex_Some e index track :
  getTrackByTrackIndex e index = Some track ->
  is_Some (mTracks e !! track).
Proof.
  rewrite getTrackByTrackIndex_spec. destruct (decide _); [|discriminate].
  intros [= <-]. by apply lookup_lt_is_Some.
Qed.

(** A pull on an index past the last track is refused and changes
    nothing. *)
Lemma read_out_of_range fuel e trackIndex options :
  Z.of_nat (length (mTracks e)) <= trackIndex ->
  read mDataSource fuel e trackIndex options = Returns (BAD_VALUE, None, e).
Proof.
  intros H. unfold read.
  rewrite getTrackByTrackIndex_out_of_range by done. reflexivity.
Qed.

(** [getTrack] and [getTrackMetaData] return [NULL] for an index past the
    last track that is still an [int]. *)
Lemma getTrack_out_of_range fuel e index :
  mInitialized e = true ->
  Z.of_nat (length (mTracks e)) <= index <= INT32_MAX ->
  getTrack mDataSource fuel e index = Returns (None, e)
  /\ getTrackMetaData mDataSource fuel e index 0 = Returns (None, e).
Proof.
  intros Hinit [Hlo Hhi].
  unfold getTrack, getTrackMetaData, initialize. rewrite Hinit. run_simpl.
  rewrite int32_id by (unfold INT32_MAX in *; lia).
  rewrite getTrackByTrackIndex_out_of_range by done. done.
Qed.

(** *** update_track *)

Lemma update_track_tracks e i f t :
  mTracks e !! i = Some t ->
  mTracks (update_track i f e) = <[i := f t]> (mTracks e).
Proof. intros H. unfold update_track. rewrite H. reflexivity. Qed.

Lemma update_track_region e i f :
  packet_region (update_track i f e) = packet_region e.
Proof. unfold update_track. destruct (mTracks e !! i); reflexivity. Qed.

Lemma update_track_store e i f :
  mStore (update_track i f e) = mStore e.
Proof. unfold update_track. destruct (mTracks e !! i); reflexivity. Qed.

Lemma update_track_parser e i f :
  mParser (update_track i f e) = mParser e.
Proof. unfold update_track. destruct (mTracks e !! i); reflexivity. Qed.

Lemma fmap_insert_same {A B} (g : A -> B) (l : list A) i x y :
  l !! i = Some x -> g y = g x -> g <$> <[i := y]> l = g <$> l.
Proof.
  intros Hl Hg. rewrite list_fmap_insert, Hg.
  apply list_insert_id. by rewrite list_lookup_fmap, Hl.
Qed.

Lemma clear_mark_same_output e track t :
  mTracks e !! track = Some t ->
  same_output e (update_track track (set_seekCompleted false) e).
Proof.
  intros Ht. unfold same_output.
  rewrite update_track_store, (update_track_tracks _ _ _ _ Ht).
  pose proof (update_track_region e track (set_seekCompleted false)) as Hr.
  unfold packet_region in Hr. injection Hr as _ _ Hc _.
  repeat split; try done; by eapply fmap_insert_same.
Qed.

(** *** seek_l *)

Lemma seek_l_marked e track t options :
  mTracks e !! track = Some t ->
  seekCompleted t = true ->
  seek_l e track options
  = Returns (OK, update_track track (set_seekCompleted false) e).
Proof. intros Ht Hm. unfold seek_l. rewrite Ht, Hm. reflexivity. Qed.

Lemma seek_l_no_target e track t options :
  mTracks e !! track = Some t ->
  seekCompleted t = false ->
  getSeekTo options = None ->
  seek_l e track options = Returns (OK, e).
Proof. intros Ht Hm Ho. unfold seek_l. rewrite Ht, Hm, Ho. reflexivity. Qed.

(** [seek_l] has two statuses and no other. *)
Lemma seek_l_status e track options status e' :
  seek_l e track options = Returns (status, e') ->
  status = OK \/ status = ERROR_END_OF_STREAM.
Proof.
  unfold seek_l.
  destruct (mTracks e !! track) as [t|]; [|discriminate].
  destruct (seekCompleted t); [intros [= <- _]; by left|].
  destruct (getSeekTo options) as [[seekTimeUs mode]|];
    [|intros [= <- _]; by left].
  destruct (parser_seek _ _ _) as [[packetNumber targetTime]|];
    intros [= <- _]; [by left | by right].
Qed.

Lemma same_output_refl e : same_output e e.
Proof. by unfold same_output. Qed.

Lemma read_after_seek fuel e trackIndex track options e' :
  getTrackByTrackIndex e trackIndex = Some track ->
  seek_l e track options = Returns (OK, e') ->
  read mDataSource fuel e trackIndex (Some options)
  = read_l mDataSource fuel e' track.
Proof.
  intros Hi Hs. unfold read. rewrite Hi, Hs. run_simpl. reflexivity.
Qed.

(** C9, as the code has it.  The mark of a track is tested before the
    options are asked for a seek target.  On a marked track [seek_l]
    returns [OK] with the mark cleared, whatever the options hold; with
    options that hold no seek request [seek_l] returns [OK] and the
    cursor, the queues, the in-progress buffers and the store are what
    they were.  In both cases the pull then goes on as a plain [read_l]
    from the state [seek_l] left. *)
Theorem seek_mark_consumed_by_any_options e track t options :
  mTracks e !! track = Some t ->
  (seekCompleted t = true ->
     let e' := update_track track (set_seekCompleted false) e in
     seek_l e track options = Returns (OK, e')
     /\ seekCompleted <$> mTracks e' !! track = Some false
     /\ same_output e e'
     /\ forall fuel trackIndex,
          getTrackByTrackIndex e trackIndex = Some track ->
          read mDataSource fuel e trackIndex (Some options)
          = read_l mDataSource fuel e' track)
  /\ (getSeekTo options = None ->
      exists e',
        seek_l e track options = Returns (OK, e')
        /\ same_output e e'
        /\ forall fuel trackIndex,
             getTrackByTrackIndex e trackIndex = Some track ->
             read mDataSource fuel e trackIndex (Some options)
             = read_l mDataSource fuel e' track).
Proof.
  intros Ht. split.
  - intros Hm e'. subst e'.
    pose proof (seek_l_marked e track t options Ht Hm) as Hs.
    split; [exact Hs|]. split.
    { rewrite (update_track_tracks _ _ _ _ Ht), list_lookup_insert_eq;
        [reflexivity | by eapply lookup_lt_Some]. }
    split; [by eapply clear_mark_same_output|].
    intros fuel trackIndex Hi. by apply read_after_seek.
  - intros Ho. destruct (seekCompleted t) eqn:Hm.
    + exists (update_track track (set_seekCompleted false) e).
      pose proof (seek_l_marked e track t options Ht Hm) as Hs.
      split; [exact Hs|]. split; [by eapply clear_mark_same_output|].
      intros fuel trackIndex Hi. by apply read_after_seek.
    + exists e.
      pose proof (seek_l_no_target e track t options Ht Hm Ho) as Hs.
      split; [exact Hs|]. split; [apply same_output_refl|].
      intros fuel trackIndex Hi. by apply read_after_seek.
Qed.

(** C2, as the code has it.  On a container whose parser holds no index a
    seek request on a track whose mark is clear ends in
    [ERROR_END_OF_STREAM], the status of a failed translation, with the
    extractor unchanged; the pull that carried the request returns that
    status and demultiplexes nothing. *)
Theorem seek_without_index_is_end_of_stream e track t options seekTimeUs mode :
  mTracks e !! track = Some t ->
  seekCompleted t = false ->
  getSeekTo options = Some (seekTimeUs, mode) ->
  no_index (mParser e) ->
  seek_l e track options = Returns (ERROR_END_OF_STREAM, e)
  /\ forall fuel trackIndex,
       getTrackByTrackIndex e trackIndex = Some track ->
       read mDataSource fuel e trackIndex (Some options)
       = Returns (ERROR_END_OF_STREAM, None, e).
Proof.
  intros Ht Hm Ho Hno.
  assert (Hs : seek_l e track options = Returns (ERROR_END_OF_STREAM, e)).
  { unfold seek_l. rewrite Ht, Hm, Ho, Hno. reflexivity. }
  split; [exact Hs|].
  intros fuel trackIndex Hi. unfold read. rewrite Hi, Hs. reflexivity.
Qed.

(** The flush loop visits every track. *)
Lemma flush_lookup (tracks : list Track) origin i t :
  imap (flush_track origin) tracks !! i = Some t ->
  bufferQueue t = [] /\ bufferActive t = None
  /\ (i <> origin -> seekCompleted t = true)
  /\ (forall t0, tracks !! i = Some t0 -> i = origin ->
      seekCompleted t = seekCompleted t0).
Proof.
  rewrite list_lookup_imap.
  destruct (tracks !! i) as [t0|] eqn:Ht0; [|discriminate].
  simpl. intros [= <-]. unfold flush_track.
  destruct (bool_decide (i <> origin)) eqn:Hd; simpl.
  - apply bool_decide_eq_true in Hd. repeat split; done.
  - apply bool_decide_eq_false in Hd. repeat split; try done.
    intros t1 ? _. by simplify_eq.
Qed.

(** C4.  A seek that is carried out on track [A] (no mark on [A], a
    seek target in the options, a packet found by the parser) puts the
    cursor at [begin + packetNumber * packetSize], leaves every queue
    empty and every in-progress slot cleared, marks every track but [A]
    and leaves [A] unmarked; a seek request that then comes in on a marked
    track [B] returns [OK] with the mark of [B] cleared and the cursor,
    the queues, the store and the parser as they were. *)
Theorem seek_flushes_and_marks e A tA options seekTimeUs mode packetNumber targetTime :
  mTracks e !! A = Some tA ->
  seekCompleted tA = false ->
  getSeekTo options = Some (seekTimeUs, mode) ->
  parser_seek (mParser e) (int64 (seekTimeUs * SCALE_100_NANOSEC_TO_USEC))
              (nextSync_of mode) = Some (packetNumber, targetTime) ->
  in_int64 (uint32 packetNumber * mDataPacketSize e) ->
  in_int64 (mDataPacketBeginOffset e + uint32 packetNumber * mDataPacketSize e) ->
  exists e',
    seek_l e A options = Returns (OK, e')
    /\ mDataPacketCurrentOffset e'
       = mDataPacketBeginOffset e + uint32 packetNumber * mDataPacketSize e
    /\ length (mTracks e') = length (mTracks e)
    /\ (forall i t, mTracks e' !! i = Some t ->
          bufferQueue t = [] /\ bufferActive t = None
          /\ seekCompleted t = bool_decide (i <> A))
    /\ (forall B tB options',
          mTracks e' !! B = Some tB -> B <> A ->
          let e'' := update_track B (set_seekCompleted false) e' in
          seek_l e' B options' = Returns (OK, e'')
          /\ seekCompleted <$> mTracks e'' !! B = Some false
          /\ same_output e' e''
          /\ mParser e'' = mParser e').
Proof.
  intros Ht Hm Ho Hp Hmul Hadd.
  eexists. split.
  { unfold seek_l. rewrite Ht, Hm, Ho, Hp. reflexivity. }
  cbn [mDataPacketCurrentOffset set_mTracks set_mDataPacketCurrentOffset
       mTracks mDataPacketBeginOffset mDataPacketSize].
  split. { rewrite (int64_id _ Hmul), (int64_id _ Hadd). reflexivity. }
  split. { by rewrite length_imap. }
  assert (Hall : forall i t,
    imap (flush_track A) (mTracks e) !! i = Some t ->
    bufferQueue t = [] /\ bufferActive t = None
    /\ seekCompleted t = bool_decide (i <> A)).
  { intros i t Hi. pose proof Hi as Hi'. apply flush_lookup in Hi as (Hq & Ha & Hne & Heq).
    split; [done|]. split; [done|].
    destruct (decide (i = A)) as [->|Hn].
    - rewrite (Heq tA Ht eq_refl), Hm.
      symmetry. apply bool_decide_eq_false. tauto.
    - rewrite (Hne Hn). symmetry. by apply bool_decide_eq_true. }
  split; [exact Hall|].
  intros B tB options' HB Hne.
  destruct (Hall B tB HB) as (_ & _ & HmB).
  rewrite bool_decide_eq_true_2 in HmB by done.
  match goal with |- seek_l ?s _ _ = _ /\ _ => set (e1 := s) end.
  assert (HB1 : mTracks e1 !! B = Some tB) by exact HB.
  split; [by eapply seek_l_marked|].
  split.
  { rewrite (update_track_tracks _ _ _ _ HB1), list_lookup_insert_eq;
      [reflexivity | by eapply lookup_lt_Some]. }
  split; [by eapply clear_mark_same_output|].
  apply update_track_parser.
Qed.

(** *** readPacket *)

Lemma set_fields_eta e :
  set_mTracks (mTracks e) (set_mStore (mStore e) e) = e.
Proof. destruct e; reflexivity. Qed.

Lemma update_track_frame e i f :
  exists tracks, update_track i f e = set_mTracks tracks e.
Proof.
  unfold update_track. destruct (mTracks e !! i).
  - eexists; reflexivity.
  - exists (mTracks e). destruct e; reflexivity.
Qed.

(** The loop over the payloads writes to the tracks and to the store and
    to nothing else. *)
Lemma demuxPayload_frame e payload e' :
  demuxPayload e payload = Returns e' ->
  exists tracks store, e' = set_mTracks tracks (set_mStore store e).
Proof.
  unfold demuxPayload. intros H.
  assert (Hid : exists tracks store, e = set_mTracks tracks (set_mStore store e)).
  { exists (mTracks e), (mStore e). symmetry. apply set_fields_eta. }
  assert (Hup : forall i f store, exists tracks store',
    update_track i f (set_mStore store e)
    = set_mTracks tracks (set_mStore store' e)).
  { intros i f store.
    destruct (update_track_frame (set_mStore store e) i f) as [ts ->].
    by exists ts, store. }
  assert (Hup2 : forall i f j g store, exists tracks store',
    update_track j g (update_track i f (set_mStore store e))
    = set_mTracks tracks (set_mStore store' e)).
  { intros i f j g store.
    destruct (update_track_frame (set_mStore store e) i f) as [ts ->].
    destruct (update_track_frame (set_mTracks ts (set_mStore store e)) j g)
      as [ts' ->].
    by exists ts', store. }
  assert (Hst : forall store, exists tracks store',
    set_mStore store e = set_mTracks tracks (set_mStore store' e)).
  { intros store. exists (mTracks e), store. destruct e; reflexivity. }
  repeat case_match; run_simpl; repeat case_match; simplify_eq;
    solve [ exact Hid | apply Hst | apply Hup | apply Hup2 ].
Qed.

Lemma demuxPayloads_frame payloads : forall e e',
  demuxPayloads e payloads = Returns e' ->
  exists tracks store, e' = set_mTracks tracks (set_mStore store e).
Proof.
  induction payloads as [|payload next IH]; intros e e' H; simpl in H.
  - injection H as <-. exists (mTracks e), (mStore e).
    symmetry. apply set_fields_eta.
  - destruct (demuxPayload e payload) as [e1| |] eqn:H1;
      run_simpl; try discriminate.
    apply demuxPayload_frame in H1 as (ts1 & st1 & ->).
    apply IH in H as (ts2 & st2 & ->). by exists ts2, st2.
Qed.

Lemma demuxPacket_region e data status e' :
  demuxPacket e data = Returns (status, e') ->
  packet_region e' = packet_region e.
Proof.
  unfold demuxPacket.
  destruct (parseDataPacket _ _ _) as [[st payloads] p].
  destruct (_ || _).
  - intros [= _ <-]. reflexivity.
  - destruct (demuxPayloads _ payloads) as [e1| |] eqn:H1;
      run_simpl; try discriminate.
    intros [= _ <-]. apply demuxPayloads_frame in H1 as (ts & st' & ->).
    reflexivity.
Qed.

(** C3, as the code has it.  When the parser rejects the packet under the
    cursor, [readPacket] returns [ERROR_END_OF_STREAM] with the cursor
    already one packet further, and [read_l] on a track with an empty
    queue stops there and returns that status: the packet is dropped, the
    pull is not continued. *)
Theorem malformed_packet_ends_read e data status payloads p :
  (mDataPacketEndOffset e
     <? int64 (mDataPacketCurrentOffset e + mDataPacketSize e)) = false ->
  read_fully mDataSource (mDataPacketCurrentOffset e) (mDataPacketSize e)
    = Some data ->
  parseDataPacket (mParser e) data (mDataPacketSize e) = (status, payloads, p) ->
  status <> ASF_PARSER_SUCCESS ->
  let e' := set_mParser p
              (set_mDataPacketCurrentOffset
                 (int64 (mDataPacketCurrentOffset e + mDataPacketSize e))
                 (set_mDataPacketData (Some data) e)) in
  readPacket mDataSource e = Returns (ERROR_END_OF_STREAM, e')
  /\ forall fuel track t,
       mTracks e !! track = Some t -> bufferQueue t = [] ->
       read_l mDataSource (S fuel) e track
       = Returns (ERROR_END_OF_STREAM, None, e').
Proof.
  intros Hin Hread Hparse Hbad e'.
  assert (Hrp : readPacket mDataSource e = Returns (ERROR_END_OF_STREAM, e')).
  { unfold readPacket. rewrite Hin, Hread. unfold demuxPacket.
    cbn [mParser mDataPacketSize set_mDataPacketCurrentOffset
         set_mDataPacketData].
    rewrite Hparse.
    apply Z.eqb_neq in Hbad. rewrite Hbad. reflexivity. }
  split; [exact Hrp|].
  intros fuel track t Ht Hq. cbn [read_l]. rewrite Ht, Hq, Hrp. reflexivity.
Qed.

Lemma region_ok_int64 e :
  region_ok e ->
  int64 (mDataPacketCurrentOffset e + mDataPacketSize e)
  = mDataPacketCurrentOffset e + mDataPacketSize e.
Proof.
  unfold region_ok. intros H. apply int64_id. unfold in_int64. lia.
Qed.

Lemma readPacket_end_of_region e :
  region_ok e ->
  mDataPacketEndOffset e < mDataPacketCurrentOffset e + mDataPacketSize e
  \/ read_fully mDataSource (mDataPacketCurrentOffset e) (mDataPacketSize e)
     = None ->
  readPacket mDataSource e = Returns (ERROR_END_OF_STREAM, e).
Proof.
  intros Hok H. unfold readPacket. rewrite (region_ok_int64 _ Hok).
  destruct (Z.ltb_spec (mDataPacketEndOffset e)
              (mDataPacketCurrentOffset e + mDataPacketSize e)); [done|].
  destruct H as [H|H]; [lia|]. rewrite H. reflexivity.
Qed.

Lemma readPacket_advances e data :
  region_ok e ->
  mDataPacketCurrentOffset e + mDataPacketSize e <= mDataPacketEndOffset e ->
  read_fully mDataSource (mDataPacketCurrentOffset e) (mDataPacketSize e)
    = Some data ->
  readPacket mDataSource e
  = demuxPacket (set_mDataPacketCurrentOffset
                   (mDataPacketCurrentOffset e + mDataPacketSize e)
                   (set_mDataPacketData (Some data) e)) data.
Proof.
  intros Hok Hle Hread. unfold readPacket. rewrite Hread.
  cbn [mDataPacketCurrentOffset mDataPacketSize set_mDataPacketData].
  rewrite (region_ok_int64 _ Hok).
  destruct (Z.ltb_spec (mDataPacketEndOffset e)
              (mDataPacketCurrentOffset e + mDataPacketSize e)); [lia|].
  reflexivity.
Qed.

(** One call keeps the region and moves the cursor by no packet or by
    one. *)
Lemma readPacket_region e status e' :
  region_ok e ->
  readPacket mDataSource e = Returns (status, e') ->
  region_ok e'
  /\ mDataPacketBeginOffset e' = mDataPacketBeginOffset e
  /\ mDataPacketEndOffset e' = mDataPacketEndOffset e
  /\ mDataPacketSize e' = mDataPacketSize e
  /\ (mDataPacketCurrentOffset e' = mDataPacketCurrentOffset e
      \/ mDataPacketCurrentOffset e'
         = mDataPacketCurrentOffset e + mDataPacketSize e).
Proof.
  intros Hok H.
  destruct (Z.lt_ge_cases (mDataPacketEndOffset e)
              (mDataPacketCurrentOffset e + mDataPacketSize e)) as [Hlt|Hge].
  { rewrite readPacket_end_of_region in H by auto.
    injection H as _ <-. tauto. }
  destruct (read_fully mDataSource (mDataPacketCurrentOffset e)
              (mDataPacketSize e)) as [data|] eqn:Hread.
  2:{ rewrite readPacket_end_of_region in H by auto.
      injection H as _ <-. tauto. }
  rewrite (readPacket_advances e data) in H by (auto; lia).
  apply demuxPacket_region in H. unfold packet_region in H.
  cbn in H. injection H as Hb He Hc Hs.
  unfold region_ok in *. rewrite Hb, He, Hc, Hs. lia.
Qed.

Lemma read_fully_Some (source : DataSource) offset size data :
  source offset size = Some data ->
  Z.of_nat (length data) = size ->
  read_fully source offset size = Some data.
Proof.
  intros Hs Hlen. unfold read_fully. rewrite Hs.
  by rewrite (proj2 (Z.eqb_eq _ _) Hlen).
Qed.

Lemma read_fully_short (source : DataSource) offset size :
  source offset size = None
  \/ (exists bs, source offset size = Some bs
                 /\ Z.of_nat (length bs) <> size) ->
  read_fully source offset size = None.
Proof.
  intros [Hs|(bs & Hs & Hlen)]; unfold read_fully; rewrite Hs; [done|].
  by rewrite (proj2 (Z.eqb_neq _ _) Hlen).
Qed.

(** C5, as the code has it.  On a packet region whose cursor lies between
    its two ends, [readPacket] reports the end of the stream and leaves
    the extractor as it is when one more packet would cross the end of
    the region, when the data source fails, or when it returns a number
    of bytes other than the packet size; otherwise the cursor is one
    packet size further before the packet is parsed and its payloads are
    handled.  Through any run of calls of [readPacket] from such a region
    the cursor stays between the two ends and moves by whole packets.
    That the cursor lies between the two ends is a hypothesis:
    [initialize] does not set it up and [seek_l] does not keep it. *)
Theorem cursor_moves_by_whole_packets e :
  region_ok e ->
  (mDataPacketEndOffset e < mDataPacketCurrentOffset e + mDataPacketSize e
   \/ mDataSource (mDataPacketCurrentOffset e) (mDataPacketSize e) = None
   \/ (exists bs,
         mDataSource (mDataPacketCurrentOffset e) (mDataPacketSize e) = Some bs
         /\ Z.of_nat (length bs) <> mDataPacketSize e) ->
   readPacket mDataSource e = Returns (ERROR_END_OF_STREAM, e))
  /\ (forall data,
        mDataPacketCurrentOffset e + mDataPacketSize e <= mDataPacketEndOffset e ->
        mDataSource (mDataPacketCurrentOffset e) (mDataPacketSize e) = Some data ->
        Z.of_nat (length data) = mDataPacketSize e ->
        readPacket mDataSource e
        = demuxPacket (set_mDataPacketCurrentOffset
                         (mDataPacketCurrentOffset e + mDataPacketSize e)
                         (set_mDataPacketData (Some data) e)) data
        /\ forall status e',
             readPacket mDataSource e = Returns (status, e') ->
             mDataPacketCurrentOffset e'
             = mDataPacketCurrentOffset e + mDataPacketSize e)
  /\ (forall e',
        demux_steps mDataSource e e' ->
        mDataPacketBeginOffset e' <= mDataPacketCurrentOffset e'
          <= mDataPacketEndOffset e'
        /\ mDataPacketBeginOffset e' = mDataPacketBeginOffset e
        /\ mDataPacketEndOffset e' = mDataPacketEndOffset e
        /\ mDataPacketSize e' = mDataPacketSize e
        /\ exists k : nat,
             mDataPacketCurrentOffset e'
             = mDataPacketCurrentOffset e + Z.of_nat k * mDataPacketSize e).
Proof.
  intros Hok. split.
  { intros [H|H]; apply readPacket_end_of_region; try done; [by left|].
    right. by apply read_fully_short. }
  split.
  - intros data Hle Hsrc Hlen.
    pose proof (read_fully_Some _ _ _ _ Hsrc Hlen) as Hread.
    pose proof (readPacket_advances e data Hok Hle Hread) as Hadv.
    split; [exact Hadv|].
    intros status e' H. rewrite Hadv in H.
    apply demuxPacket_region in H. unfold packet_region in H.
    cbn in H. by injection H as _ _ Hc _.
  - intros e' Hsteps. induction Hsteps as [e|e status e1 e2 Hstep _ IH].
    + unfold region_ok in Hok. repeat split; try lia. exists 0%nat. lia.
    + destruct (readPacket_region e status e1 Hok Hstep)
        as (Hok1 & Hb & He & Hs & Hc).
      destruct (IH Hok1) as (Hin & Hb2 & He2 & Hs2 & k & Hk).
      rewrite Hb2, He2, Hs2, Hb, He, Hs.
      rewrite Hb2, He2, Hb, He in Hin.
      repeat split; try lia.
      rewrite Hs in Hk.
      destruct Hc as [Hc|Hc]; rewrite Hc in Hk.
      * exists k. exact Hk.
      * exists (S k). lia.
Qed.

(** *** initialize and countTracks *)

Lemma setupTracks_video_length p videoInfo : forall tracks,
  length (setupTracks_video p videoInfo tracks)
  = (length tracks + length videoInfo)%nat.
Proof.
  induction videoInfo as [|v next IH]; intros tracks; simpl.
  - lia.
  - rewrite IH, length_app. simpl. lia.
Qed.

Lemma initialize_again fuel e :
  mInitialized e = true -> initialize mDataSource fuel e = Returns (OK, e).
Proof. intros H. unfold initialize. rewrite H. reflexivity. Qed.

(** A first call either fails and leaves the extractor uninitialized, or
    builds one track per video descriptor of the parser. *)
Lemma initialize_first fuel e0 status e :
  mInitialized e0 = false ->
  initialize mDataSource fuel e0 = Returns (status, e) ->
  (status = OK /\ mInitialized e = true
   /\ mTracks e
      = setupTracks_video (mParser e) (getVideoInfo (mParser e)) (mTracks e0))
  \/ (status <> OK /\ mInitialized e = false).
Proof.
  intros Hinit. unfold initialize. rewrite Hinit.
  repeat (case_match; try discriminate);
    run_simpl; repeat (case_match; try discriminate);
    intros ?; simplify_eq; cbn; try (right; split; [discriminate | done]);
    left; repeat split; done.
Qed.

(** C1, as the code has it.  [setupTracks] does not ask the parser for its
    audio descriptors, so after a successful initialization [countTracks]
    is the number of video descriptors of the parser, and every further
    call returns that number and leaves the extractor as it is. *)
Theorem countTracks_counts_video_descriptors fuel e0 n e :
  mInitialized e0 = false ->
  mTracks e0 = [] ->
  countTracks mDataSource fuel e0 = Returns (n, e) ->
  mInitialized e = true ->
  n = Z.of_nat (length (getVideoInfo (mParser e)))
  /\ forall fuel', countTracks mDataSource fuel' e = Returns (n, e).
Proof.
  intros Hinit Hnil Hcount Hdone. unfold countTracks in Hcount.
  destruct (initialize mDataSource fuel e0) as [[status e1]| |] eqn:Hi;
    run_simpl; try discriminate.
  destruct (initialize_first _ _ _ _ Hinit Hi) as [(-> & _ & Htr)|(Hne & Hun)].
  - rewrite bool_decide_eq_false_2 in Hcount by (intros ?; done).
    injection Hcount as <- <-.
    assert (Hn : Z.of_nat (length (mTracks e1))
                 = Z.of_nat (length (getVideoInfo (mParser e1)))).
    { rewrite Htr, setupTracks_video_length, Hnil. simpl. reflexivity. }
    split; [exact Hn|].
    intros fuel'. unfold countTracks.
    rewrite (initialize_again _ _ Hdone). run_simpl.
    reflexivity.
  - rewrite bool_decide_eq_true_2 in Hcount by done.
    injection Hcount as _ <-. congruence.
Qed.

(** *** The buffer of an object *)

Lemma alloc_size_least n :
  0 <= n ->
  let size := Z.quot (n + 4096 - 1) 4096 * 4096 in
  (4096 | size) /\ n <= size < n + 4096
  /\ forall m, (4096 | m) -> n <= m -> size <= m.
Proof.
  intros Hn size. subst size.
  rewrite Z.quot_div_nonneg by lia.
  pose proof (Z.div_mod (n + 4096 - 1) 4096 ltac:(lia)) as Hdm.
  pose proof (Z.mod_pos_bound (n + 4096 - 1) 4096 ltac:(lia)) as Hmod.
  split; [apply Z.divide_factor_r|]. split; [lia|].
  intros m [k ->] Hle.
  assert ((n + 4096 - 1) / 4096 < k + 1); [|lia].
  apply Z.div_lt_upper_bound; lia.
Qed.

Lemma memcpy_fresh (store : Store) cell src n :
  0 <= n <= Z.of_nat (length src) ->
  n <= Z.of_nat (length cell) ->
  memcpy (store ++ [cell]) (length store) 0 src n
  = Returns (store ++ [take (Z.to_nat n) src ++ drop (Z.to_nat n) cell]).
Proof.
  intros Hn Hc. unfold memcpy.
  rewrite lookup_app_r, Nat.sub_diag by lia. cbn [lookup list_lookup].
  rewrite Z.add_0_l.
  destruct (Z.leb_spec 0 n); [|lia].
  destruct (Z.leb_spec n (Z.of_nat (length src))); [|lia].
  destruct (Z.leb_spec n (Z.of_nat (length cell))); [|lia].
  cbn [andb Z.leb Z.compare]. f_equal.
  rewrite insert_app_r_alt, Nat.sub_diag by lia. reflexivity.
Qed.

Lemma new_object_buffer_spec (store : Store) payload :
  payload_ok payload ->
  payloadSize payload <= alloc_size payload ->
  new_object_buffer store payload
  = Returns (object_buffer (length store) payload,
             store ++ [fragment_data payload
                       ++ drop (Z.to_nat (payloadSize payload))
                               (replicate (Z.to_nat (alloc_size payload)) x00)]).
Proof.
  intros (Hsize & Hlen & Hmax) Hfit. unfold new_object_buffer.
  fold (alloc_size payload).
  destruct (alloc_size_least (mediaObjectLength payload) Hlen)
    as (_ & Hbound & _). fold (alloc_size payload) in Hbound.
  rewrite int32_id by (unfold INT32_MAX in *; lia).
  unfold MediaBuffer_new.
  destruct (Z.ltb_spec (alloc_size payload) 0); [lia|].
  run_simpl. rewrite memcpy_fresh; [|lia|rewrite length_replicate; lia].
  unfold object_buffer, object_meta, fragment_data.
  destruct (keyframe payload); reflexivity.
Qed.

Lemma fragment_data_length payload :
  0 <= payloadSize payload <= Z.of_nat (length (payloadData payload)) ->
  length (fragment_data payload) = Z.to_nat (payloadSize payload).
Proof. intros H. unfold fragment_data. rewrite length_take. lia. Qed.

Lemma meta_find_set_eq k v m : meta_find k (meta_set k v m) = Some v.
Proof.
  unfold meta_find, meta_set. rewrite filter_cons_True by done. reflexivity.
Qed.

Lemma meta_find_set_ne k k' v m :
  k <> k' -> meta_find k (meta_set k' v m) = meta_find k m.
Proof.
  intros Hne. unfold meta_find, meta_set.
  rewrite filter_cons_False by (simpl; congruence).
  rewrite list_filter_filter. f_equal. f_equal.
  apply list_filter_iff. intros [k0 v0]. simpl. split; [tauto|].
  intros ->. split; [reflexivity | congruence].
Qed.

Lemma object_meta_time payload :
  meta_find kKeyTime (object_meta payload)
  = Some (VInt64 (int64 (presentationTime payload * 1000))).
Proof.
  unfold object_meta. destruct (keyframe payload).
  - unfold setInt32. rewrite meta_find_set_ne by done. apply meta_find_set_eq.
  - apply meta_find_set_eq.
Qed.

Lemma object_meta_sync payload :
  meta_find kKeyIsSyncFrame (object_meta payload)
  = if keyframe payload then Some (VInt32 1) else None.
Proof.
  unfold object_meta. destruct (keyframe payload).
  - unfold setInt32. rewrite meta_find_set_eq. reflexivity.
  - reflexivity.
Qed.

(** C8.  A payload that holds its whole object, for an active track,
    puts one buffer at the end of the queue of that track and changes no
    other track: in the extractor that is returned the buffer sits on a
    fresh allocation whose size is the least multiple of 4096 not below
    the object length, its range is [0, objectLength), the bytes of the
    range are the bytes of the payload, and it carries the presentation
    time in microseconds and the sync flag of a keyframe. *)
Theorem complete_object_is_queued e payload i t :
  routes e (payloadStreamNumber payload) i t ->
  payload_ok payload ->
  mediaObjectLength payload = payloadSize payload ->
  exists e' t' buffer cell,
    demuxPayload e payload = Returns e'
    /\ e' = set_mTracks (<[i := push buffer t]> (mTracks e))
              (set_mStore (mStore e ++ [cell]) e)
    /\ mTracks e' !! i = Some t'
    /\ (forall j, j <> i -> mTracks e' !! j = mTracks e !! j)
    /\ track_static t' = track_static t
    /\ bufferQueue t' = bufferQueue t ++ [buffer]
    /\ bufferActive t' = bufferActive t
    /\ mStore e' = mStore e ++ [cell]
    /\ mData buffer = length (mStore e)
    /\ mStore e' !! mData buffer = Some cell
    /\ Z.of_nat (length cell) = alloc_size payload
    /\ ((4096 | alloc_size payload)
        /\ mediaObjectLength payload <= alloc_size payload
        /\ forall m, (4096 | m) -> mediaObjectLength payload <= m ->
                     alloc_size payload <= m)
    /\ mRangeOffset buffer = 0
    /\ mRangeLength buffer = mediaObjectLength payload
    /\ range_bytes (mStore e') buffer = Some (fragment_data payload)
    /\ meta_find kKeyTime (meta_data buffer)
       = Some (VInt64 (int64 (presentationTime payload * 1000)))
    /\ meta_find kKeyIsSyncFrame (meta_data buffer)
       = (if keyframe payload then Some (VInt32 1) else None).
Proof.
  intros (Hroute & Ht & Hskip) Hok Hwhole.
  pose proof Hok as (Hsize & Hlen & Hmax).
  destruct (alloc_size_least (mediaObjectLength payload) Hlen)
    as (Hdiv & Hbound & Hleast).
  fold (alloc_size payload) in Hdiv, Hbound, Hleast.
  assert (Hi : (i < length (mTracks e))%nat) by (by eapply lookup_lt_Some).
  eexists _, (push (object_buffer (length (mStore e)) payload) t),
          (object_buffer (length (mStore e)) payload), _.
  split.
  { unfold demuxPayload. rewrite Hroute, Ht, Hskip.
    rewrite Hwhole at 1. rewrite Z.eqb_refl. cbn [orb].
    rewrite new_object_buffer_spec by (done || lia). run_simpl.
    rewrite Hwhole at 1. rewrite Z.eqb_refl.
    unfold update_track. cbn [mTracks set_mStore]. rewrite Ht. reflexivity. }
  split; [reflexivity|].
  cbn [mTracks set_mTracks mStore set_mStore].
  split; [by apply list_lookup_insert_eq|].
  split; [intros j Hj; by apply list_lookup_insert_ne|].
  split; [reflexivity|]. split; [reflexivity|]. split; [reflexivity|].
  split; [reflexivity|]. split; [reflexivity|].
  split.
  { cbn [mData object_buffer]. by rewrite lookup_app_r, Nat.sub_diag by lia. }
  split.
  { rewrite length_app, length_drop, length_replicate,
      fragment_data_length by done. lia. }
  split; [repeat split; [done | lia | done]|].
  split; [reflexivity|]. split; [reflexivity|].
  split.
  { unfold range_bytes. cbn [mData object_buffer mRangeOffset mRangeLength].
    rewrite lookup_app_r, Nat.sub_diag by lia. cbn [lookup list_lookup fmap option_fmap option_map].
    unfold slice. rewrite drop_0, Hwhole.
    rewrite take_app_length' by (symmetry; by apply fragment_data_length).
    reflexivity. }
  split; [apply object_meta_time | apply object_meta_sync].
Qed.

(** *** The effect of one payload *)

Lemma walk_stream_Some rest : forall pos stream k,
  walk_stream pos rest stream = Some k ->
  exists t, rest !! (k - pos)%nat = Some t /\ streamNumber t = stream
            /\ (pos <= k)%nat.
Proof.
  induction rest as [|t next IH]; intros pos stream k; cbn [walk_stream].
  - discriminate.
  - destruct (Z.eqb_spec (streamNumber t) stream) as [Heq|Hne].
    + intros [= <-]. exists t. rewrite Nat.sub_diag. done.
    + intros H. apply IH in H as (t' & Hl & Hs & Hle).
      exists t'. replace (k - pos)%nat with (S (k - S pos)) by lia.
      split; [exact Hl|]. split; [exact Hs | lia].
Qed.

Lemma walk_stream_ext (l1 : list Track) : forall l2 pos stream,
  streamNumber <$> l1 = streamNumber <$> l2 ->
  walk_stream pos l1 stream = walk_stream pos l2 stream.
Proof.
  induction l1 as [|t1 l1 IH]; intros [|t2 l2] pos stream H;
    try discriminate; [reflexivity|].
  cbn in H. injection H as Hs Hl. cbn [walk_stream].
  rewrite Hs. destruct (_ =? _); [reflexivity | by apply IH].
Qed.

Lemma getTrackByStreamNumber_track e stream i :
  getTrackByStreamNumber e stream = Some i ->
  exists t, mTracks e !! i = Some t /\ streamNumber t = stream.
Proof.
  intros H. apply walk_stream_Some in H as (t & Hl & Hs & _).
  rewrite Nat.sub_0_r in Hl. by exists t.
Qed.

Lemma memcpy_inv (store : Store) a off src n store' :
  memcpy store a off src n = Returns store' ->
  exists cell, store' = <[a := cell]> store /\ (a < length store)%nat.
Proof.
  unfold memcpy. destruct (store !! a) as [cell|] eqn:Hc; [|discriminate].
  destruct (_ && _); [|discriminate]. intros [= <-].
  eexists. split; [reflexivity|]. by eapply lookup_lt_Some.
Qed.

Lemma new_object_buffer_inv (store : Store) payload b store' :
  new_object_buffer store payload = Returns (b, store') ->
  mData b = length store /\ exists cell, store' = store ++ [cell].
Proof.
  unfold new_object_buffer, MediaBuffer_new.
  destruct (_ <? 0); run_simpl; [discriminate|].
  destruct (memcpy _ _ _ _ _) as [store2| |] eqn:Hm; run_simpl;
    try discriminate.
  intros [= <- <-].
  apply memcpy_inv in Hm as (cell & -> & _).
  split; [by destruct (keyframe payload)|].
  eexists. rewrite insert_app_r_alt, Nat.sub_diag by lia. reflexivity.
Qed.

Lemma update_track_twice e i f g t :
  mTracks e !! i = Some t ->
  update_track i g (update_track i f e)
  = set_mTracks (<[i := g (f t)]> (mTracks e)) e.
Proof.
  intros Ht. unfold update_track at 2. rewrite Ht.
  unfold update_track. cbn [mTracks set_mTracks].
  rewrite list_lookup_insert_eq by (by eapply lookup_lt_Some).
  rewrite list_insert_insert_eq. reflexivity.
Qed.

Lemma update_track_once e i f t :
  mTracks e !! i = Some t ->
  update_track i f e = set_mTracks (<[i := f t]> (mTracks e)) e.
Proof. intros Ht. unfold update_track. rewrite Ht. reflexivity. Qed.

Lemma set_mStore_tracks e store t i :
  mTracks e !! i = Some t ->
  set_mStore store e = set_mTracks (<[i := t]> (mTracks e)) (set_mStore store e).
Proof.
  intros Ht. rewrite list_insert_id by done. destruct e; reflexivity.
Qed.

Lemma demuxPayload_effect e payload e' :
  demuxPayload e payload = Returns e' -> payload_effect e payload e'.
Proof.
  unfold demuxPayload, payload_effect.
  destruct (getTrackByStreamNumber e (payloadStreamNumber payload))
    as [j|] eqn:Hj; [|intros [= <-]; by left].
  destruct (mTracks e !! j) as [t|] eqn:Ht; [|intros [= <-]; by left].
  destruct (skipTrack t) eqn:Hskip; [intros [= <-]; by left|].
  destruct (_ || _).
  - destruct (new_object_buffer _ _) as [[b store]| |] eqn:Hnew;
      run_simpl; try discriminate.
    apply new_object_buffer_inv in Hnew as (Hb & cell & ->).
    assert (Ht' : forall s, mTracks (set_mStore s e) !! j = Some t) by done.
    destruct (_ =? _).
    + intros [= <-]. right. eexists j, t, _, _.
      rewrite (update_track_once _ _ _ _ (Ht' _)).
      repeat (split; [done|]). left. exists cell. split; [done|].
      by left.
    + destruct (encrypted t) eqn:Henc.
      * intros [= <-]. right. eexists j, t, _, _.
        rewrite (update_track_twice _ _ _ _ _ (Ht' _)).
        repeat (split; [done|]). left. exists cell. split; [done|].
        right. by exists b.
      * intros [= <-]. right. eexists j, t, _, _.
        rewrite (update_track_once _ _ _ _ (Ht' _)).
        repeat (split; [done|]). left. exists cell. split; [done|].
        right. by exists b.
  - destruct (bufferActive t) as [m|] eqn:Hact; [|intros [= <-]; by left].
    destruct (memcpy _ _ _ _ _) as [store| |] eqn:Hm;
      run_simpl; try discriminate.
    apply memcpy_inv in Hm as (cell & -> & Hlt).
    assert (Ht' : forall s, mTracks (set_mStore s e) !! j = Some t) by done.
    destruct (_ =? _).
    + destruct (negb (encrypted t)); intros [= <-]; right;
        eexists j, t, _, _;
        rewrite (update_track_once _ _ _ _ (Ht' _));
        repeat (split; [done|]); right; exists m, cell;
        repeat (split; [done|]); by right.
    + destruct (encrypted t) eqn:Henc; intros [= <-]; right.
      * eexists j, t, _, _.
        rewrite (update_track_once _ _ _ _ (Ht' _)).
        repeat (split; [done|]). right. exists m, cell.
        repeat (split; [done|]). by left.
      * exists j, t, t, (<[mData m := cell]> (mStore e)).
        split; [done|]. split; [done|].
        split; [by apply set_mStore_tracks|].
        repeat (split; [done|]). right. exists m, cell.
        repeat (split; [done|]). by left.
Qed.

(** *** In-progress buffers point into the store

    This holds when the extractor is built and is kept by every payload,
    every packet and every seek. *)

Lemma actives_valid_new (p0 : P) : actives_valid (AsfExtractor_new p0).
Proof. intros j t m Hj. cbn in Hj. discriminate. Qed.

Lemma actives_valid_effect e payload e' :
  actives_valid e -> payload_effect e payload e' -> actives_valid e'.
Proof.
  intros Hvalid [->|Heff]; [done|].
  destruct Heff as (j & tj & tj' & store' & Hj & Htj & -> & _ & _ & _ & Hst).
  intros k tk m Hk Hact. cbn [mTracks set_mTracks mStore set_mStore] in *.
  destruct (decide (k = j)) as [->|Hkj].
  - rewrite list_lookup_insert_eq in Hk by (by eapply lookup_lt_Some).
    injection Hk as <-.
    destruct Hst as [(cell & -> & Hb)|(m0 & cell & Ha0 & Hlt & -> & Hb)].
    + rewrite length_app. simpl.
      destruct Hb as [Hsame|(b & Hb & Hfresh)].
      * rewrite Hsame in Hact. specialize (Hvalid _ _ _ Htj Hact). lia.
      * rewrite Hb in Hact. injection Hact as <-. lia.
    + rewrite length_insert.
      destruct Hb as [Hb|Hb]; rewrite Hb in Hact; [|discriminate].
      injection Hact as <-. done.
  - rewrite list_lookup_insert_ne in Hk by done.
    specialize (Hvalid _ _ _ Hk Hact).
    destruct Hst as [(cell & -> & _)|(m0 & cell & _ & _ & -> & _)].
    + rewrite length_app. simpl. lia.
    + by rewrite length_insert.
Qed.

Lemma demuxPayloads_actives_valid payloads : forall e e',
  actives_valid e -> demuxPayloads e payloads = Returns e' ->
  actives_valid e'.
Proof.
  induction payloads as [|payload next IH]; intros e e' Hvalid Hrun.
  - by injection Hrun as <-.
  - cbn [demuxPayloads] in Hrun.
    destruct (demuxPayload e payload) as [e1| |] eqn:H1; run_simpl;
      try discriminate.
    eapply (IH e1 e'); [|done].
    eapply actives_valid_effect; [done|]. by apply demuxPayload_effect.
Qed.

Lemma readPacket_actives_valid e status e' :
  actives_valid e -> readPacket mDataSource e = Returns (status, e') ->
  actives_valid e'.
Proof.
  intros Hvalid. unfold readPacket.
  destruct (_ <? _); [by intros [= _ <-]|].
  destruct (read_fully _ _ _) as [data|]; [|by intros [= _ <-]].
  unfold demuxPacket.
  destruct (parseDataPacket _ _ _) as [[st payloads] p].
  destruct (_ || _); [by intros [= _ <-]|].
  destruct (demuxPayloads _ payloads) as [e1| |] eqn:H1; run_simpl;
    try discriminate.
  intros [= _ <-].
  eapply demuxPayloads_actives_valid; [|exact H1]. exact Hvalid.
Qed.

Lemma seek_l_actives_valid e track options status e' :
  actives_valid e -> seek_l e track options = Returns (status, e') ->
  actives_valid e'.
Proof.
  intros Hvalid. unfold seek_l.
  destruct (mTracks e !! track) as [t|] eqn:Ht; [|discriminate].
  destruct (seekCompleted t).
  { intros [= _ <-]. intros j tj m Hj Hact.
    rewrite update_track_store.
    rewrite (update_track_tracks _ _ _ _ Ht) in Hj.
    destruct (decide (j = track)) as [->|Hne].
    - rewrite list_lookup_insert_eq in Hj by (by eapply lookup_lt_Some).
      injection Hj as <-. by eapply Hvalid.
    - rewrite list_lookup_insert_ne in Hj by done. by eapply Hvalid. }
  destruct (getSeekTo options) as [[seekTimeUs mode]|]; [|by intros [= _ <-]].
  destruct (parser_seek _ _ _) as [[packetNumber targetTime]|];
    [|by intros [= _ <-]].
  intros [= _ <-]. intros j tj m Hj Hact. cbn [mTracks set_mTracks] in Hj.
  apply flush_lookup in Hj as (_ & Hnone & _). congruence.
Qed.

(** *** Payloads of other streams *)

Lemma foreign_target e stream i payload j :
  getTrackByStreamNumber e stream = Some i ->
  payloadStreamNumber payload <> stream ->
  getTrackByStreamNumber e (payloadStreamNumber payload) = Some j ->
  j <> i.
Proof.
  intros Hi Hne Hj ->.
  apply getTrackByStreamNumber_track in Hi as (t & Ht & Hs).
  apply getTrackByStreamNumber_track in Hj as (t' & Ht' & Hs').
  congruence.
Qed.

Lemma routes_foreign e stream i t payload e' :
  routes e stream i t ->
  payloadStreamNumber payload <> stream ->
  payload_effect e payload e' ->
  routes e' stream i t.
Proof.
  intros (Hr & Ht & Hskip) Hne [->|Heff]; [done|].
  destruct Heff as (j & tj & tj' & store' & Hj & Htj & -> & Hsn & _).
  pose proof (foreign_target _ _ _ _ _ Hr Hne Hj) as Hji.
  unfold routes, getTrackByStreamNumber. cbn [mTracks set_mTracks].
  split; [|split; [by rewrite list_lookup_insert_ne|done]].
  rewrite <- Hr. unfold getTrackByStreamNumber.
  apply walk_stream_ext. by eapply fmap_insert_same.
Qed.

Lemma foreign_before stream i enc e q payload e' :
  before stream i enc e q ->
  payloadStreamNumber payload <> stream ->
  demuxPayload e payload = Returns e' ->
  before stream i enc e' q.
Proof.
  intros (t & Hr & Henc & Hq & Hvalid) Hne Hrun.
  apply demuxPayload_effect in Hrun.
  exists t. split; [by eapply routes_foreign|]. split; [done|].
  split; [done|]. by eapply actives_valid_effect.
Qed.

Lemma foreign_in_phase stream i enc a size e active q off acc payload e' :
  in_phase stream i enc a size e active q off acc ->
  payloadStreamNumber payload <> stream ->
  demuxPayload e payload = Returns e' ->
  in_phase stream i enc a size e' active q off acc.
Proof.
  intros (t & cell & Hr & Henc & Hq & Hact & Hcell & Hlen & Hacc & Hiso)
         Hne Hrun.
  apply demuxPayload_effect in Hrun.
  exists t, cell. split; [by eapply routes_foreign|].
  do 3 (split; [done|]).
  destruct Hrun as [->|Heff]; [done|].
  destruct Heff as (j & tj & tj' & store' & Hj & Htj & -> & _ & _ & _ & Hst).
  destruct Hr as (Hr & _ & _).
  pose proof (foreign_target _ _ _ _ _ Hr Hne Hj) as Hji.
  destruct Hiso as (Hlt & Hiso).
  cbn [mTracks set_mTracks mStore set_mStore].
  assert (Hcell' : store' !! a = Some cell
                   /\ (length (mStore e) <= length store')%nat).
  { destruct Hst as [(c & -> & _)|(m0 & c & Ha0 & _ & -> & _)].
    - rewrite lookup_app_l by done. rewrite length_app. split; [done|lia].
    - rewrite list_lookup_insert_ne by (by eapply Hiso).
      by rewrite length_insert. }
  destruct Hcell' as (Hcell' & Hle).
  do 3 (split; [done|]).
  split; [cbn; lia|]. cbn [mTracks set_mTracks].
  intros k tk m Hk Hki Hactk.
  destruct (decide (k = j)) as [->|Hkj].
  - rewrite list_lookup_insert_eq in Hk by (by eapply lookup_lt_Some).
    injection Hk as <-.
    destruct Hst as [(c & -> & Hb)|(m0 & c & Ha0 & _ & -> & Hb)].
    + destruct Hb as [Hsame|(b & Hb & Hfresh)].
      * rewrite Hsame in Hactk. by eapply Hiso.
      * rewrite Hb in Hactk. injection Hactk as <-. lia.
    + destruct Hb as [Hb|Hb]; rewrite Hb in Hactk; [|discriminate].
      injection Hactk as <-. by eapply Hiso.
  - rewrite list_lookup_insert_ne in Hk by done. by eapply Hiso.
Qed.

(** *** Payloads of the object *)

Lemma chained_total_nonneg stream objLen frags : forall off,
  chained stream objLen off frags -> 0 <= total_size frags.
Proof.
  induction frags as [|f rest IH]; intros off; cbn [chained total_size].
  - lia.
  - intros (_ & _ & _ & Hsize & Hrest). specialize (IH _ Hrest). lia.
Qed.

Lemma chained_total_pos stream objLen frags off :
  chained stream objLen off frags -> frags <> [] -> 0 < total_size frags.
Proof.
  destruct frags as [|f rest]; [done|]. cbn [chained total_size].
  intros (_ & _ & _ & Hsize & Hrest) _.
  pose proof (chained_total_nonneg _ _ _ _ Hrest). lia.
Qed.

Lemma memcpy_spec (store : Store) a off src n cell :
  store !! a = Some cell ->
  0 <= off -> 0 <= n <= Z.of_nat (length src) ->
  off + n <= Z.of_nat (length cell) ->
  memcpy store a off src n
  = Returns (<[a := take (Z.to_nat off) cell ++ take (Z.to_nat n) src
                     ++ drop (Z.to_nat (off + n)) cell]> store).
Proof.
  intros Hc Hoff Hn Hfit. unfold memcpy. rewrite Hc.
  destruct (Z.leb_spec 0 off); [|lia].
  destruct (Z.leb_spec 0 n); [|lia].
  destruct (Z.leb_spec n (Z.of_nat (length src))); [|lia].
  destruct (Z.leb_spec (off + n) (Z.of_nat (length cell))); [|lia].
  reflexivity.
Qed.

Lemma routes_update e stream i t t' store :
  routes e stream i t ->
  streamNumber t' = streamNumber t ->
  skipTrack t' = false ->
  routes (set_mTracks (<[i := t']> (mTracks e)) (set_mStore store e))
         stream i t'.
Proof.
  intros (Hr & Ht & Hskip) Hsn Hskip'.
  unfold routes, getTrackByStreamNumber. cbn [mTracks set_mTracks].
  split; [|split; [|done]].
  - rewrite <- Hr. unfold getTrackByStreamNumber.
    apply walk_stream_ext. by eapply fmap_insert_same.
  - apply list_lookup_insert_eq. by eapply lookup_lt_Some.
Qed.

Lemma isolated_update e i a t' store :
  (a < length store)%nat ->
  (forall j t m, mTracks e !! j = Some t -> j <> i ->
                 bufferActive t = Some m -> mData m <> a) ->
  isolated (set_mTracks (<[i := t']> (mTracks e)) (set_mStore store e)) i a.
Proof.
  intros Hlt Hother. split; [exact Hlt|].
  cbn [mTracks set_mTracks]. intros j t m Hj Hji Hact.
  rewrite list_lookup_insert_ne in Hj by done. by eapply Hother.
Qed.

(** The first fragment makes the in-progress buffer, on a fresh
    allocation. *)
Lemma first_fragment stream i enc e q f rest objLen :
  before stream i enc e q ->
  chained stream objLen 0 (f :: rest) ->
  rest <> [] ->
  total_size (f :: rest) = objLen ->
  objLen + 4095 <= INT32_MAX ->
  exists e',
    demuxPayload e f = Returns e'
    /\ in_phase stream i enc (length (mStore e)) (alloc_size f) e'
         (Some (object_buffer (length (mStore e)) f))
         (q ++ emit enc (length (mStore e)) f f rest)
         (payloadSize f) (fragment_data f).
Proof.
  intros (t & Hr & Henc & Hq & Hvalid) Hch Hrest Htot Hmax.
  cbn [chained total_size] in Hch, Htot.
  destruct Hch as (Hs & Hlen & Hoff & Hsize & Hch).
  pose proof (chained_total_pos _ _ _ _ Hch Hrest) as Hpos.
  assert (Hok : payload_ok f) by (unfold payload_ok; lia).
  destruct (alloc_size_least (mediaObjectLength f) ltac:(lia))
    as (_ & Hbound & _). fold (alloc_size f) in Hbound.
  pose proof Hr as (Hroute & Ht & Hskip).
  set (a := length (mStore e)).
  set (cell := fragment_data f
               ++ drop (Z.to_nat (payloadSize f))
                       (replicate (Z.to_nat (alloc_size f)) x00)).
  set (active := set_bufferActive (Some (object_buffer a f)) t).
  set (t' := if enc then push (fragment_view a f f) active else active).
  exists (set_mTracks (<[i := t']> (mTracks e)) (set_mStore (mStore e ++ [cell]) e)).
  split.
  { unfold demuxPayload. rewrite Hs, Hroute, Ht, Hskip, Hoff.
    rewrite Z.eqb_refl, orb_true_r.
    rewrite new_object_buffer_spec by (done || lia). run_simpl.
    destruct (Z.eqb_spec (mediaObjectLength f) (payloadSize f)); [lia|].
    assert (Ht' : mTracks (set_mStore (mStore e ++ [cell]) e) !! i = Some t)
      by done.
    rewrite Henc. subst t'. destruct enc.
    - fold a. fold cell.
      rewrite (update_track_twice _ _ _ _ _ Ht').
      unfold fragment_view. rewrite Hoff. reflexivity.
    - fold a. fold cell. rewrite (update_track_once _ _ _ _ Ht').
      reflexivity. }
  exists t', cell.
  assert (Hfd : length (fragment_data f) = Z.to_nat (payloadSize f))
    by (apply fragment_data_length; lia).
  split; [apply (routes_update e stream i t); try done; subst t'; by destruct enc|].
  split; [subst t'; by destruct enc|].
  split.
  { subst t'. unfold emit. destruct rest; [done|].
    destruct enc; cbn; rewrite ?app_nil_r; by rewrite Hq. }
  split; [subst t'; by destruct enc|].
  split.
  { cbn [mStore set_mStore set_mTracks]. subst a.
    rewrite lookup_app_r, Nat.sub_diag by lia. reflexivity. }
  split.
  { subst cell. rewrite length_app, length_drop, length_replicate, Hfd. lia. }
  split; [subst cell; by rewrite take_app_length'|].
  apply isolated_update.
  - rewrite length_app. simpl. lia.
  - intros j tj m Hj _ Hact. specialize (Hvalid _ _ _ Hj Hact). lia.
Qed.

(** A later fragment is copied into the in-progress allocation at its
    offset; the last one completes the object. *)
Lemma next_fragment stream i enc a first e q off acc f rest objLen :
  in_phase stream i enc a (alloc_size first) e
           (Some (object_buffer a first)) q off acc ->
  mediaObjectLength first = objLen ->
  chained stream objLen off (f :: rest) ->
  off + total_size (f :: rest) = objLen ->
  0 < off ->
  exists e',
    demuxPayload e f = Returns e'
    /\ in_phase stream i enc a (alloc_size first) e'
         (match rest with
          | [] => None
          | _ :: _ => Some (object_buffer a first)
          end)
         (q ++ emit enc a first f rest)
         (off + payloadSize f) (acc ++ fragment_data f).
Proof.
  intros (t & cell & Hr & Henc & Hq & Hact & Hcell & Hclen & Hacc & Hiso)
         Hfirst Hch Htot Hoffpos.
  cbn [chained total_size] in Hch, Htot.
  destruct Hch as (Hs & Hlen & Hoff & Hsize & Hch).
  pose proof (chained_total_nonneg _ _ _ _ Hch) as Hnn.
  destruct (alloc_size_least (mediaObjectLength first) ltac:(lia))
    as (_ & Hbound & _). fold (alloc_size first) in Hbound.
  pose proof Hr as (Hroute & Ht & Hskip).
  destruct Hiso as (Halt & Hiso).
  set (ob := object_buffer a first) in *.
  set (cell' := take (Z.to_nat off) cell
                ++ take (Z.to_nat (payloadSize f)) (payloadData f)
                ++ drop (Z.to_nat (off + payloadSize f)) cell).
  set (t' := match rest with
             | [] => set_bufferActive None
                       (push (if enc then final_view a first f else ob) t)
             | _ :: _ => if enc then push (fragment_view a first f) t else t
             end).
  exists (set_mTracks (<[i := t']> (mTracks e))
            (set_mStore (<[a := cell']> (mStore e)) e)).
  assert (Hfd : length (fragment_data f) = Z.to_nat (payloadSize f))
    by (apply fragment_data_length; lia).
  split.
  { unfold demuxPayload. rewrite Hs, Hroute, Ht, Hskip, Hoff, Hlen.
    destruct (Z.eqb_spec objLen (payloadSize f)); [lia|].
    destruct (Z.eqb_spec off 0); [lia|]. cbn [orb].
    rewrite Hact. cbn [mData ob object_buffer].
    rewrite (memcpy_spec _ _ _ _ _ cell) by (done || lia). run_simpl.
    fold cell'.
    assert (Ht' : mTracks (set_mStore (<[a := cell']> (mStore e)) e) !! i
                  = Some t) by done.
    rewrite Henc. subst t'. destruct rest as [|f2 rest].
    - cbn [total_size] in Htot.
      destruct (Z.eqb_spec (off + payloadSize f) objLen); [|lia].
      destruct enc; cbn [negb];
        rewrite (update_track_once _ _ _ _ Ht');
        unfold final_view; rewrite ?Hoff; reflexivity.
    - pose proof (chained_total_pos _ _ _ _ Hch ltac:(done)).
      destruct (Z.eqb_spec (off + payloadSize f) objLen); [lia|].
      destruct enc.
      + rewrite (update_track_once _ _ _ _ Ht').
        unfold fragment_view. rewrite Hoff. reflexivity.
      + f_equal. by apply set_mStore_tracks. }
  exists t', cell'.
  split; [apply (routes_update e stream i t); try done; subst t';
          by destruct rest, enc|].
  split; [subst t'; by destruct rest, enc|].
  split.
  { subst t'. unfold emit.
    destruct rest, enc; cbn; rewrite ?app_nil_r; by rewrite Hq. }
  split; [subst t'; destruct rest, enc; done|].
  split.
  { cbn [mStore set_mStore set_mTracks]. by apply list_lookup_insert_eq. }
  split.
  { subst cell'. rewrite !length_app, !length_take, length_drop. lia. }
  split.
  { subst cell'. fold (fragment_data f). rewrite app_assoc.
    rewrite take_app_length'.
    - by rewrite Hacc.
    - rewrite length_app, length_take, Hfd. lia. }
  apply isolated_update; [by rewrite length_insert | exact Hiso].
Qed.

(** *** Runs of payloads *)

Lemma demuxPayloads_app pre : forall e post,
  demuxPayloads e (pre ++ post)
  = e1 ← demuxPayloads e pre; demuxPayloads e1 post.
Proof.
  induction pre as [|p pre IH]; intros e post; [reflexivity|].
  cbn [app demuxPayloads].
  destruct (demuxPayload e p) as [e1| |]; run_simpl; [apply IH|done|done].
Qed.

Lemma of_stream_cons stream p ps :
  of_stream stream (p :: ps)
  = if decide (payloadStreamNumber p = stream)
    then p :: of_stream stream ps else of_stream stream ps.
Proof. unfold of_stream. rewrite filter_cons. reflexivity. Qed.

Lemma of_stream_app stream ps1 ps2 :
  of_stream stream (ps1 ++ ps2) = of_stream stream ps1 ++ of_stream stream ps2.
Proof. unfold of_stream. apply filter_app. Qed.

Lemma total_size_app l1 l2 :
  total_size (l1 ++ l2) = total_size l1 + total_size l2.
Proof. induction l1 as [|f l1 IH]; cbn [app total_size]; lia. Qed.

Lemma chained_app stream objLen l1 : forall off l2,
  chained stream objLen off (l1 ++ l2) ->
  chained stream objLen (off + total_size l1) l2.
Proof.
  induction l1 as [|f l1 IH]; intros off l2; cbn [app chained total_size].
  - by rewrite Z.add_0_r.
  - intros (_ & _ & _ & _ & H). apply IH in H.
    by rewrite Z.add_assoc.
Qed.

Lemma chained_prefix stream objLen l1 : forall off l2,
  chained stream objLen off (l1 ++ l2) -> chained stream objLen off l1.
Proof.
  induction l1 as [|f l1 IH]; intros off l2; cbn [app chained]; [done|].
  intros (? & ? & ? & ? & H). repeat (split; [done|]). by eapply IH.
Qed.

Lemma run_foreign stream i enc a size ps : forall e e' active q off acc,
  in_phase stream i enc a size e active q off acc ->
  of_stream stream ps = [] ->
  demuxPayloads e ps = Returns e' ->
  in_phase stream i enc a size e' active q off acc.
Proof.
  induction ps as [|p ps IH]; intros e e' active q off acc Hph Hfil Hrun.
  - by injection Hrun as <-.
  - rewrite of_stream_cons in Hfil.
    destruct (decide _) as [|Hne]; [discriminate|].
    cbn [demuxPayloads] in Hrun.
    destruct (demuxPayload e p) as [e1| |] eqn:H1; run_simpl;
      try discriminate.
    eapply IH; [|done|done]. by eapply foreign_in_phase.
Qed.

Lemma run_in_phase stream i enc a first objLen ps :
  forall e e' todo1 todo2 q off acc,
  in_phase stream i enc a (alloc_size first) e
           (Some (object_buffer a first)) q off acc ->
  mediaObjectLength first = objLen ->
  of_stream stream ps = todo1 ->
  chained stream objLen off (todo1 ++ todo2) ->
  off + total_size (todo1 ++ todo2) = objLen ->
  0 < off ->
  todo1 ++ todo2 <> [] ->
  demuxPayloads e ps = Returns e' ->
  in_phase stream i enc a (alloc_size first) e'
           (match todo2 with
            | [] => None
            | _ :: _ => Some (object_buffer a first)
            end)
           (q ++ emitted enc a first todo1 todo2)
           (off + total_size todo1)
           (acc ++ concat (fragment_data <$> todo1)).
Proof.
  induction ps as [|p ps IH];
    intros e e' todo1 todo2 q off acc Hph Hfirst Hfil Hch Htot Hoff Hne Hrun.
  - injection Hrun as <-. cbn in Hfil. subst todo1.
    cbn [emitted total_size fmap list_fmap concat app] in *.
    rewrite !app_nil_r, Z.add_0_r. by destruct todo2.
  - rewrite of_stream_cons in Hfil. cbn [demuxPayloads] in Hrun.
    destruct (decide _) as [Hown|Hforeign].
    + destruct todo1 as [|f todo1]; [discriminate|].
      injection Hfil as <- Hfil.
      cbn [app] in Hch, Htot.
      destruct (next_fragment _ _ _ _ _ _ _ _ _ _ _ _ Hph Hfirst Hch Htot Hoff)
        as (e1 & H1 & Hph1).
      rewrite H1 in Hrun. run_simpl.
      cbn [emitted total_size fmap list_fmap concat].
      rewrite !app_assoc, Z.add_assoc.
      cbn [chained total_size] in Hch, Htot.
      destruct Hch as (_ & _ & _ & Hsize & Hch).
      destruct (decide (todo1 ++ todo2 = [])) as [Hnil|Hcons].
      * apply app_eq_nil in Hnil as [-> ->]. cbn [app] in Hph1.
        cbn [emitted total_size fmap list_fmap concat].
        rewrite !app_nil_r, Z.add_0_r.
        eapply run_foreign; [exact Hph1|exact Hfil|exact Hrun].
      * assert (Hact : match todo1 ++ todo2 with
                       | [] => None
                       | _ :: _ => Some (object_buffer a first)
                       end = Some (object_buffer a first))
          by (by destruct (todo1 ++ todo2)).
        rewrite Hact in Hph1.
        eapply (IH e1 e' todo1 todo2); try done; lia.
    + destruct (demuxPayload e p) as [e1| |] eqn:H1; run_simpl;
        try discriminate.
      eapply (IH e1 e' todo1 todo2); try done. by eapply foreign_in_phase.
Qed.

Lemma run_before stream i enc objLen ps : forall e e' q todo1 todo2,
  before stream i enc e q ->
  of_stream stream ps = todo1 ->
  fragmented_object stream objLen (todo1 ++ todo2) ->
  demuxPayloads e ps = Returns e' ->
  match todo1 with
  | [] => before stream i enc e' q
  | first :: _ =>
      exists a,
        in_phase stream i enc a (alloc_size first) e'
          (match todo2 with
           | [] => None
           | _ :: _ => Some (object_buffer a first)
           end)
          (q ++ emitted enc a first todo1 todo2)
          (total_size todo1)
          (concat (fragment_data <$> todo1))
  end.
Proof.
  induction ps as [|p ps IH]; intros e e' q todo1 todo2 Hb Hfil Hobj Hrun.
  - injection Hrun as <-. cbn in Hfil. by subst todo1.
  - rewrite of_stream_cons in Hfil. cbn [demuxPayloads] in Hrun.
    destruct (decide _) as [Hown|Hforeign].
    + destruct todo1 as [|f todo1]; [discriminate|].
      injection Hfil as <- Hfil.
      destruct Hobj as (Hlen & Hch & Htot & Hmax). cbn [app] in *.
      assert (Hrest : todo1 ++ todo2 <> []).
      { intros Heq. rewrite Heq in Hlen. cbn in Hlen. lia. }
      destruct (first_fragment _ _ _ _ _ _ _ _ Hb Hch Hrest Htot Hmax)
        as (e1 & H1 & Hph1).
      rewrite H1 in Hrun. run_simpl.
      exists (length (mStore e)).
      cbn [chained total_size] in Hch, Htot.
      destruct Hch as (_ & Hobjlen & _ & Hsize & Hch).
      cbn [emitted total_size fmap list_fmap concat].
      rewrite app_assoc.
      eapply (run_in_phase _ _ _ _ _ objLen ps e1 e' todo1 todo2);
        try done; try lia.
    + destruct (demuxPayload e p) as [e1| |] eqn:H1; run_simpl;
        try discriminate.
      eapply (IH e1 e' q todo1 todo2); try done. by eapply foreign_before.
Qed.

(** The payloads of a fragmented object are always handled: a run can
    only fault at a payload of another stream. *)
Lemma fragments_never_fault stream i enc objLen e q frags ps pre f post e1 :
  before stream i enc e q ->
  fragmented_object stream objLen frags ->
  of_stream stream ps = frags ->
  ps = pre ++ f :: post ->
  payloadStreamNumber f = stream ->
  demuxPayloads e pre = Returns e1 ->
  exists e2, demuxPayload e1 f = Returns e2.
Proof.
  intros Hb Hobj Hfil -> Hs Hrun.
  rewrite of_stream_app, of_stream_cons in Hfil.
  destruct (decide _); [|done].
  subst frags.
  pose proof (run_before _ _ _ _ _ _ _ _ _ _ Hb eq_refl Hobj Hrun) as Hph.
  destruct Hobj as (Hlen & Hch & Htot & Hmax).
  destruct (of_stream stream pre) as [|first todo1] eqn:Hpre.
  - cbn [app] in *.
    assert (Hrest : of_stream stream post <> []).
    { intros Heq. rewrite Heq in Hlen. cbn in Hlen. lia. }
    destruct (first_fragment _ _ _ _ _ _ _ _ Hph Hch Hrest Htot Hmax)
      as (e2 & H2 & _).
    by exists e2.
  - destruct Hph as (a & Hph).
    pose proof Hch as Hch0. cbn [app chained] in Hch0.
    destruct Hch0 as (_ & Hobjlen & _ & Hsize & Hch1).
    pose proof (chained_total_nonneg _ _ _ _ (chained_prefix _ _ _ _ _ Hch1))
      as Hnn.
    apply chained_app in Hch. rewrite Z.add_0_l in Hch.
    rewrite total_size_app in Htot.
    assert (Hpos : 0 < total_size (first :: todo1))
      by (cbn [total_size]; lia).
    destruct (next_fragment _ _ _ _ _ _ _ _ _ _ _ _ Hph Hobjlen Hch Htot Hpos)
      as (e2 & H2 & _).
    by exists e2.
Qed.

(** *** Fragmented objects *)

Lemma emitted_plain_rest a first todo1 todo2 :
  todo2 <> [] -> emitted false a first todo1 todo2 = [].
Proof.
  intros Hne. induction todo1 as [|f todo1 IH]; [done|].
  cbn [emitted]. rewrite IH, app_nil_r. unfold emit.
  destruct (todo1 ++ todo2) eqn:Heq; [|done].
  by apply app_eq_nil in Heq as [_ ?].
Qed.

Lemma emitted_plain_all a first todo1 :
  todo1 <> [] -> emitted false a first todo1 [] = [object_buffer a first].
Proof.
  induction todo1 as [|f todo1 IH]; [done|]. intros _.
  cbn [emitted]. rewrite app_nil_r. destruct todo1 as [|f2 todo1].
  - reflexivity.
  - rewrite IH by done. reflexivity.
Qed.



(** A middle or last fragment that finds no in-progress buffer is
    dropped, and the loop goes on with the next payload. *)
Lemma orphan_fragment_is_dropped e payload j tj rest :
  routes e (payloadStreamNumber payload) j tj ->
  bufferActive tj = None ->
  offsetIntoMediaObject payload <> 0 ->
  mediaObjectLength payload <> payloadSize payload ->
  demuxPayload e payload = Returns e
  /\ demuxPayloads e (payload :: rest) = demuxPayloads e rest.
Proof.
  intros (Hr & Ht & Hskip) Hact Hoff Hlen.
  assert (H : demuxPayload e payload = Returns e).
  { unfold demuxPayload. rewrite Hr, Ht, Hskip, Hact.
    apply Z.eqb_neq in Hoff, Hlen. rewrite Hoff, Hlen. reflexivity. }
  split; [exact H|]. cbn [demuxPayloads]. rewrite H. reflexivity.
Qed.

(** A middle or last payload for an unencrypted track with an
    in-progress buffer, inside the allocation of that buffer. *)
Lemma continuation_fragment e payload j tj active cell :
  routes e (payloadStreamNumber payload) j tj ->
  encrypted tj = false ->
  bufferActive tj = Some active ->
  mStore e !! mData active = Some cell ->
  offsetIntoMediaObject payload <> 0 ->
  mediaObjectLength payload <> payloadSize payload ->
  0 <= offsetIntoMediaObject payload ->
  0 <= payloadSize payload <= Z.of_nat (length (payloadData payload)) ->
  offsetIntoMediaObject payload + payloadSize payload
    <= Z.of_nat (length cell) ->
  exists e1 t1,
    demuxPayload e payload = Returns e1
    /\ mTracks e1 !! j = Some t1
    /\ mStore e1 !! mData active
       = Some (take (Z.to_nat (offsetIntoMediaObject payload)) cell
               ++ fragment_data payload
               ++ drop (Z.to_nat (offsetIntoMediaObject payload
                                  + payloadSize payload)) cell)
    /\ (offsetIntoMediaObject payload + payloadSize payload
        = mediaObjectLength payload ->
        bufferQueue t1 = bufferQueue tj ++ [active]
        /\ bufferActive t1 = None)
    /\ (offsetIntoMediaObject payload + payloadSize payload
        <> mediaObjectLength payload ->
        bufferQueue t1 = bufferQueue tj
        /\ bufferActive t1 = Some active).
Proof.
  intros (Hroute & Ht & Hskip) Henc Hact Hcell Hoff Hlen Hnn Hsize Hin.
  assert (Hj : (j < length (mTracks e))%nat) by (by eapply lookup_lt_Some).
  assert (Ha : (mData active < length (mStore e))%nat)
    by (by eapply lookup_lt_Some).
  unfold demuxPayload. rewrite Hroute, Ht, Hskip, Hact, Henc.
  rewrite (proj2 (Z.eqb_neq _ _) Hlen), (proj2 (Z.eqb_neq _ _) Hoff).
  cbn [orb negb].
  rewrite (memcpy_spec _ _ _ _ _ cell Hcell) by done. run_simpl.
  destruct (Z.eqb_spec (offsetIntoMediaObject payload + payloadSize payload)
              (mediaObjectLength payload)) as [Heq|Hne].
  - eexists _, _. split; [reflexivity|].
    rewrite (update_track_once (set_mStore _ e) j _ tj Ht).
    cbn [mTracks set_mTracks mStore set_mStore].
    split; [by apply list_lookup_insert_eq|].
    split; [by apply list_lookup_insert_eq|].
    split; [done|]. intros Hn. by destruct Hn.
  - eexists _, tj. split; [reflexivity|].
    cbn [mTracks set_mTracks mStore set_mStore].
    split; [done|].
    split; [by apply list_lookup_insert_eq|].
    split; [intros Heq; by destruct Hne | done].
Qed.

(** A packet that the parser accepts is the loop over its payloads. *)
Lemma demuxPacket_payloads e data payloads p :
  parseDataPacket (mParser e) data (mDataPacketSize e)
  = (ASF_PARSER_SUCCESS, payloads, p) ->
  payloads <> [] ->
  demuxPacket e data
  = (e' ← demuxPayloads (set_mParser p e) payloads; mret (OK, e')).
Proof.
  intros Hparse Hne. unfold demuxPacket. rewrite Hparse.
  rewrite Z.eqb_refl, bool_decide_eq_false_2 by done. reflexivity.
Qed.

(** C6, as the code has it.  The fragments of one object of a track that
    is active and not encrypted, arriving in the order of their offsets
    among payloads of other streams: every fragment is handled, nothing
    is queued for the track while a fragment is still to come, and after
    the last one the queue has grown by exactly one buffer, the
    in-progress slot is empty, and the range of the buffer is
    [0, objectLength) with the bytes of the fragments one after the
    other.  A middle or last fragment for a track without in-progress
    buffer changes nothing and the loop goes on.  The order of the
    fragments is not checked: while the track has an in-progress buffer,
    a middle or last fragment that lies inside its allocation is copied
    at its own offset, whatever has arrived before, and the fragment that
    ends at the object length queues the buffer.  A packet that the
    parser accepts with these payloads is this loop. *)
Theorem fragments_reassemble_into_one_buffer e stream i t objLen frags ps :
  routes e stream i t ->
  encrypted t = false ->
  actives_valid e ->
  fragmented_object stream objLen frags ->
  of_stream stream ps = frags ->
  (forall pre f post e1,
     ps = pre ++ f :: post -> payloadStreamNumber f = stream ->
     demuxPayloads e pre = Returns e1 ->
     exists e2, demuxPayload e1 f = Returns e2)
  /\ (forall pre post e1,
        ps = pre ++ post -> of_stream stream post <> [] ->
        demuxPayloads e pre = Returns e1 ->
        exists t1, mTracks e1 !! i = Some t1
                   /\ bufferQueue t1 = bufferQueue t)
  /\ (forall e',
        demuxPayloads e ps = Returns e' ->
        exists t' buffer,
          mTracks e' !! i = Some t'
          /\ bufferQueue t' = bufferQueue t ++ [buffer]
          /\ bufferActive t' = None
          /\ mOwnsData buffer = true
          /\ mRangeOffset buffer = 0
          /\ mRangeLength buffer = objLen
          /\ range_bytes (mStore e') buffer
             = Some (concat (fragment_data <$> frags)))
  /\ (forall e0 payload j tj rest,
        routes e0 (payloadStreamNumber payload) j tj ->
        bufferActive tj = None ->
        offsetIntoMediaObject payload <> 0 ->
        mediaObjectLength payload <> payloadSize payload ->
        demuxPayload e0 payload = Returns e0
        /\ demuxPayloads e0 (payload :: rest) = demuxPayloads e0 rest)
  /\ (forall e0 payload j tj active cell,
        routes e0 (payloadStreamNumber payload) j tj ->
        encrypted tj = false ->
        bufferActive tj = Some active ->
        mStore e0 !! mData active = Some cell ->
        offsetIntoMediaObject payload <> 0 ->
        mediaObjectLength payload <> payloadSize payload ->
        0 <= offsetIntoMediaObject payload ->
        0 <= payloadSize payload <= Z.of_nat (length (payloadData payload)) ->
        offsetIntoMediaObject payload + payloadSize payload
          <= Z.of_nat (length cell) ->
        exists e1 t1,
          demuxPayload e0 payload = Returns e1
          /\ mTracks e1 !! j = Some t1
          /\ mStore e1 !! mData active
             = Some (take (Z.to_nat (offsetIntoMediaObject payload)) cell
                     ++ fragment_data payload
                     ++ drop (Z.to_nat (offsetIntoMediaObject payload
                                        + payloadSize payload)) cell)
          /\ (offsetIntoMediaObject payload + payloadSize payload
              = mediaObjectLength payload ->
              bufferQueue t1 = bufferQueue tj ++ [active]
              /\ bufferActive t1 = None)
          /\ (offsetIntoMediaObject payload + payloadSize payload
              <> mediaObjectLength payload ->
              bufferQueue t1 = bufferQueue tj
              /\ bufferActive t1 = Some active))
  /\ (forall e0 data p,
        parseDataPacket (mParser e0) data (mDataPacketSize e0)
        = (ASF_PARSER_SUCCESS, ps, p) ->
        e = set_mParser p e0 ->
        demuxPacket e0 data
        = (e' ← demuxPayloads e ps; mret (OK, e'))).
Proof.
  intros Hr Henc Hvalid Hobj Hfil.
  assert (Hb : before stream i false e (bufferQueue t)) by (by exists t).
  split; [|split; [|split; [|split; [|split]]]].
  - intros pre f post e1 Hps Hs Hrun.
    by eapply fragments_never_fault.
  - intros pre post e1 -> Hpost Hrun.
    rewrite of_stream_app in Hfil. subst frags.
    pose proof (run_before _ _ _ _ _ _ _ _ _ _ Hb eq_refl Hobj Hrun) as Hph.
    destruct (of_stream stream pre) as [|first todo1].
    + destruct Hph as (t1 & (_ & Ht1 & _) & _ & Hq & _). by exists t1.
    + destruct Hph as (a & t1 & cell & (_ & Ht1 & _) & _ & Hq & _).
      exists t1. split; [done|].
      by rewrite emitted_plain_rest, app_nil_r in Hq.
  - intros e' Hrun.
    pose proof Hobj as (Hlen & Hch & Htot & Hmax).
    rewrite <- (app_nil_r frags) in Hobj.
    pose proof (run_before _ _ _ _ _ _ _ _ _ _ Hb Hfil Hobj Hrun) as Hph.
    destruct frags as [|first frags']; [cbn in Hlen; lia|].
    destruct Hph as (a & t' & cell & (_ & Ht' & _) & _ & Hq & Hact
                     & Hcell & _ & Hacc & _).
    rewrite emitted_plain_all in Hq by done.
    destruct Hch as (_ & Hobjlen & _).
    exists t', (object_buffer a first).
    do 6 (split; [done|]).
    unfold range_bytes. cbn [mData mRangeOffset mRangeLength object_buffer].
    rewrite Hcell. cbn [fmap option_fmap option_map]. unfold slice.
    rewrite drop_0, Hobjlen, <- Htot. by rewrite Hacc.
  - intros e0 payload j tj rest. apply orphan_fragment_is_dropped.
  - intros e0 payload j tj active cell. apply continuation_fragment.
  - intros e0 data p Hparse ->. apply demuxPacket_payloads; [done|].
    destruct Hobj as (Hlen & _). intros ->.
    rewrite <- Hfil in Hlen. cbn in Hlen. lia.
Qed.


(** ** Further properties of the code *)

(** *** Track lookup *)

Lemma walk_stream_first rest : forall pos stream k,
  walk_stream pos rest stream = Some k ->
  forall j t, (j < k - pos)%nat -> rest !! j = Some t ->
              streamNumber t <> stream.
Proof.
  induction rest as [|t0 next IH]; intros pos stream k; cbn [walk_stream].
  - discriminate.
  - destruct (Z.eqb_spec (streamNumber t0) stream) as [Heq|Hne].
    + intros [= <-] j t Hj. lia.
    + intros H j t Hj Hl.
      pose proof (walk_stream_Some _ _ _ _ H) as (_ & _ & _ & Hle).
      destruct j as [|j]; [cbn in Hl; congruence|].
      cbn in Hl. eapply (IH _ _ _ H j); [lia | done].
Qed.

Lemma walk_stream_None rest : forall pos stream,
  walk_stream pos rest stream = None <->
  forall t, t ∈ rest -> streamNumber t <> stream.
Proof.
  induction rest as [|t0 next IH]; intros pos stream; cbn [walk_stream].
  - split; [|done]. intros _ t Ht. by apply elem_of_nil in Ht.
  - destruct (Z.eqb_spec (streamNumber t0) stream) as [Heq|Hne].
    + split; [discriminate|]. intros H. exfalso.
      apply (H t0); [left | done].
    + rewrite IH. split.
      * intros H t Ht. apply elem_of_cons in Ht as [->|Ht]; [done|by apply H].
      * intros H t Ht. apply H. by right.
Qed.

(** X1.  [getTrackByTrackIndex] returns the track in position [index] for
    an index inside the list, [NULL] for an index at or past its end, and
    the first track (the head of the list, [NULL] when there is none)
    for every negative index: the loop runs only while the index is
    positive. *)
Theorem track_lookup_by_index e index :
  (0 <= index < Z.of_nat (length (mTracks e)) ->
   getTrackByTrackIndex e index = Some (Z.to_nat index))
  /\ (Z.of_nat (length (mTracks e)) <= index ->
      getTrackByTrackIndex e index = None)
  /\ (index < 0 ->
      getTrackByTrackIndex e index = getTrackByTrackIndex e 0
      /\ getTrackByTrackIndex e index
         = match mTracks e with [] => None | _ :: _ => Some 0%nat end).
Proof.
  rewrite !getTrackByTrackIndex_spec. split; [|split].
  - intros H. destruct (decide _); [done | lia].
  - intros H. destruct (decide _); [lia | done].
  - intros H. replace (Z.to_nat index) with 0%nat by lia.
    split; [done|].
    destruct (mTracks e); destruct (decide _); cbn in *; try done; lia.
Qed.

(** X2.  [getTrackByStreamNumber] returns the first track of the list
    that carries the stream number, and [NULL] exactly when no track
    carries it. *)
Theorem track_lookup_by_stream e stream :
  (forall i,
     getTrackByStreamNumber e stream = Some i ->
     exists t, mTracks e !! i = Some t /\ streamNumber t = stream
               /\ forall j t', (j < i)%nat -> mTracks e !! j = Some t' ->
                               streamNumber t' <> stream)
  /\ (getTrackByStreamNumber e stream = None <->
      forall t, t ∈ mTracks e -> streamNumber t <> stream).
Proof.
  split.
  - intros i H. unfold getTrackByStreamNumber in H.
    destruct (walk_stream_Some _ _ _ _ H) as (t & Ht & Hs & _).
    rewrite Nat.sub_0_r in Ht. exists t. split; [done|]. split; [done|].
    intros j t' Hj. apply (walk_stream_first _ _ _ _ H). lia.
  - apply walk_stream_None.
Qed.

(** X3.  A pull on an index at or past the end of the track list returns
    [BAD_VALUE], hands out no buffer and leaves the extractor as it is,
    whatever the options: no seek is carried out and no packet is read. *)
Theorem read_rejects_index_past_end fuel e trackIndex options :
  Z.of_nat (length (mTracks e)) <= trackIndex ->
  read mDataSource fuel e trackIndex options = Returns (BAD_VALUE, None, e).
Proof.
  intros H. unfold read.
  rewrite getTrackByTrackIndex_out_of_range by done. reflexivity.
Qed.

(** X4.  On an initialized extractor [getTrack] with an index inside the
    track list returns a source for that index; in the extractor it
    leaves behind, [skipTrack] of that track is false, the other fields
    of the track, every other track and the rest of the extractor are as
    they were, asking again changes nothing more, and a pull through the
    source is a pull on that track. *)
Theorem getTrack_activates_one_track fuel e index t :
  mInitialized e = true ->
  0 <= index <= INT32_MAX ->
  mTracks e !! Z.to_nat index = Some t ->
  exists e' t',
    getTrack mDataSource fuel e index
    = Returns (Some {| mTrackIndex := index |}, e')
    /\ e' = set_mTracks (<[Z.to_nat index := set_skipTrack false t]> (mTracks e)) e
    /\ mTracks e' !! Z.to_nat index = Some t'
    /\ skipTrack t' = false
    /\ meta t' = meta t
    /\ seekCompleted t' = seekCompleted t
    /\ encrypted t' = encrypted t
    /\ streamNumber t' = streamNumber t
    /\ bufferQueue t' = bufferQueue t
    /\ bufferActive t' = bufferActive t
    /\ length (mTracks e') = length (mTracks e)
    /\ (forall j, j <> Z.to_nat index -> mTracks e' !! j = mTracks e !! j)
    /\ packet_region e' = packet_region e
    /\ mStore e' = mStore e
    /\ mParser e' = mParser e
    /\ mFileMetaData e' = mFileMetaData e
    /\ mInitialized e' = true
    /\ getTrack mDataSource fuel e' index
       = Returns (Some {| mTrackIndex := index |}, e')
    /\ (forall fuel' options,
          ASFSource_read mDataSource fuel' e' {| mTrackIndex := index |} options
          = read mDataSource fuel' e' index options)
    /\ getTrackByTrackIndex e' index = Some (Z.to_nat index)
    /\ getTrackMetaData mDataSource fuel e index 0 = Returns (Some (meta t), e).
Proof.
  intros Hinit Hidx Ht.
  set (e' := set_mTracks (<[Z.to_nat index := set_skipTrack false t]> (mTracks e)) e).
  assert (Hlt : (Z.to_nat index < length (mTracks e))%nat)
    by (by eapply lookup_lt_Some).
  assert (Hi32 : int32 index = index)
    by (apply int32_id; unfold INT32_MAX in *; lia).
  assert (Hlook : getTrackByTrackIndex e index = Some (Z.to_nat index)).
  { rewrite getTrackByTrackIndex_spec. destruct (decide _); [done | lia]. }
  assert (Hlook' : getTrackByTrackIndex e' index = Some (Z.to_nat index)).
  { rewrite getTrackByTrackIndex_spec. subst e'. cbn [mTracks set_mTracks].
    rewrite length_insert. destruct (decide _); [done | lia]. }
  assert (Ht' : mTracks e' !! Z.to_nat index = Some (set_skipTrack false t)).
  { subst e'. cbn [mTracks set_mTracks]. by apply list_lookup_insert_eq. }
  exists e', (set_skipTrack false t).
  split.
  { unfold getTrack, initialize. rewrite Hinit. run_simpl.
    rewrite Hi32, Hlook. by rewrite (update_track_once _ _ _ _ Ht). }
  split; [reflexivity|]. split; [exact Ht'|].
  do 7 (split; [reflexivity|]).
  split; [subst e'; cbn [mTracks set_mTracks]; by rewrite length_insert|].
  split.
  { intros j Hj. subst e'. cbn [mTracks set_mTracks].
    by apply list_lookup_insert_ne. }
  do 4 (split; [reflexivity|]).
  split; [exact Hinit|].
  split.
  { unfold getTrack, initialize.
    replace (mInitialized e') with true by done. run_simpl.
    rewrite Hi32, Hlook'.
    rewrite (update_track_once e' (Z.to_nat index) _ (set_skipTrack false t) Ht').
    subst e'. cbn [mTracks set_mTracks]. rewrite list_insert_insert_eq.
    by destruct e. }
  split; [reflexivity|]. split; [exact Hlook'|].
  unfold getTrackMetaData, initialize. rewrite Hinit. run_simpl.
  rewrite Hi32, Hlook, Ht. reflexivity.
Qed.

(** *** Demultiplexing only appends *)

(** One state grows out of another: the same tracks with the same fixed
    fields, every queue extended at its end, no allocation removed. *)
Lemma grows_by_update e j tj tj' store :
  mTracks e !! j = Some tj ->
  track_static tj' = track_static tj ->
  bufferQueue tj `prefix_of` bufferQueue tj' ->
  (length (mStore e) <= length store)%nat ->
  let e' := set_mTracks (<[j := tj']> (mTracks e)) (set_mStore store e) in
  length (mTracks e') = length (mTracks e)
  /\ (length (mStore e) <= length (mStore e'))%nat
  /\ forall i t, mTracks e !! i = Some t ->
       exists t', mTracks e' !! i = Some t'
                  /\ track_static t' = track_static t
                  /\ bufferQueue t `prefix_of` bufferQueue t'.
Proof.
  intros Hj Hst Hq Hlen e'. subst e'. cbn [mTracks set_mTracks mStore set_mStore].
  split; [by rewrite length_insert|]. split; [done|].
  intros i t Hi. destruct (decide (i = j)) as [->|Hne].
  - exists tj'. rewrite list_lookup_insert_eq by (by eapply lookup_lt_Some).
    rewrite Hj in Hi. injection Hi as <-. done.
  - exists t. by rewrite list_lookup_insert_ne.
Qed.

Lemma demuxPayload_grows e payload e' :
  demuxPayload e payload = Returns e' ->
  length (mTracks e') = length (mTracks e)
  /\ (length (mStore e) <= length (mStore e'))%nat
  /\ forall i t, mTracks e !! i = Some t ->
       exists t', mTracks e' !! i = Some t'
                  /\ track_static t' = track_static t
                  /\ bufferQueue t `prefix_of` bufferQueue t'.
Proof.
  assert (Hid : forall e0 : @AsfExtractor P,
    length (mTracks e0) = length (mTracks e0)
    /\ (length (mStore e0) <= length (mStore e0))%nat
    /\ forall i t, mTracks e0 !! i = Some t ->
         exists t', mTracks e0 !! i = Some t'
                    /\ track_static t' = track_static t
                    /\ bufferQueue t `prefix_of` bufferQueue t').
  { intros e0. split; [done|]. split; [done|]. intros i t Hi. by exists t. }
  unfold demuxPayload.
  destruct (getTrackByStreamNumber e (payloadStreamNumber payload))
    as [j|] eqn:Hj; [|intros [= <-]; apply Hid].
  destruct (mTracks e !! j) as [t|] eqn:Ht; [|intros [= <-]; apply Hid].
  destruct (skipTrack t) eqn:Hskip; [intros [= <-]; apply Hid|].
  assert (Hpush : forall b (t0 : Track),
            bufferQueue t0 `prefix_of` bufferQueue (push b t0))
    by (intros b t0; by apply prefix_app_r).
  destruct (_ || _).
  - destruct (new_object_buffer _ _) as [[b store]| |] eqn:Hnew;
      run_simpl; try discriminate.
    apply new_object_buffer_inv in Hnew as (Hb & cell & ->).
    assert (Hlen : (length (mStore e) <= length (mStore e ++ [cell]))%nat)
      by (rewrite length_app; lia).
    destruct (_ =? _).
    + intros [= <-]. rewrite (update_track_once (set_mStore (mStore e ++ [cell]) e) j _ t Ht).
      cbn [mTracks set_mStore]; apply (grows_by_update e j t);
          first [done | reflexivity | by apply prefix_app_r].
    + destruct (encrypted t) eqn:Henc; intros [= <-].
      * rewrite (update_track_twice (set_mStore (mStore e ++ [cell]) e) j _ _ t Ht).
        cbn [mTracks set_mStore]; apply (grows_by_update e j t);
          first [done | reflexivity | by apply prefix_app_r].
      * rewrite (update_track_once (set_mStore (mStore e ++ [cell]) e) j _ t Ht).
        cbn [mTracks set_mStore]; apply (grows_by_update e j t);
          first [done | reflexivity | by apply prefix_app_r].
  - destruct (bufferActive t) as [m|] eqn:Hact; [|intros [= <-]; apply Hid].
    destruct (memcpy _ _ _ _ _) as [store| |] eqn:Hm;
      run_simpl; try discriminate.
    apply memcpy_inv in Hm as (cell & -> & Hlt).
    assert (Hlen : (length (mStore e)
                    <= length (<[mData m := cell]> (mStore e)))%nat)
      by (by rewrite length_insert).
    destruct (_ =? _).
    + destruct (negb (encrypted t)); intros [= <-];
        rewrite (update_track_once (set_mStore (<[mData m := cell]> (mStore e)) e) j _ t Ht);
        cbn [mTracks set_mStore]; apply (grows_by_update e j t);
          first [done | reflexivity | by apply prefix_app_r].
    + destruct (encrypted t) eqn:Henc; intros [= <-].
      * rewrite (update_track_once (set_mStore (<[mData m := cell]> (mStore e)) e) j _ t Ht).
        cbn [mTracks set_mStore]; apply (grows_by_update e j t);
          first [done | reflexivity | by apply prefix_app_r].
      * rewrite (set_mStore_tracks e _ t j Ht).
        cbn [mTracks set_mStore]; apply (grows_by_update e j t);
          first [done | reflexivity | by apply prefix_app_r].
Qed.

Lemma demuxPayloads_grows payloads : forall e e',
  demuxPayloads e payloads = Returns e' ->
  length (mTracks e') = length (mTracks e)
  /\ (length (mStore e) <= length (mStore e'))%nat
  /\ forall i t, mTracks e !! i = Some t ->
       exists t', mTracks e' !! i = Some t'
                  /\ track_static t' = track_static t
                  /\ bufferQueue t `prefix_of` bufferQueue t'.
Proof.
  induction payloads as [|payload next IH]; intros e e' Hrun.
  - injection Hrun as <-. split; [done|]. split; [done|].
    intros i t Hi. by exists t.
  - cbn [demuxPayloads] in Hrun.
    destruct (demuxPayload e payload) as [e1| |] eqn:H1; run_simpl;
      try discriminate.
    apply demuxPayload_grows in H1 as (Hl1 & Hs1 & Ht1).
    apply IH in Hrun as (Hl2 & Hs2 & Ht2).
    split; [congruence|]. split; [lia|].
    intros i t Hi. destruct (Ht1 i t Hi) as (t1 & Hi1 & Hst1 & Hq1).
    destruct (Ht2 i t1 Hi1) as (t2 & Hi2 & Hst2 & Hq2).
    exists t2. split; [done|]. split; [congruence|]. by etrans.
Qed.

Lemma readPacket_grows e status e' :
  readPacket mDataSource e = Returns (status, e') ->
  length (mTracks e') = length (mTracks e)
  /\ (length (mStore e) <= length (mStore e'))%nat
  /\ forall i t, mTracks e !! i = Some t ->
       exists t', mTracks e' !! i = Some t'
                  /\ track_static t' = track_static t
                  /\ bufferQueue t `prefix_of` bufferQueue t'.
Proof.
  assert (Hid : forall e0 e1 : @AsfExtractor P,
    mTracks e1 = mTracks e0 -> mStore e1 = mStore e0 ->
    length (mTracks e1) = length (mTracks e0)
    /\ (length (mStore e0) <= length (mStore e1))%nat
    /\ forall i t, mTracks e0 !! i = Some t ->
         exists t', mTracks e1 !! i = Some t'
                    /\ track_static t' = track_static t
                    /\ bufferQueue t `prefix_of` bufferQueue t').
  { intros e0 e1 -> ->. split; [done|]. split; [done|].
    intros i t Hi. by exists t. }
  unfold readPacket.
  destruct (_ <? _); [intros [= _ <-]; by apply Hid|].
  destruct (read_fully _ _ _) as [data|]; [|intros [= _ <-]; by apply Hid].
  unfold demuxPacket.
  destruct (parseDataPacket _ _ _) as [[st payloads] p].
  destruct (_ || _); [intros [= _ <-]; by apply Hid|].
  destruct (demuxPayloads _ payloads) as [e1| |] eqn:H1; run_simpl;
    try discriminate.
  intros [= _ <-]. apply demuxPayloads_grows in H1. exact H1.
Qed.

(** X5.  A call of [readPacket] that returns keeps the number of tracks
    and, for every track, its attributes, its activation, its mark, its
    encryption flag and its stream number; the queue it had is a prefix of
    the queue it has afterwards, and no allocation is removed: buffers
    are only ever added at the end of a queue. *)
Theorem readPacket_only_appends e status e' :
  readPacket mDataSource e = Returns (status, e') ->
  length (mTracks e') = length (mTracks e)
  /\ (length (mStore e) <= length (mStore e'))%nat
  /\ forall i t, mTracks e !! i = Some t ->
       exists t', mTracks e' !! i = Some t'
                  /\ track_static t' = track_static t
                  /\ bufferQueue t `prefix_of` bufferQueue t'.
Proof. apply readPacket_grows. Qed.

(** *** The pull loop *)

Lemma update_track_same e i t :
  mTracks e !! i = Some t -> update_track i (set_bufferQueue (bufferQueue t)) e = e.
Proof.
  intros Ht. rewrite (update_track_once _ _ _ _ Ht).
  replace (set_bufferQueue (bufferQueue t) t) with t by (by destruct t).
  rewrite list_insert_id by done. by destruct e.
Qed.

Lemma read_l_pop fuel e track t b rest :
  mTracks e !! track = Some t ->
  bufferQueue t = b :: rest ->
  read_l mDataSource (S fuel) e track
  = Returns (OK, Some b, update_track track (set_bufferQueue rest) e).
Proof. intros Ht Hq. cbn [read_l]. rewrite Ht, Hq. reflexivity. Qed.

(** X6.  Buffers leave a queue in the order they entered it, and while a
    queue holds buffers a pull reads no packet: [n] pulls on a track whose
    queue starts with the [n] buffers [bs] return exactly [bs], in that
    order, and change nothing but that queue. *)
Theorem queued_buffers_come_first fuel bs e track t rest :
  mTracks e !! track = Some t ->
  bufferQueue t = bs ++ rest ->
  pulls mDataSource (S fuel) (length bs) e track
  = Returns (bs, update_track track (set_bufferQueue rest) e).
Proof.
  revert e track t rest.
  induction bs as [|b bs IH]; intros e track t rest Ht Hq.
  - cbn [app] in Hq. cbn [length pulls]. rewrite <- Hq.
    by rewrite (update_track_same _ _ _ Ht).
  - cbn [app] in Hq. cbn [length pulls].
    rewrite (read_l_pop _ _ _ _ _ _ Ht Hq). run_simpl.
    set (e1 := update_track track (set_bufferQueue (bs ++ rest)) e).
    assert (Ht1 : mTracks e1 !! track = Some (set_bufferQueue (bs ++ rest) t)).
    { subst e1. rewrite (update_track_tracks _ _ _ _ Ht).
      apply list_lookup_insert_eq. by eapply lookup_lt_Some. }
    rewrite (IH e1 track _ rest Ht1 eq_refl). run_simpl.
    do 2 f_equal. subst e1.
    by rewrite (update_track_twice _ _ _ _ _ Ht), (update_track_once _ _ _ _ Ht).
Qed.

(** X7.  When the queue of a track is empty and no whole packet is left
    before the end of the packet region, or the data source cannot
    deliver one, a pull returns [ERROR_END_OF_STREAM] without a buffer and
    leaves the extractor as it is, so that every later pull gives the
    same answer. *)
Theorem read_at_end_of_packets fuel e track t :
  region_ok e ->
  mTracks e !! track = Some t ->
  bufferQueue t = [] ->
  mDataPacketEndOffset e < mDataPacketCurrentOffset e + mDataPacketSize e
  \/ read_fully mDataSource (mDataPacketCurrentOffset e) (mDataPacketSize e)
     = None ->
  read_l mDataSource (S fuel) e track = Returns (ERROR_END_OF_STREAM, None, e)
  /\ read mDataSource (S fuel) e (Z.of_nat track) None
     = Returns (ERROR_END_OF_STREAM, None, e).
Proof.
  intros Hok Ht Hq Hend.
  assert (H : read_l mDataSource (S fuel) e track
              = Returns (ERROR_END_OF_STREAM, None, e)).
  { cbn [read_l]. rewrite Ht, Hq.
    rewrite (readPacket_end_of_region _ Hok Hend). reflexivity. }
  split; [exact H|]. unfold read.
  rewrite getTrackByTrackIndex_spec, Nat2Z.id.
  destruct (decide _) as [|Hn]; [exact H|].
  exfalso. apply Hn. by eapply lookup_lt_Some.
Qed.

Lemma demuxPayload_no_timeout e payload : demuxPayload e payload <> OutOfFuel.
Proof.
  unfold demuxPayload, new_object_buffer, MediaBuffer_new, memcpy.
  repeat case_match; run_simpl; repeat case_match; congruence.
Qed.

Lemma demuxPayloads_no_timeout payloads : forall e,
  demuxPayloads e payloads <> OutOfFuel.
Proof.
  induction payloads as [|payload next IH]; intros e; [done|].
  cbn [demuxPayloads].
  pose proof (demuxPayload_no_timeout e payload).
  destruct (demuxPayload e payload); run_simpl; [apply IH|done|done].
Qed.

Lemma readPacket_no_timeout e : readPacket mDataSource e <> OutOfFuel.
Proof.
  unfold readPacket, demuxPacket.
  destruct (_ <? _); [done|].
  destruct (read_fully _ _ _); [|done].
  destruct (parseDataPacket _ _ _) as [[st payloads] p].
  destruct (_ || _); [done|].
  match goal with |- context [demuxPayloads ?s payloads] =>
    pose proof (demuxPayloads_no_timeout payloads s) as H;
    destruct (demuxPayloads s payloads) end; run_simpl; done.
Qed.

Lemma readPacket_OK e e' :
  region_ok e ->
  readPacket mDataSource e = Returns (OK, e') ->
  mDataPacketCurrentOffset e'
  = mDataPacketCurrentOffset e + mDataPacketSize e
  /\ mDataPacketCurrentOffset e + mDataPacketSize e <= mDataPacketEndOffset e.
Proof.
  intros Hok H.
  destruct (Z.lt_ge_cases (mDataPacketEndOffset e)
              (mDataPacketCurrentOffset e + mDataPacketSize e)) as [Hlt|Hge].
  { rewrite readPacket_end_of_region in H by auto. discriminate. }
  destruct (read_fully mDataSource (mDataPacketCurrentOffset e)
              (mDataPacketSize e)) as [data|] eqn:Hread.
  2:{ rewrite readPacket_end_of_region in H by auto. discriminate. }
  rewrite (readPacket_advances e data) in H by (auto; lia).
  apply demuxPacket_region in H. unfold packet_region in H.
  cbn in H. injection H as _ _ Hc _. split; [done | lia].
Qed.

Lemma read_l_enough_fuel n : forall e track t fuel,
  region_ok e ->
  0 < mDataPacketSize e ->
  mTracks e !! track = Some t ->
  (mDataPacketEndOffset e - mDataPacketCurrentOffset e) / mDataPacketSize e
    <= Z.of_nat n ->
  (n + 2 <= fuel)%nat ->
  read_l mDataSource fuel e track <> OutOfFuel.
Proof.
  induction n as [|n IH]; intros e track t fuel Hok Hpos Ht Hn Hfuel.
  - destruct fuel as [|fuel]; [lia|]. cbn [read_l]. rewrite Ht.
    destruct (bufferQueue t); [|done].
    pose proof (readPacket_no_timeout e) as Hto.
    destruct (readPacket mDataSource e) as [[err e']| |] eqn:Hrp;
      run_simpl; try done.
    destruct err; try done. exfalso.
    apply readPacket_OK in Hrp as (_ & Hle); [|done].
    assert (1 <= (mDataPacketEndOffset e - mDataPacketCurrentOffset e)
                 / mDataPacketSize e); [|lia].
    apply Z.div_le_lower_bound; lia.
  - destruct fuel as [|fuel]; [lia|]. cbn [read_l]. rewrite Ht.
    destruct (bufferQueue t); [|done].
    pose proof (readPacket_no_timeout e) as Hto.
    destruct (readPacket mDataSource e) as [[err e']| |] eqn:Hrp;
      run_simpl; try done.
    destruct err; try done. cbn.
    destruct (readPacket_region _ _ _ Hok Hrp) as (Hok' & Hb & He & Hs & _).
    destruct (readPacket_grows _ _ _ Hrp) as (_ & _ & Htr).
    destruct (Htr _ _ Ht) as (t' & Ht' & _).
    apply readPacket_OK in Hrp as (Hc & Hle); [|done].
    apply (IH e' track t' fuel); try done; try lia.
    rewrite He, Hc, Hs.
    replace (mDataPacketEndOffset e
             - (mDataPacketCurrentOffset e + mDataPacketSize e))
      with (mDataPacketEndOffset e - mDataPacketCurrentOffset e
            + (-1) * mDataPacketSize e) by lia.
    rewrite Z.div_add by lia. lia.
Qed.

Lemma read_l_more_fuel fuel : forall e track k,
  read_l mDataSource fuel e track <> OutOfFuel ->
  read_l mDataSource (fuel + k) e track = read_l mDataSource fuel e track.
Proof.
  induction fuel as [|fuel IH]; intros e track k H; [done|].
  cbn [read_l Nat.add] in *.
  destruct (mTracks e !! track) as [t|]; [|done].
  destruct (bufferQueue t); [|done].
  destruct (readPacket mDataSource e) as [[err e']| |]; run_simpl; try done.
  destruct (bool_decide (err = OK)); [by apply IH | done].
Qed.

(** X8.  The pull loop ends.  On an initialized packet region with
    packets of at least one byte, a pull with fuel for two more rounds
    than there are whole packets between the cursor and the end of the
    region is not cut off, and any larger fuel gives the same result. *)
Theorem read_l_terminates e track t fuel :
  region_ok e ->
  0 < mDataPacketSize e ->
  mTracks e !! track = Some t ->
  (Z.to_nat ((mDataPacketEndOffset e - mDataPacketCurrentOffset e)
             / mDataPacketSize e) + 2 <= fuel)%nat ->
  read_l mDataSource fuel e track <> OutOfFuel
  /\ forall k, read_l mDataSource (fuel + k) e track
               = read_l mDataSource fuel e track.
Proof.
  intros Hok Hpos Ht Hfuel.
  assert (H : read_l mDataSource fuel e track <> OutOfFuel).
  { eapply read_l_enough_fuel; try done.
    unfold region_ok in Hok.
    rewrite Z2Nat.id; [lia|]. apply Z.div_pos; lia. }
  split; [exact H|]. intros k. by apply read_l_more_fuel.
Qed.

Lemma read_l_static fuel : forall e track status buffer e',
  read_l mDataSource fuel e track = Returns (status, buffer, e') ->
  length (mTracks e') = length (mTracks e)
  /\ forall i t, mTracks e !! i = Some t ->
       exists t', mTracks e' !! i = Some t'
                  /\ track_static t' = track_static t.
Proof.
  induction fuel as [|fuel IH]; intros e track status buffer e' H;
    [discriminate|].
  cbn [read_l] in H.
  destruct (mTracks e !! track) as [t|] eqn:Ht; [|discriminate].
  destruct (bufferQueue t) as [|b rest].
  - destruct (readPacket mDataSource e) as [[err e1]| |] eqn:Hrp;
      run_simpl; try discriminate.
    apply readPacket_grows in Hrp as (Hl1 & _ & Ht1).
    assert (Hstep : length (mTracks e1) = length (mTracks e)
      /\ forall i t, mTracks e !! i = Some t ->
           exists t', mTracks e1 !! i = Some t'
                      /\ track_static t' = track_static t).
    { split; [done|]. intros i t0 Hi.
      destruct (Ht1 i t0 Hi) as (t' & ? & ? & _). by exists t'. }
    destruct (bool_decide (err = OK)).
    + apply IH in H as (Hl2 & Ht2). split; [congruence|].
      intros i t0 Hi. destruct (proj2 Hstep i t0 Hi) as (t1 & Hi1 & Hs1).
      destruct (Ht2 i t1 Hi1) as (t2 & Hi2 & Hs2).
      exists t2. split; [done | congruence].
    + by injection H as _ _ <-.
  - injection H as _ _ <-.
    rewrite (update_track_tracks _ _ _ _ Ht).
    split; [by rewrite length_insert|].
    intros i t0 Hi. destruct (decide (i = track)) as [->|Hne].
    + rewrite list_lookup_insert_eq by (by eapply lookup_lt_Some).
      eexists. split; [done|]. rewrite Ht in Hi. by injection Hi as <-.
    + rewrite list_lookup_insert_ne by done. by exists t0.
Qed.

(** X9.  The case the source warns of ("audio seek, video read, video
    seek").  A pull without options does not go through [seek_l], so the
    mark a seek left on a track outlives such pulls; the next seek request
    on that track, whatever its target, is then answered with [OK] and
    only clears the mark: the cursor, the queues and the store stay as
    the pull left them. *)
Theorem mark_outlives_pulls_without_options fuel e B tB status buffer e1 options :
  mTracks e !! B = Some tB ->
  seekCompleted tB = true ->
  read mDataSource fuel e (Z.of_nat B) None = Returns (status, buffer, e1) ->
  exists tB1,
    mTracks e1 !! B = Some tB1
    /\ seekCompleted tB1 = true
    /\ seek_l e1 B options
       = Returns (OK, update_track B (set_seekCompleted false) e1)
    /\ same_output e1 (update_track B (set_seekCompleted false) e1).
Proof.
  intros Ht Hm Hread. unfold read in Hread.
  rewrite getTrackByTrackIndex_spec, Nat2Z.id in Hread.
  destruct (decide _) as [_|Hn];
    [|exfalso; apply Hn; by eapply lookup_lt_Some].
  apply read_l_static in Hread as (_ & Htr).
  destruct (Htr _ _ Ht) as (tB1 & Ht1 & Hst).
  exists tB1. unfold track_static in Hst.
  assert (Hm1 : seekCompleted tB1 = true) by congruence.
  split; [done|]. split; [done|].
  split; [by apply (seek_l_marked e1 B tB1) |].
  by apply (clear_mark_same_output e1 B tB1).
Qed.

(** *** Initialization *)

Lemma setupTracks_video_app p videoInfo : forall tracks,
  setupTracks_video p videoInfo tracks
  = tracks ++ (video_track p <$> videoInfo).
Proof.
  induction videoInfo as [|v next IH]; intros tracks; simpl.
  - by rewrite app_nil_r.
  - rewrite IH, <- app_assoc. reflexivity.
Qed.

Lemma initialize_outcome fuel e0 status e :
  mInitialized e0 = false ->
  initialize mDataSource fuel e0 = Returns (status, e) ->
  mStore e = mStore e0
  /\ ((status = OK /\ mInitialized e = true
       /\ mTracks e
          = mTracks e0 ++ (video_track (mParser e) <$> getVideoInfo (mParser e))
       /\ mDataPacketCurrentOffset e = mDataPacketBeginOffset e
       /\ 0 <= mDataPacketSize e
       /\ hasVideo (mParser e) || hasAudio (mParser e) = true
       /\ mFileMetaData e
          = setInt64 kKeyDuration
              (Z.quot (getDuration (mParser e)) SCALE_100_NANOSEC_TO_USEC)
              (setCString kKeyMIMEType MEDIA_MIMETYPE_CONTAINER_ASF
                          (mFileMetaData e0)))
      \/ ((status = ERROR_IO \/ status = ERROR_MALFORMED
           \/ status = ERROR_UNSUPPORTED)
          /\ mInitialized e = false
          /\ mTracks e = mTracks e0
          /\ mFileMetaData e = mFileMetaData e0)).
Proof.
  intros Hinit. unfold initialize. rewrite Hinit.
  repeat (case_match; try discriminate);
    run_simpl; repeat (case_match; try discriminate);
    intros ?; simplify_eq; cbn; (split; [done|]);
    try (right; split; [tauto | done]);
    left; rewrite setupTracks_video_app;
    repeat split; try done; by apply Z.ltb_ge.
Qed.

(** X10.  A first initialization that fails returns [ERROR_IO],
    [ERROR_MALFORMED] or [ERROR_UNSUPPORTED], leaves the extractor
    uninitialized with no track added and the file attributes untouched,
    and every call of the host that went through it answers with nothing:
    no track, no source, no track attributes, an empty set of file
    attributes. *)
Theorem failed_initialization_exposes_nothing fuel e0 status e :
  mInitialized e0 = false ->
  initialize mDataSource fuel e0 = Returns (status, e) ->
  status <> OK ->
  (status = ERROR_IO \/ status = ERROR_MALFORMED \/ status = ERROR_UNSUPPORTED)
  /\ mInitialized e = false
  /\ mTracks e = mTracks e0
  /\ mFileMetaData e = mFileMetaData e0
  /\ countTracks mDataSource fuel e0 = Returns (0, e)
  /\ getMetaData mDataSource fuel e0 = Returns ([], e)
  /\ forall index,
       getTrack mDataSource fuel e0 index = Returns (None, e)
       /\ forall flags,
            getTrackMetaData mDataSource fuel e0 index flags
            = Returns (None, e).
Proof.
  intros Hinit Hrun Hne.
  destruct (initialize_outcome _ _ _ _ Hinit Hrun)
    as (_ & [(-> & _)|(Hst & Hun & Htr & Hmeta)]); [done|].
  do 4 (split; [done|]).
  unfold countTracks, getMetaData, getTrack, getTrackMetaData.
  rewrite Hrun. run_simpl.
  rewrite bool_decide_eq_true_2 by done. done.
Qed.

(** X11.  A successful first initialization of an extractor without
    tracks builds one track per video descriptor of the parser, in the
    order of the descriptors, each with the stream number and the
    encryption flag of its descriptor, skipped, unmarked, with an empty
    queue and no object in progress; the cursor is at the first packet,
    the packet size is not negative, nothing is allocated, the file
    attributes carry the container MIME type and the duration in
    microseconds, and every later initialization is a no-op that
    [getMetaData] answers with those attributes. *)
Theorem initialization_builds_idle_video_tracks fuel e0 e :
  mInitialized e0 = false ->
  mTracks e0 = [] ->
  initialize mDataSource fuel e0 = Returns (OK, e) ->
  mInitialized e = true
  /\ mTracks e = video_track (mParser e) <$> getVideoInfo (mParser e)
  /\ (forall i t, mTracks e !! i = Some t ->
        track_idle t
        /\ exists v, getVideoInfo (mParser e) !! i = Some v
             /\ streamNumber t = uint8 (videoStreamNumber v)
             /\ encrypted t = videoEncryptedContentFlag v)
  /\ mDataPacketCurrentOffset e = mDataPacketBeginOffset e
  /\ 0 <= mDataPacketSize e
  /\ mStore e = mStore e0
  /\ meta_find kKeyMIMEType (mFileMetaData e)
     = Some (VCString MEDIA_MIMETYPE_CONTAINER_ASF)
  /\ meta_find kKeyDuration (mFileMetaData e)
     = Some (VInt64 (int64 (Z.quot (getDuration (mParser e))
                                   SCALE_100_NANOSEC_TO_USEC)))
  /\ forall fuel',
       initialize mDataSource fuel' e = Returns (OK, e)
       /\ getMetaData mDataSource fuel' e = Returns (mFileMetaData e, e).
Proof.
  intros Hinit Hnil Hrun.
  destruct (initialize_outcome _ _ _ _ Hinit Hrun)
    as (Hstore & [(_ & Hdone & Htr & Hcur & Hsize & _ & Hmeta)
                 |([?|[?|?]] & _)]); try discriminate.
  rewrite Hnil in Htr. cbn [app] in Htr.
  split; [done|]. split; [done|]. split.
  { intros i t Hi. rewrite Htr, list_lookup_fmap in Hi.
    destruct (getVideoInfo (mParser e) !! i) as [v|]; [|discriminate].
    injection Hi as <-. split; [by unfold track_idle|]. by exists v. }
  do 3 (split; [done|]).
  split. { rewrite Hmeta. unfold setInt64.
           rewrite meta_find_set_ne by discriminate.
           unfold setCString. apply meta_find_set_eq. }
  split. { rewrite Hmeta. unfold setInt64. apply meta_find_set_eq. }
  intros fuel'. rewrite (and_comm _ _).
  unfold getMetaData. rewrite (initialize_again _ _ Hdone). by run_simpl.
Qed.

Lemma meta_find_nil k : meta_find k [] = None.
Proof. reflexivity. Qed.

(** X12.  After a successful initialization the attributes that
    [getTrackMetaData] returns for track [i] are those of the [i]-th
    video descriptor: its width and height, the MIME type of its FOURCC,
    the duration in microseconds, half of it (counted in units of 100 ns,
    then truncated) as thumbnail time, the parser's maximum object size
    or, when that is 0, ten packet sizes as suggested buffer size, the
    codec data exactly when its size is not 0, and none of the audio
    attributes. *)
Theorem track_metadata_after_initialization fuel e0 e i v flags :
  mInitialized e0 = false ->
  mTracks e0 = [] ->
  initialize mDataSource fuel e0 = Returns (OK, e) ->
  getVideoInfo (mParser e) !! i = Some v ->
  Z.of_nat i <= INT32_MAX ->
  exists m,
    (forall fuel',
       getTrackMetaData mDataSource fuel' e (Z.of_nat i) flags
       = Returns (Some m, e))
    /\ meta_find kKeyWidth m = Some (VInt32 (int32 (width v)))
    /\ meta_find kKeyHeight m = Some (VInt32 (int32 (height v)))
    /\ meta_find kKeyMIMEType m = Some (VCString (FourCC2MIME (fourCC v)))
    /\ meta_find kKeyDuration m
       = Some (VInt64 (int64 (Z.quot (getDuration (mParser e))
                                     SCALE_100_NANOSEC_TO_USEC)))
    /\ meta_find kKeyThumbnailTime m
       = Some (VInt64 (int64 (Z.quot (getDuration (mParser e))
                                     (SCALE_100_NANOSEC_TO_USEC * 2))))
    /\ meta_find kKeySuggestedBufferSize m
       = Some (VInt32 (int32
                 (if int32 (getMaxObjectSize (mParser e)) =? 0
                  then int32 (10 * getDataPacketSize (mParser e))
                  else int32 (getMaxObjectSize (mParser e)))))
    /\ meta_find kKeyConfigData m
       = (if videoCodecDataSize v =? 0 then None
          else Some (VData (slice 0 (videoCodecDataSize v) (videoCodecData v))))
    /\ meta_find kKeyChannelCount m = None
    /\ meta_find kKeySampleRate m = None.
Proof.
  intros Hinit Hnil Hrun Hv Hi.
  destruct (initialize_outcome _ _ _ _ Hinit Hrun)
    as (_ & [(_ & Hdone & Htr & _)|([?|[?|?]] & _)]); try discriminate.
  rewrite Hnil in Htr. cbn [app] in Htr.
  assert (Ht : mTracks e !! i = Some (video_track (mParser e) v))
    by (by rewrite Htr, list_lookup_fmap, Hv).
  exists (meta (video_track (mParser e) v)). split.
  { intros fuel'. unfold getTrackMetaData.
    rewrite (initialize_again _ _ Hdone). run_simpl.
    rewrite int32_id by (unfold INT32_MAX in *; lia).
    rewrite getTrackByTrackIndex_spec, Nat2Z.id.
    destruct (decide _) as [_|Hn];
      [|exfalso; apply Hn; by eapply lookup_lt_Some].
    by rewrite Ht. }
  unfold video_track. cbn [meta].
  unfold setInt32, setInt64, setCString, setData.
  destruct (videoCodecDataSize v =? 0);
    repeat split;
    repeat first [ rewrite meta_find_set_eq
                 | rewrite meta_find_set_ne by discriminate
                 | rewrite meta_find_nil ];
    reflexivity.
Qed.

(** X13.  The scan for the simple index object does not end on an object
    of size 0 that is not the index: the position advances by the size of
    the object, so the same header is read again, whatever the number of
    rounds. *)
Theorem index_scan_stalls_on_empty_object p offset objectHeader :
  read_fully mDataSource offset 24 = Some objectHeader ->
  isSimpleIndexObject objectHeader = false ->
  int64 (le_decode (slice 16 8 objectHeader)) = 0 ->
  0 <= offset < 2 ^ 64 ->
  forall fuel, findSimpleIndex mDataSource fuel p offset = OutOfFuel.
Proof.
  intros Hread Hno Hsize Hoff fuel.
  induction fuel as [|fuel IH]; [done|].
  cbn [findSimpleIndex]. rewrite Hread, Hno, Hsize. cbn [negb].
  replace (uint64 (offset + 0)) with offset; [exact IH|].
  rewrite Z.add_0_r. unfold uint64, wrap_unsigned.
  symmetry. apply Z.mod_small. lia.
Qed.

(** *** What a seek and a packet leave alone *)

(** X14.  A seek never adds, removes or re-identifies a track and never
    touches the store, the parser, the file attributes or the bounds of
    the packet region: every track keeps its attributes, its stream
    number, its encryption flag and its skip flag.  A seek that does not
    return [OK] changes nothing at all. *)
Theorem seek_keeps_tracks_and_region e track options status e' :
  seek_l e track options = Returns (status, e') ->
  length (mTracks e') = length (mTracks e)
  /\ (forall i t, mTracks e !! i = Some t ->
        exists t', mTracks e' !! i = Some t'
                   /\ track_identity t' = track_identity t)
  /\ mStore e' = mStore e
  /\ mParser e' = mParser e
  /\ mFileMetaData e' = mFileMetaData e
  /\ mInitialized e' = mInitialized e
  /\ mDataPacketBeginOffset e' = mDataPacketBeginOffset e
  /\ mDataPacketEndOffset e' = mDataPacketEndOffset e
  /\ mDataPacketSize e' = mDataPacketSize e
  /\ (status <> OK -> e' = e).
Proof.
  assert (Hid : forall i t, mTracks e !! i = Some t ->
            exists t', mTracks e !! i = Some t'
                       /\ track_identity t' = track_identity t)
    by (intros i t Hi; by exists t).
  unfold seek_l.
  destruct (mTracks e !! track) as [t0|] eqn:Ht; [|discriminate].
  destruct (seekCompleted t0).
  { intros [= <- <-]. rewrite (update_track_once _ _ _ _ Ht).
    cbn. rewrite length_insert. repeat split; try done.
    intros i t Hi. destruct (decide (i = track)) as [->|Hne].
    - rewrite list_lookup_insert_eq by (by eapply lookup_lt_Some).
      eexists. split; [done|]. rewrite Ht in Hi. by injection Hi as <-.
    - rewrite list_lookup_insert_ne by done. by exists t. }
  destruct (getSeekTo options) as [[seekTimeUs mode]|];
    [|intros [= <- <-]; repeat split; done].
  destruct (parser_seek _ _ _) as [[packetNumber targetTime]|];
    [|intros [= <- <-]; repeat split; done].
  intros [= <- <-]. cbn. rewrite length_imap. repeat split; try done.
  intros i t Hi. rewrite list_lookup_imap, Hi. cbn.
  eexists. split; [done|]. unfold flush_track.
  by destruct (bool_decide _).
Qed.

Lemma update_track_lookup_ne e i j f :
  i <> j -> mTracks (update_track j f e) !! i = mTracks e !! i.
Proof.
  intros Hne. unfold update_track.
  destruct (mTracks e !! j); [|done].
  cbn. by rewrite list_lookup_insert_ne.
Qed.

(** X15.  Payloads for which there is no track, or whose track has not
    been handed out by [getTrack], are dropped: the loop over them
    returns the extractor as it was, and allocates nothing. *)
Theorem payloads_without_active_track_are_dropped e payloads :
  (forall payload i t,
     payload ∈ payloads ->
     getTrackByStreamNumber e (payloadStreamNumber payload) = Some i ->
     mTracks e !! i = Some t -> skipTrack t = true) ->
  demuxPayloads e payloads = Returns e.
Proof.
  revert e.
  induction payloads as [|payload next IH]; intros e Hall; [done|].
  cbn [demuxPayloads].
  assert (H1 : demuxPayload e payload = Returns e).
  { unfold demuxPayload.
    destruct (getTrackByStreamNumber e (payloadStreamNumber payload))
      as [i|] eqn:Hi; [|done].
    destruct (mTracks e !! i) as [t|] eqn:Ht; [|done].
    rewrite (Hall payload i t); [done| |done|done]. apply list_elem_of_here. }
  rewrite H1. run_simpl. apply IH.
  intros p i t Hp. apply Hall. by apply list_elem_of_further.
Qed.

Lemma demuxPayload_skipped e payload e' i t :
  demuxPayload e payload = Returns e' ->
  mTracks e !! i = Some t -> skipTrack t = true ->
  mTracks e' !! i = Some t.
Proof.
  intros H Hi Hskip. rewrite <- Hi. revert H. unfold demuxPayload.
  destruct (getTrackByStreamNumber e (payloadStreamNumber payload))
    as [j|]; [|by intros [= <-]].
  destruct (mTracks e !! j) as [tj|] eqn:Hj; [|by intros [= <-]].
  destruct (skipTrack tj) eqn:Hsj; [by intros [= <-]|].
  assert (Hne : i <> j) by (intros ->; congruence).
  destruct (_ || _).
  - destruct (new_object_buffer _ _) as [[b store]| |];
      run_simpl; try discriminate.
    repeat case_match; intros [= <-];
      by rewrite ?update_track_lookup_ne.
  - destruct (bufferActive tj); [|by intros [= <-]].
    destruct (memcpy _ _ _ _ _) as [store| |]; run_simpl; try discriminate.
    repeat case_match; intros [= <-];
      by rewrite ?update_track_lookup_ne.
Qed.

Lemma demuxPayloads_skipped payloads : forall e e' i t,
  demuxPayloads e payloads = Returns e' ->
  mTracks e !! i = Some t -> skipTrack t = true ->
  mTracks e' !! i = Some t.
Proof.
  induction payloads as [|payload next IH]; intros e e' i t H Hi Hskip.
  - by injection H as <-.
  - cbn [demuxPayloads] in H.
    destruct (demuxPayload e payload) as [e1| |] eqn:H1;
      run_simpl; try discriminate.
    eapply IH; [exact H| |done].
    by eapply demuxPayload_skipped.
Qed.

Lemma readPacket_skipped e status e' i t :
  readPacket mDataSource e = Returns (status, e') ->
  mTracks e !! i = Some t -> skipTrack t = true ->
  mTracks e' !! i = Some t.
Proof.
  unfold readPacket, demuxPacket.
  destruct (_ <? _); [by intros [= _ <-]|].
  destruct (read_fully _ _ _); [|by intros [= _ <-]].
  destruct (parseDataPacket _ _ _) as [[st payloads] p].
  destruct (_ || _); [by intros [= _ <-]|].
  match goal with |- context [demuxPayloads ?s payloads] =>
    destruct (demuxPayloads s payloads) as [e1| |] eqn:H1 end;
    run_simpl; try discriminate.
  intros [= _ <-] Hi Hskip.
  by apply (demuxPayloads_skipped _ _ _ _ _ H1).
Qed.

(** X16.  A track that has not been handed out by [getTrack] is never
    served: whatever the packets hold, a pull on it that returns comes
    back without a buffer and with a status other than [OK], and the
    track is as it was. *)
Theorem skipped_track_is_never_served fuel e track t status buffer e' :
  mTracks e !! track = Some t ->
  skipTrack t = true ->
  bufferQueue t = [] ->
  read_l mDataSource fuel e track = Returns (status, buffer, e') ->
  status <> OK /\ buffer = None /\ mTracks e' !! track = Some t.
Proof.
  revert e track t status buffer e'.
  induction fuel as [|fuel IH]; intros e track t status buffer e' Ht Hskip Hq H;
    [discriminate|].
  cbn [read_l] in H. rewrite Ht, Hq in H.
  destruct (readPacket mDataSource e) as [[err e1]| |] eqn:Hrp;
    run_simpl; try discriminate.
  pose proof (readPacket_skipped _ _ _ _ _ Hrp Ht Hskip) as Ht1.
  destruct (bool_decide (err = OK)) eqn:Herr.
  - by apply (IH e1 track t).
  - apply bool_decide_eq_false in Herr. by injection H as <- <- <-.
Qed.

(** *** Objects that are not completed *)

(** X17.  When the first payload of a fragmented object arrives for a
    track that is still following an earlier object, the new buffer takes
    the in-progress slot: the earlier object is not queued, then or
    later, its allocation stays as it is, and the queue is unchanged. *)
Theorem new_object_replaces_unfinished_one e i t old payload :
  routes e (payloadStreamNumber payload) i t ->
  encrypted t = false ->
  bufferActive t = Some old ->
  payload_ok payload ->
  offsetIntoMediaObject payload = 0 ->
  payloadSize payload < mediaObjectLength payload ->
  exists e' t',
    demuxPayload e payload = Returns e'
    /\ mTracks e' !! i = Some t'
    /\ bufferActive t' = Some (object_buffer (length (mStore e)) payload)
    /\ bufferQueue t' = bufferQueue t
    /\ (forall a, (a < length (mStore e))%nat -> mStore e' !! a = mStore e !! a)
    /\ length (mStore e') = S (length (mStore e)).
Proof.
  intros (Hroute & Ht & Hskip) Henc Hact Hok Hoff Hlt.
  assert (Hsize : payloadSize payload <= alloc_size payload).
  { destruct Hok as (_ & Hnn & _).
    pose proof (alloc_size_least (mediaObjectLength payload) Hnn) as (_ & ? & _).
    unfold alloc_size. lia. }
  unfold demuxPayload. rewrite Hroute, Ht, Hskip, Hoff.
  rewrite (proj2 (Z.eqb_neq _ _)) by lia.
  cbn [orb Z.eqb].
  rewrite (new_object_buffer_spec _ _ Hok Hsize). run_simpl.
  rewrite Henc.
  eexists _, _. split; [reflexivity|].
  rewrite (update_track_once (set_mStore _ e) i _ t Ht).
  cbn [mTracks set_mTracks mStore set_mStore].
  split; [apply list_lookup_insert_eq; by eapply lookup_lt_Some|].
  split; [done|]. split; [done|].
  split; [intros a Ha; by rewrite lookup_app_l | rewrite length_app; cbn; lia].
Qed.

(** X18.  The copy of a middle or last payload is made without a check
    of the buffer size (the source leaves it as a TODO): when the payload
    reaches past the end of the allocation of the in-progress buffer, the
    copy lies outside the allocation, and neither the payload, nor the
    packet loop, nor [readPacket] returns. *)
Theorem fragment_past_allocation_is_not_caught e i t active cell payload :
  routes e (payloadStreamNumber payload) i t ->
  bufferActive t = Some active ->
  mStore e !! mData active = Some cell ->
  offsetIntoMediaObject payload <> 0 ->
  mediaObjectLength payload <> payloadSize payload ->
  Z.of_nat (length cell) < offsetIntoMediaObject payload + payloadSize payload ->
  demuxPayload e payload = Faults
  /\ forall rest, demuxPayloads e (payload :: rest) = Faults.
Proof.
  intros (Hroute & Ht & Hskip) Hact Hcell Hoff Hlen Hpast.
  assert (H : demuxPayload e payload = Faults).
  { unfold demuxPayload. rewrite Hroute, Ht, Hskip, Hact.
    rewrite (proj2 (Z.eqb_neq _ _) Hlen), (proj2 (Z.eqb_neq _ _) Hoff).
    cbn [orb]. unfold memcpy. rewrite Hcell.
    rewrite (proj2 (Z.leb_gt _ _) Hpast), andb_false_r. reflexivity. }
  split; [exact H|]. intros rest. cbn [demuxPayloads]. by rewrite H.
Qed.

(** *** The views of an encrypted object *)





(** *** Queued objects stay as they are *)

Lemma apart_update e j t t' store' :
  buffers_apart e ->
  mTracks e !! j = Some t ->
  (length (mStore e) <= length store')%nat ->
  (forall b, b ∈ bufferQueue t' -> (mData b < length store')%nat) ->
  (forall b k t2 m2,
     b ∈ bufferQueue t' -> mTracks e !! k = Some t2 -> k <> j ->
     bufferActive t2 = Some m2 -> mData b <> mData m2) ->
  (forall m, bufferActive t' = Some m ->
     (mData m < length store')%nat
     /\ (forall b, b ∈ bufferQueue t' -> mData b <> mData m)
     /\ (forall k t2 b, mTracks e !! k = Some t2 -> k <> j ->
           b ∈ bufferQueue t2 -> mData b <> mData m)
     /\ (forall k t2 m2, mTracks e !! k = Some t2 -> k <> j ->
           bufferActive t2 = Some m2 -> mData m2 <> mData m)) ->
  buffers_apart (set_mTracks (<[j := t']> (mTracks e)) (set_mStore store' e)).
Proof.
  intros (Hq & Ha) Hj Hlen Hq' Hqa' Ha'.
  assert (Hjlt : (j < length (mTracks e))%nat) by (by eapply lookup_lt_Some).
  unfold buffers_apart. cbn [mTracks set_mTracks mStore set_mStore].
  split.
  - intros k tk b Hk Hb. destruct (decide (k = j)) as [->|Hne].
    + rewrite list_lookup_insert_eq in Hk by done. injection Hk as <-. auto.
    + rewrite list_lookup_insert_ne in Hk by done.
      pose proof (Hq _ _ _ Hk Hb). lia.
  - intros k tk m Hk Hact. destruct (decide (k = j)) as [->|Hne].
    + rewrite list_lookup_insert_eq in Hk by done. injection Hk as <-.
      destruct (Ha' _ Hact) as (Hb & Hown & Hoq & Hoa).
      split; [done|]. split.
      * intros k2 t2 b Hk2 Hb2. destruct (decide (k2 = j)) as [->|Hne2].
        -- rewrite list_lookup_insert_eq in Hk2 by done.
           injection Hk2 as <-. auto.
        -- rewrite list_lookup_insert_ne in Hk2 by done. eauto.
      * intros k2 t2 m2 Hk2 Hne2 Hact2.
        rewrite list_lookup_insert_ne in Hk2 by done. eauto.
    + rewrite list_lookup_insert_ne in Hk by done.
      destruct (Ha _ _ _ Hk Hact) as (Hb & Hoq & Hoa).
      split; [lia|]. split.
      * intros k2 t2 b Hk2 Hb2. destruct (decide (k2 = j)) as [->|Hne2].
        -- rewrite list_lookup_insert_eq in Hk2 by done.
           injection Hk2 as <-. eauto.
        -- rewrite list_lookup_insert_ne in Hk2 by done. eauto.
      * intros k2 t2 m2 Hk2 Hne2 Hact2.
        destruct (decide (k2 = j)) as [->|Hne3].
        -- rewrite list_lookup_insert_eq in Hk2 by done.
           injection Hk2 as <-.
           destruct (Ha' _ Hact2) as (_ & _ & _ & Hoa2).
           intros Heq. apply (Hoa2 _ _ _ Hk Hne Hact). by symmetry.
        -- rewrite list_lookup_insert_ne in Hk2 by done. eauto.
Qed.

Lemma demuxPayload_apart e payload e' :
  no_encryption e ->
  buffers_apart e ->
  demuxPayload e payload = Returns e' ->
  buffers_apart e'
  /\ forall j t b, mTracks e !! j = Some t -> b ∈ bufferQueue t ->
       mStore e' !! mData b = mStore e !! mData b.
Proof.
  intros Hnoenc Hap. pose proof Hap as (Hq & Ha).
  unfold demuxPayload.
  destruct (getTrackByStreamNumber e (payloadStreamNumber payload))
    as [j|] eqn:Hj; [|by intros [= <-]].
  destruct (mTracks e !! j) as [t|] eqn:Ht; [|by intros [= <-]].
  destruct (skipTrack t) eqn:Hskip; [by intros [= <-]|].
  rewrite (Hnoenc _ _ Ht). cbn [negb].
  destruct (_ || _).
  - destruct (new_object_buffer _ _) as [[b store]| |] eqn:Hnew;
      run_simpl; try discriminate.
    apply new_object_buffer_inv in Hnew as (Hb & cell & ->).
    assert (Hstable : forall k t2 b2, mTracks e !! k = Some t2 ->
              b2 ∈ bufferQueue t2 ->
              (mStore e ++ [cell]) !! mData b2 = mStore e !! mData b2)
      by (intros k t2 b2 Hk Hb2; apply lookup_app_l; eauto).
    destruct (_ =? _); intros [= <-];
      rewrite (update_track_once (set_mStore (mStore e ++ [cell]) e) j _ t Ht);
      cbn [mTracks set_mStore]; (split; [|exact Hstable]);
      apply (apart_update e j t); try done;
      rewrite ?length_app; cbn [length bufferQueue bufferActive
                                push set_bufferActive set_bufferQueue].
    + lia.
    + intros b0 [Hin| ->%list_elem_of_singleton]%elem_of_app;
        [pose proof (Hq _ _ _ Ht Hin) | rewrite Hb]; lia.
    + intros b0 k t2 m2 [Hin| ->%list_elem_of_singleton]%elem_of_app Hk Hne Hact.
      * destruct (Ha _ _ _ Hk Hact) as (_ & Hoq & _). eauto.
      * destruct (Ha _ _ _ Hk Hact) as (Hlt & _). rewrite Hb. lia.
    + intros m Hact. destruct (Ha _ _ _ Ht Hact) as (Hlt & Hoq & Hoa).
      split; [lia|]. split; [|split].
      * intros b0 [Hin| ->%list_elem_of_singleton]%elem_of_app;
          [eauto | rewrite Hb; lia].
      * intros k t2 b0 Hk _ Hin. eauto.
      * intros k t2 m2 Hk Hne Hact2. eauto.
    + lia.
    + intros b0 Hin. pose proof (Hq _ _ _ Ht Hin). lia.
    + intros b0 k t2 m2 Hin Hk Hne Hact.
      destruct (Ha _ _ _ Hk Hact) as (_ & Hoq & _). eauto.
    + intros m [= <-]. rewrite Hb. split; [lia|]. split; [|split].
      * intros b0 Hin. pose proof (Hq _ _ _ Ht Hin). lia.
      * intros k t2 b0 Hk _ Hin. pose proof (Hq _ _ _ Hk Hin). lia.
      * intros k t2 m2 Hk Hne Hact2.
        destruct (Ha _ _ _ Hk Hact2) as (Hlt & _). lia.
  - destruct (bufferActive t) as [m|] eqn:Hact; [|by intros [= <-]].
    destruct (memcpy _ _ _ _ _) as [store| |] eqn:Hm;
      run_simpl; try discriminate.
    apply memcpy_inv in Hm as (cell & -> & Hlt).
    destruct (Ha _ _ _ Ht Hact) as (_ & Hoq & Hoa).
    assert (Hstable : forall k t2 b2, mTracks e !! k = Some t2 ->
              b2 ∈ bufferQueue t2 ->
              <[mData m := cell]> (mStore e) !! mData b2
              = mStore e !! mData b2).
    { intros k t2 b2 Hk Hb2. apply list_lookup_insert_ne.
      intros Heq. by apply (Hoq _ _ _ Hk Hb2). }
    destruct (_ =? _); intros [= <-].
    + rewrite (update_track_once
                 (set_mStore (<[mData m := cell]> (mStore e)) e) j _ t Ht).
      cbn [mTracks set_mStore]. split; [|exact Hstable].
      apply (apart_update e j t); try done;
        rewrite ?length_insert; cbn [length bufferQueue bufferActive
                                     push set_bufferActive set_bufferQueue].
      * lia.
      * intros b0 [Hin| ->%list_elem_of_singleton]%elem_of_app;
          [by apply (Hq _ _ _ Ht) | done].
      * intros b0 k t2 m2 [Hin| ->%list_elem_of_singleton]%elem_of_app Hk Hne Hact2.
        -- destruct (Ha _ _ _ Hk Hact2) as (_ & Hoq2 & _). eauto.
        -- intros Heq. by apply (Hoa _ _ _ Hk Hne Hact2).
    + rewrite (set_mStore_tracks e _ t j Ht). split; [|exact Hstable].
      apply (apart_update e j t); try done; rewrite ?length_insert.
      * lia.
      * intros b0 Hin. by apply (Hq _ _ _ Ht).
      * intros b0 k t2 m2 Hin Hk Hne Hact2.
        destruct (Ha _ _ _ Hk Hact2) as (_ & Hoq2 & _). eauto.
      * intros m0 Hact0. rewrite Hact in Hact0. injection Hact0 as <-.
        split; [done|]. split; [|split]; eauto.
Qed.

Lemma demuxPayload_no_encryption e payload e' :
  no_encryption e -> demuxPayload e payload = Returns e' -> no_encryption e'.
Proof.
  intros Hno H j t' Hj.
  destruct (demuxPayload_grows _ _ _ H) as (Hlen & _ & Htr).
  assert (is_Some (mTracks e !! j)) as [t Ht].
  { apply lookup_lt_is_Some. rewrite <- Hlen. by eapply lookup_lt_Some. }
  destruct (Htr _ _ Ht) as (t1 & Ht1 & Hst & _).
  rewrite Hj in Ht1. injection Ht1 as <-.
  unfold track_static in Hst. injection Hst as _ _ _ He _.
  rewrite He. by eapply Hno.
Qed.

Lemma demuxPayloads_apart payloads : forall e e',
  no_encryption e ->
  buffers_apart e ->
  demuxPayloads e payloads = Returns e' ->
  buffers_apart e'
  /\ forall j t b, mTracks e !! j = Some t -> b ∈ bufferQueue t ->
       mStore e' !! mData b = mStore e !! mData b.
Proof.
  induction payloads as [|payload next IH]; intros e e' Hno Hap H.
  - injection H as <-. done.
  - cbn [demuxPayloads] in H.
    destruct (demuxPayload e payload) as [e1| |] eqn:H1;
      run_simpl; try discriminate.
    destruct (demuxPayload_apart _ _ _ Hno Hap H1) as (Hap1 & Hst1).
    pose proof (demuxPayload_no_encryption _ _ _ Hno H1) as Hno1.
    destruct (IH _ _ Hno1 Hap1 H) as (Hap' & Hst').
    split; [done|]. intros j t b Hj Hb.
    destruct (demuxPayload_grows _ _ _ H1) as (_ & _ & Htr).
    destruct (Htr _ _ Hj) as (t1 & Hj1 & _ & Hpre).
    rewrite <- (Hst1 _ _ _ Hj Hb). apply (Hst' j t1); [done|].
    destruct Hpre as (more & ->). apply elem_of_app. by left.
Qed.

(** X20.  On an extractor without encrypted tracks a queued buffer is
    final.  If every queued and in-progress buffer points into the store
    and no in-progress allocation is shared, which holds when nothing is
    queued or in progress, then it still holds after [readPacket], and
    every buffer that was in a queue before the call is still there and
    shows the same bytes. *)
Theorem queued_objects_are_not_overwritten e status e' :
  no_encryption e ->
  buffers_apart e ->
  readPacket mDataSource e = Returns (status, e') ->
  buffers_apart e'
  /\ forall j t b, mTracks e !! j = Some t -> b ∈ bufferQueue t ->
       (exists t', mTracks e' !! j = Some t' /\ b ∈ bufferQueue t')
       /\ range_bytes (mStore e') b = range_bytes (mStore e) b.
Proof.
  intros Hno Hap Hrp.
  destruct (readPacket_grows _ _ _ Hrp) as (_ & _ & Htr).
  assert (Hkeep : forall j t b, mTracks e !! j = Some t -> b ∈ bufferQueue t ->
            exists t', mTracks e' !! j = Some t' /\ b ∈ bufferQueue t').
  { intros j t b Hj Hb. destruct (Htr _ _ Hj) as (t' & Hj' & _ & more & Hq).
    exists t'. split; [done|]. rewrite Hq. apply elem_of_app. by left. }
  revert Hrp. unfold readPacket, demuxPacket.
  destruct (_ <? _); [intros [= _ <-]; by split; [|split; eauto]|].
  destruct (read_fully _ _ _); [|intros [= _ <-]; by split; [|split; eauto]].
  destruct (parseDataPacket _ _ _) as [[st payloads] p].
  destruct (_ || _); [intros [= _ <-]; by split; [|split; eauto]|].
  match goal with |- context [demuxPayloads ?s payloads] =>
    destruct (demuxPayloads s payloads) as [e1| |] eqn:H1 end;
    run_simpl; try discriminate.
  intros [= _ <-].
  apply demuxPayloads_apart in H1 as (Hap1 & Hst1); [|exact Hno|exact Hap].
  split; [done|]. intros j t b Hj Hb. split; [eauto|].
  unfold range_bytes. by rewrite (Hst1 j t b Hj Hb).
Qed.

Lemma nothing_buffered_apart (e : @AsfExtractor P) :
  (forall j t, mTracks e !! j = Some t ->
     bufferQueue t = [] /\ bufferActive t = None) ->
  buffers_apart e.
Proof.
  intros H. split.
  - intros j t b Hj Hb. destruct (H _ _ Hj) as (Hq & _).
    rewrite Hq in Hb. by apply elem_of_nil in Hb.
  - intros j t m Hj Hact. destruct (H _ _ Hj) as (_ & Ha). congruence.
Qed.

End Properties.

(** ** The statements on the small container *)

(** C1: one audio and one video descriptor, one track. *)
Lemma countTracks_counts_video_descriptors_witness :
  countTracks (Toy.file Toy.movie) 8 (AsfExtractor_new Toy.new)
  = Returns (1, Toy.initialized Toy.movie)
  /\ 1 = Z.of_nat (length (getVideoInfo (mParser (Toy.initialized Toy.movie))))
  /\ forall fuel',
       countTracks (Toy.file Toy.movie) fuel' (Toy.initialized Toy.movie)
       = Returns (1, Toy.initialized Toy.movie).
Proof.
  assert (H : countTracks (Toy.file Toy.movie) 8 (AsfExtractor_new Toy.new)
              = Returns (1, Toy.initialized Toy.movie))
    by (vm_compute; reflexivity).
  split; [exact H|].
  apply (countTracks_counts_video_descriptors (Toy.file Toy.movie) 8
           (AsfExtractor_new Toy.new) 1 (Toy.initialized Toy.movie)).
  - reflexivity.
  - reflexivity.
  - exact H.
  - vm_compute; reflexivity.
Defined.

(** C1 as stated fails: the parser returns an audio and a video
    descriptor, two in all, and [countTracks] is 1. *)
Lemma countTracks_skips_audio_descriptors :
  countTracks (Toy.file Toy.movie) 8 (AsfExtractor_new Toy.new)
  = Returns (1, Toy.initialized Toy.movie)
  /\ mInitialized (Toy.initialized Toy.movie) = true
  /\ length (getAudioInfo (mParser (Toy.initialized Toy.movie))) = 1%nat
  /\ length (getVideoInfo (mParser (Toy.initialized Toy.movie))) = 1%nat
  /\ 1 <> Z.of_nat (length (getAudioInfo (mParser (Toy.initialized Toy.movie)))
                    + length (getVideoInfo (mParser (Toy.initialized Toy.movie)))).
Proof.
  split; [|split; [|split; [|split]]]; vm_compute; (reflexivity || discriminate).
Qed.

Lemma movie_has_no_index : no_index (mParser (Toy.player Toy.movie)).
Proof. intros time nextSync. vm_compute. reflexivity. Qed.

(** C2 on a file without index. *)
Lemma seek_without_index_is_end_of_stream_witness :
  no_index (mParser (Toy.player Toy.movie))
  /\ seek_l (Toy.player Toy.movie) 0 (Toy.seek_to 1000000)
     = Returns (ERROR_END_OF_STREAM, Toy.player Toy.movie).
Proof.
  split; [exact movie_has_no_index|].
  refine (proj1 (seek_without_index_is_end_of_stream (Toy.file Toy.movie)
            (Toy.player Toy.movie) 0 (Toy.track (Toy.player Toy.movie) 0)
            (Toy.seek_to 1000000) 1000000 SEEK_CLOSEST _ _ _ _)).
  - vm_compute; reflexivity.
  - vm_compute; reflexivity.
  - reflexivity.
  - exact movie_has_no_index.
Defined.

(** C2 as stated fails: without index the seek ends in the status a
    seekable file gives for a time past its index, and that status is not
    [ERROR_UNSUPPORTED]. *)
Lemma seek_without_index_is_not_a_distinct_outcome :
  no_index (mParser (Toy.player Toy.movie))
  /\ seek_l (Toy.player Toy.movie) 0 (Toy.seek_to 1000000)
     = Returns (ERROR_END_OF_STREAM, Toy.player Toy.movie)
  /\ parser_seek (mParser (Toy.player Toy.indexed_movie)) 10000000 false
     = Some (1, 10000000)
  /\ seek_l (Toy.player Toy.indexed_movie) 0 (Toy.seek_to 9000000)
     = Returns (ERROR_END_OF_STREAM, Toy.player Toy.indexed_movie)
  /\ ERROR_END_OF_STREAM <> ERROR_UNSUPPORTED.
Proof.
  split; [exact movie_has_no_index|].
  split; [|split; [|split]]; vm_compute; (reflexivity || discriminate).
Qed.

(** C3 on a file whose first packet is malformed. *)
Lemma malformed_packet_ends_read_witness :
  exists e',
    readPacket (Toy.file Toy.damaged_movie) (Toy.player Toy.damaged_movie)
    = Returns (ERROR_END_OF_STREAM, e')
    /\ mDataPacketCurrentOffset e' = 88
    /\ read_l (Toy.file Toy.damaged_movie) 1 (Toy.player Toy.damaged_movie) 0%nat
       = Returns (ERROR_END_OF_STREAM, None, e').
Proof.
  pose proof (malformed_packet_ends_read (Toy.file Toy.damaged_movie)
                (Toy.player Toy.damaged_movie) (Toy.malformed_packet 8) 1 []
                (mParser (Toy.player Toy.damaged_movie))) as H.
  cbv zeta in H. eexists. 
  destruct H as [Hrp Hrl].
  - vm_compute; reflexivity.
  - vm_compute; reflexivity.
  - vm_compute; reflexivity.
  - discriminate.
  - split; [exact Hrp|]. split; [vm_compute; reflexivity|].
    apply (Hrl 0%nat 0%nat (Toy.track (Toy.player Toy.damaged_movie) 0));
      vm_compute; reflexivity.
Defined.

(** C3 as stated fails: the pull on the malformed packet ends in
    [ERROR_END_OF_STREAM] although the next packet holds a complete object
    for the track, which the following pull returns. *)
Lemma malformed_packet_is_not_absorbed :
  Toy.status_of (read_l (Toy.file Toy.damaged_movie) 4
                        (Toy.player Toy.damaged_movie) 0%nat)
  = Some ERROR_END_OF_STREAM
  /\ Toy.buffer_of (read_l (Toy.file Toy.damaged_movie) 4
                           (Toy.player Toy.damaged_movie) 0%nat)
     = None
  /\ Toy.status_of
       (read_l (Toy.file Toy.damaged_movie) 4
          (Toy.extractor_of (read_l (Toy.file Toy.damaged_movie) 4
                                    (Toy.player Toy.damaged_movie) 0%nat))
          0%nat)
     = Some OK.
Proof.
  split; [|split]; vm_compute; reflexivity.
Qed.

(** C4 on the file with two video streams: a seek to the first second on
    track 0 puts the cursor on the second packet. *)
Lemma seek_flushes_and_marks_witness :
  exists e',
    seek_l (Toy.player Toy.two_video_movie) 0 (Toy.seek_to 1000000)
    = Returns (OK, e')
    /\ mDataPacketCurrentOffset e' = 88.
Proof.
  destruct (seek_flushes_and_marks (Toy.player Toy.two_video_movie) 0
              (Toy.track (Toy.player Toy.two_video_movie) 0)
              (Toy.seek_to 1000000) 1000000 SEEK_CLOSEST 1 10000000)
    as (e' & Hs & Hc & _).
  - vm_compute; reflexivity.
  - vm_compute; reflexivity.
  - reflexivity.
  - vm_compute; reflexivity.
  - split; vm_compute; discriminate.
  - split; vm_compute; discriminate.
  - exists e'. split; [exact Hs|]. rewrite Hc. vm_compute. reflexivity.
Defined.

Lemma movie_region_ok : region_ok (Toy.player Toy.movie).
Proof.
  unfold region_ok. split; [|split; [|split; [|split]]];
    vm_compute; discriminate.
Qed.

Lemma movie_first_packet :
  readPacket (Toy.file Toy.movie) (Toy.player Toy.movie)
  = Returns (OK, Toy.one_queued).
Proof. vm_compute; reflexivity. Qed.

Lemma two_queued_region_ok : region_ok Toy.two_queued.
Proof.
  unfold region_ok. split; [|split; [|split; [|split]]];
    vm_compute; discriminate.
Qed.

(** C5 on the file with two packets: the first call reads the packet at
    offset 80 and returns with the cursor at 88; once the cursor is at
    96, the end of the packets, a call reports the end of the stream and
    changes nothing; through any run of calls the cursor stays between
    the two ends. *)
Lemma cursor_moves_by_whole_packets_witness :
  region_ok (Toy.player Toy.movie)
  /\ mDataPacketCurrentOffset (Toy.player Toy.movie) = 80
  /\ mDataPacketSize (Toy.player Toy.movie) = 8
  /\ readPacket (Toy.file Toy.movie) (Toy.player Toy.movie)
     = Returns (OK, Toy.one_queued)
  /\ mDataPacketCurrentOffset Toy.one_queued
     = mDataPacketCurrentOffset (Toy.player Toy.movie)
       + mDataPacketSize (Toy.player Toy.movie)
  /\ mDataPacketCurrentOffset Toy.one_queued = 88
  /\ mDataPacketCurrentOffset Toy.two_queued = 96
  /\ mDataPacketEndOffset Toy.two_queued = 96
  /\ readPacket (Toy.file Toy.movie) Toy.two_queued
     = Returns (ERROR_END_OF_STREAM, Toy.two_queued)
  /\ forall e',
       demux_steps (Toy.file Toy.movie) (Toy.player Toy.movie) e' ->
       mDataPacketBeginOffset e' <= mDataPacketCurrentOffset e'
         <= mDataPacketEndOffset e'.
Proof.
  destruct (cursor_moves_by_whole_packets (Toy.file Toy.movie)
              (Toy.player Toy.movie) movie_region_ok) as (_ & Hadv & Hrun).
  destruct (cursor_moves_by_whole_packets (Toy.file Toy.movie)
              Toy.two_queued two_queued_region_ok) as (Hend & _ & _).
  split; [exact movie_region_ok|].
  split; [vm_compute; reflexivity|]. split; [vm_compute; reflexivity|].
  split; [exact movie_first_packet|].
  split.
  { refine (proj2 (Hadv (Toy.packet 2 2 0 [x41; x42] 8) _ _ _)
              OK Toy.one_queued movie_first_packet).
    - vm_compute; discriminate.
    - vm_compute; reflexivity.
    - vm_compute; reflexivity. }
  split; [vm_compute; reflexivity|]. split; [vm_compute; reflexivity|].
  split; [vm_compute; reflexivity|].
  split; [apply Hend; left; vm_compute; reflexivity|].
  intros e' Hsteps. exact (proj1 (Hrun e' Hsteps)).
Defined.

(** C5 as stated fails: the cursor does not always lie between the two
    ends.  [initialize] succeeds on a file whose data object has the
    size 0 and leaves the cursor at 80 with the end of the packets at 30;
    on the indexed file with one packet, whose packets end at 88, the
    seek to the second second returns [OK] with the cursor at 96. *)
Lemma cursor_leaves_the_region :
  initialize (Toy.file Toy.hollow_movie) 8 (AsfExtractor_new Toy.new)
  = Returns (OK, Toy.after_initialize Toy.hollow_movie)
  /\ mInitialized (Toy.after_initialize Toy.hollow_movie) = true
  /\ mDataPacketBeginOffset (Toy.after_initialize Toy.hollow_movie) = 80
  /\ mDataPacketCurrentOffset (Toy.after_initialize Toy.hollow_movie) = 80
  /\ mDataPacketEndOffset (Toy.after_initialize Toy.hollow_movie) = 30
  /\ mDataPacketBeginOffset (Toy.player Toy.one_packet_movie) = 80
  /\ mDataPacketCurrentOffset (Toy.player Toy.one_packet_movie) = 80
  /\ mDataPacketEndOffset (Toy.player Toy.one_packet_movie) = 88
  /\ seek_l (Toy.player Toy.one_packet_movie) 0 (Toy.seek_to 2000000)
     = Returns (OK, Toy.after_seek_past_end)
  /\ mDataPacketCurrentOffset Toy.after_seek_past_end = 96
  /\ mDataPacketEndOffset Toy.after_seek_past_end = 88.
Proof.
  split; [|split; [|split; [|split; [|split; [|split; [|split; [|split;
    [|split; [|split]]]]]]]]]; vm_compute; reflexivity.
Qed.

Lemma movie_routes :
  routes (Toy.player Toy.movie) 2 0 (Toy.track (Toy.player Toy.movie) 0).
Proof. split; [|split]; vm_compute; reflexivity. Qed.

(** C8 on a payload of two bytes that is its whole object: the buffer
    is the one queued in the extractor that is returned, on an allocation
    of 4096 bytes of that extractor, and shows the two bytes. *)
Lemma complete_object_is_queued_witness :
  exists e' t' buffer cell,
    demuxPayload (Toy.player Toy.movie) (Toy.fragment 2 2 0 [x41; x42])
    = Returns e'
    /\ mTracks e' !! 0%nat = Some t'
    /\ bufferQueue t'
       = bufferQueue (Toy.track (Toy.player Toy.movie) 0) ++ [buffer]
    /\ mStore e' !! mData buffer = Some cell
    /\ Z.of_nat (length cell) = 4096
    /\ mRangeLength buffer = 2
    /\ range_bytes (mStore e') buffer = Some [x41; x42].
Proof.
  destruct (complete_object_is_queued (Toy.player Toy.movie)
              (Toy.fragment 2 2 0 [x41; x42]) 0
              (Toy.track (Toy.player Toy.movie) 0))
    as (e' & t' & buffer & cell & Hrun & _ & Ht' & _ & _ & Hq & _ & _ & _
        & Hcell & Hlen & _ & _ & Hrange & Hbytes & _).
  - exact movie_routes.
  - unfold payload_ok. split; [|split]; [split| |]; vm_compute; discriminate.
  - reflexivity.
  - exists e', t', buffer, cell. split; [exact Hrun|]. split; [exact Ht'|].
    split; [exact Hq|]. split; [exact Hcell|].
    split; [exact Hlen|]. split; [exact Hrange|]. exact Hbytes.
Defined.

Lemma single_track_valid (contents : list byte) :
  length (mTracks (Toy.player contents)) = 1%nat ->
  bufferActive (Toy.track (Toy.player contents) 0) = None ->
  actives_valid (Toy.player contents).
Proof.
  intros Hlen Hact j t m Hj Ha.
  unfold Toy.track in Hact.
  destruct (mTracks (Toy.player contents)) as [|t0 [|? ?]]; try discriminate.
  destruct j as [|j]; [|destruct j; discriminate].
  cbn in Hj, Hact. injection Hj as <-. congruence.
Qed.

Lemma two_fragments_object stream :
  fragmented_object stream 3 (Toy.two_fragments stream).
Proof.
  unfold fragmented_object, Toy.two_fragments. cbn.
  unfold INT32_MAX. repeat split; lia.
Qed.

(** C6 on an object of three bytes in two fragments with a payload of
    another stream between them. *)
Lemma fragments_reassemble_into_one_buffer_witness :
  demuxPayloads (Toy.player Toy.movie) (Toy.interleaved 2 1)
  = Returns (Toy.demuxed (Toy.player Toy.movie) (Toy.interleaved 2 1))
  /\ exists t' buffer,
       mTracks (Toy.demuxed (Toy.player Toy.movie) (Toy.interleaved 2 1))
         !! 0%nat = Some t'
       /\ bufferQueue t'
          = bufferQueue (Toy.track (Toy.player Toy.movie) 0) ++ [buffer]
       /\ bufferActive t' = None
       /\ mOwnsData buffer = true
       /\ mRangeOffset buffer = 0
       /\ mRangeLength buffer = 3
       /\ range_bytes
            (mStore (Toy.demuxed (Toy.player Toy.movie) (Toy.interleaved 2 1)))
            buffer
          = Some (concat (fragment_data <$> Toy.two_fragments 2)).
Proof.
  assert (Hrun : demuxPayloads (Toy.player Toy.movie) (Toy.interleaved 2 1)
                 = Returns (Toy.demuxed (Toy.player Toy.movie)
                                        (Toy.interleaved 2 1)))
    by (vm_compute; reflexivity).
  split; [exact Hrun|].
  refine (proj1 (proj2 (proj2
    (fragments_reassemble_into_one_buffer (Toy.player Toy.movie) 2 0
       (Toy.track (Toy.player Toy.movie) 0) 3 (Toy.two_fragments 2)
       (Toy.interleaved 2 1) _ _ _ _ _))) _ Hrun).
  - exact movie_routes.
  - vm_compute; reflexivity.
  - apply single_track_valid; vm_compute; reflexivity.
  - apply two_fragments_object.
  - vm_compute; reflexivity.
Defined.

(** C6 as stated fails: fragments that arrive out of order are not
    rejected.  The fragments of an object of eight bytes at the offsets
    0, 4, 2 and 6, as the payloads of one packet or as the four packets
    of a file, end in one queued buffer that shows the eight bytes in the
    order of their offsets; and when the fragment at offset 2 of an
    object of six bytes does not arrive, the fragment at offset 4 queues
    the buffer with the two bytes in the middle as they were
    allocated. *)
Lemma out_of_order_fragments_are_reassembled :
  offsetIntoMediaObject <$> Toy.shuffled 2 = [0; 4; 2; 6]
  /\ demuxPayloads (Toy.player Toy.movie) (Toy.shuffled 2)
     = Returns (Toy.demuxed (Toy.player Toy.movie) (Toy.shuffled 2))
  /\ length (bufferQueue
               (Toy.track (Toy.demuxed (Toy.player Toy.movie) (Toy.shuffled 2))
                          0)) = 1%nat
  /\ Toy.shown (Toy.demuxed (Toy.player Toy.movie) (Toy.shuffled 2))
       (head (bufferQueue
                (Toy.track (Toy.demuxed (Toy.player Toy.movie) (Toy.shuffled 2))
                           0)))
     = Some [x41; x42; x43; x44; x45; x46; x47; x48]
  /\ Toy.status_of (read (Toy.file Toy.shuffled_movie) 8
                         (Toy.player Toy.shuffled_movie) 0 None) = Some OK
  /\ Toy.shown
       (Toy.extractor_of (read (Toy.file Toy.shuffled_movie) 8
                               (Toy.player Toy.shuffled_movie) 0 None))
       (Toy.buffer_of (read (Toy.file Toy.shuffled_movie) 8
                            (Toy.player Toy.shuffled_movie) 0 None))
     = Some [x41; x42; x43; x44; x45; x46; x47; x48]
  /\ length (bufferQueue
               (Toy.track (Toy.demuxed (Toy.player Toy.movie) (Toy.with_gap 2))
                          0)) = 1%nat
  /\ Toy.shown (Toy.demuxed (Toy.player Toy.movie) (Toy.with_gap 2))
       (head (bufferQueue
                (Toy.track (Toy.demuxed (Toy.player Toy.movie) (Toy.with_gap 2))
                           0)))
     = Some [x41; x42; x00; x00; x45; x46].
Proof.
  split; [|split; [|split; [|split; [|split; [|split; [|split]]]]]];
    vm_compute; reflexivity.
Qed.


(** C9 as stated fails for the pull as a whole: after [seek_l] has
    cleared the mark the pull goes on with [read_l].  With options that
    hold no seek request, on the marked track 1, the pull returns a buffer
    and the cursor moves from 88 to 96; when the seek went to the end of
    the packets the pull returns [ERROR_END_OF_STREAM]. *)
Lemma read_after_mark_still_pulls :
  seekCompleted (Toy.track Toy.after_seek 1) = true
  /\ getSeekTo Toy.no_seek = None
  /\ mDataPacketCurrentOffset Toy.after_seek = 88
  /\ Toy.status_of (read (Toy.file Toy.two_video_movie) 4 Toy.after_seek 1
                         (Some Toy.no_seek)) = Some OK
  /\ mDataPacketCurrentOffset
       (Toy.extractor_of (read (Toy.file Toy.two_video_movie) 4 Toy.after_seek 1
                               (Some Toy.no_seek))) = 96
  /\ seekCompleted (Toy.track Toy.after_seek_to_end 1) = true
  /\ Toy.status_of (read (Toy.file Toy.two_video_movie) 4
                         Toy.after_seek_to_end 1 (Some Toy.no_seek))
     = Some ERROR_END_OF_STREAM.
Proof.
  split; [|split; [|split; [|split; [|split; [|split]]]]];
    vm_compute; reflexivity.
Qed.

(** C9 on track 1 of the two-stream file, marked by the seek on track 0,
    with options that hold no seek request. *)
Lemma seek_mark_consumed_by_any_options_witness :
  seekCompleted (Toy.track Toy.after_seek 1) = true
  /\ getSeekTo Toy.no_seek = None
  /\ seek_l Toy.after_seek 1 Toy.no_seek
     = Returns (OK, update_track 1 (set_seekCompleted false) Toy.after_seek).
Proof.
  assert (Hm : seekCompleted (Toy.track Toy.after_seek 1) = true)
    by (vm_compute; reflexivity).
  split; [exact Hm|]. split; [reflexivity|].
  destruct (seek_mark_consumed_by_any_options (Toy.file Toy.two_video_movie)
              Toy.after_seek 1 (Toy.track Toy.after_seek 1) Toy.no_seek)
    as [Hmarked _].
  - vm_compute; reflexivity.
  - exact (proj1 (Hmarked Hm)).
Defined.

(** C10 fails on the code: the [size_t] index 2147483648 is past the one
    track of the file, yet as the [int] that [getTrackByTrackIndex] takes
    it is negative, the loop is not entered and the first track is
    returned: [getTrack] hands out a source and activates track 0,
    [getTrackMetaData] returns the attributes of track 0, and a pull
    through that source reads track 0. *)
Theorem getTrack_index_wraps_to_first_track :
  Z.of_nat (length (mTracks (Toy.initialized Toy.movie))) <= 2147483648
  /\ getTrack (Toy.file Toy.movie) 0 (Toy.initialized Toy.movie) 2147483648
     = Returns (Some {| mTrackIndex := -2147483648 |},
                update_track 0 (set_skipTrack false) (Toy.initialized Toy.movie))
  /\ getTrackMetaData (Toy.file Toy.movie) 0 (Toy.initialized Toy.movie)
                      2147483648 0
     = Returns (Some (meta (Toy.track (Toy.initialized Toy.movie) 0)),
                Toy.initialized Toy.movie)
  /\ Toy.status_of
       (ASFSource_read (Toy.file Toy.movie) 4 (Toy.player Toy.movie)
                       {| mTrackIndex := -2147483648 |} None)
     = Some OK.
Proof.
  split; [vm_compute; discriminate|].
  split; [|split]; vm_compute; reflexivity.
Qed.

(** ** The further properties on the small container *)

Lemma single_track (e : @AsfExtractor Toy.state) (Q : Track -> Prop) :
  length (mTracks e) = 1%nat ->
  Q (Toy.track e 0) ->
  forall j t, mTracks e !! j = Some t -> Q t.
Proof.
  intros Hlen HQ j t Hj. unfold Toy.track in HQ.
  destruct (mTracks e) as [|t0 [|? ?]]; try discriminate.
  destruct j as [|j]; [|destruct j; discriminate].
  cbn in Hj, HQ. by injection Hj as <-.
Qed.

(** X3 on the player of the one-track file and index 1. *)
Lemma read_rejects_index_past_end_witness :
  Z.of_nat (length (mTracks (Toy.player Toy.movie))) <= 1
  /\ read (Toy.file Toy.movie) 4 (Toy.player Toy.movie) 1 (Some (Toy.seek_to 0))
     = Returns (BAD_VALUE, None, Toy.player Toy.movie).
Proof.
  assert (H : Z.of_nat (length (mTracks (Toy.player Toy.movie))) <= 1)
    by (vm_compute; discriminate).
  split; [exact H|].
  exact (read_rejects_index_past_end (Toy.file Toy.movie) 4
           (Toy.player Toy.movie) 1 (Some (Toy.seek_to 0)) H).
Defined.

(** X4 on the one track of the initialized file, which is skipped
    before the call and not after it. *)
Lemma getTrack_activates_one_track_witness :
  mInitialized (Toy.initialized Toy.movie) = true
  /\ mTracks (Toy.initialized Toy.movie) !! Z.to_nat 0
     = Some (Toy.track (Toy.initialized Toy.movie) 0)
  /\ skipTrack (Toy.track (Toy.initialized Toy.movie) 0) = true
  /\ exists e' t',
       getTrack (Toy.file Toy.movie) 0 (Toy.initialized Toy.movie) 0
       = Returns (Some {| mTrackIndex := 0 |}, e')
       /\ mTracks e' !! Z.to_nat 0 = Some t'
       /\ skipTrack t' = false
       /\ meta t' = meta (Toy.track (Toy.initialized Toy.movie) 0).
Proof.
  assert (H1 : mInitialized (Toy.initialized Toy.movie) = true)
    by (vm_compute; reflexivity).
  assert (H2 : mTracks (Toy.initialized Toy.movie) !! Z.to_nat 0
               = Some (Toy.track (Toy.initialized Toy.movie) 0))
    by (vm_compute; reflexivity).
  split; [exact H1|]. split; [exact H2|]. split; [vm_compute; reflexivity|].
  assert (H3 : 0 <= 0 <= INT32_MAX) by (unfold INT32_MAX; lia).
  destruct (getTrack_activates_one_track (Toy.file Toy.movie) 0
              (Toy.initialized Toy.movie) 0
              (Toy.track (Toy.initialized Toy.movie) 0) H1 H3 H2)
    as (e' & t' & Hrun & _ & Ht' & Hskip & Hmeta & _).
  exists e', t'. split; [exact Hrun|]. split; [exact Ht'|].
  split; [exact Hskip | exact Hmeta].
Defined.

Lemma movie_second_packet :
  readPacket (Toy.file Toy.movie) Toy.one_queued = Returns (OK, Toy.two_queued).
Proof. vm_compute; reflexivity. Qed.

(** X5 on the first packet of the file. *)
Lemma readPacket_only_appends_witness :
  readPacket (Toy.file Toy.movie) (Toy.player Toy.movie)
  = Returns (OK, Toy.one_queued)
  /\ length (mTracks Toy.one_queued) = length (mTracks (Toy.player Toy.movie))
  /\ (length (mStore (Toy.player Toy.movie)) <= length (mStore Toy.one_queued))%nat.
Proof.
  split; [exact movie_first_packet|].
  destruct (readPacket_only_appends (Toy.file Toy.movie) (Toy.player Toy.movie)
              OK Toy.one_queued movie_first_packet) as (Hlen & Hstore & _).
  split; [exact Hlen | exact Hstore].
Defined.

(** X6 on the player with two objects queued: one pull takes the first
    and leaves the second. *)
Lemma queued_buffers_come_first_witness :
  mTracks Toy.two_queued !! 0%nat = Some (Toy.track Toy.two_queued 0)
  /\ bufferQueue (Toy.track Toy.two_queued 0)
     = take 1 (bufferQueue (Toy.track Toy.two_queued 0))
       ++ drop 1 (bufferQueue (Toy.track Toy.two_queued 0))
  /\ length (take 1 (bufferQueue (Toy.track Toy.two_queued 0))) = 1%nat
  /\ length (drop 1 (bufferQueue (Toy.track Toy.two_queued 0))) = 1%nat
  /\ pulls (Toy.file Toy.movie) 1
           (length (take 1 (bufferQueue (Toy.track Toy.two_queued 0))))
           Toy.two_queued 0
     = Returns (take 1 (bufferQueue (Toy.track Toy.two_queued 0)),
                update_track 0
                  (set_bufferQueue
                     (drop 1 (bufferQueue (Toy.track Toy.two_queued 0))))
                  Toy.two_queued).
Proof.
  assert (H1 : mTracks Toy.two_queued !! 0%nat
               = Some (Toy.track Toy.two_queued 0))
    by (vm_compute; reflexivity).
  assert (H2 : bufferQueue (Toy.track Toy.two_queued 0)
               = take 1 (bufferQueue (Toy.track Toy.two_queued 0))
                 ++ drop 1 (bufferQueue (Toy.track Toy.two_queued 0)))
    by (symmetry; apply take_drop).
  split; [exact H1|]. split; [exact H2|].
  split; [vm_compute; reflexivity|]. split; [vm_compute; reflexivity|].
  exact (queued_buffers_come_first (Toy.file Toy.movie) 0
           (take 1 (bufferQueue (Toy.track Toy.two_queued 0)))
           Toy.two_queued 0 (Toy.track Toy.two_queued 0)
           (drop 1 (bufferQueue (Toy.track Toy.two_queued 0))) H1 H2).
Defined.

Lemma at_end_region_ok : region_ok Toy.at_end.
Proof.
  unfold region_ok. split; [|split; [|split; [|split]]];
    vm_compute; discriminate.
Qed.

(** X7 on the file once both packets have been read. *)
Lemma read_at_end_of_packets_witness :
  region_ok Toy.at_end
  /\ bufferQueue (Toy.track Toy.at_end 0) = []
  /\ mDataPacketEndOffset Toy.at_end
     < mDataPacketCurrentOffset Toy.at_end + mDataPacketSize Toy.at_end
  /\ read_l (Toy.file Toy.movie) 1 Toy.at_end 0
     = Returns (ERROR_END_OF_STREAM, None, Toy.at_end).
Proof.
  assert (H1 : mTracks Toy.at_end !! 0%nat = Some (Toy.track Toy.at_end 0))
    by (vm_compute; reflexivity).
  assert (H2 : bufferQueue (Toy.track Toy.at_end 0) = [])
    by (vm_compute; reflexivity).
  assert (H3 : mDataPacketEndOffset Toy.at_end
               < mDataPacketCurrentOffset Toy.at_end
                 + mDataPacketSize Toy.at_end)
    by (vm_compute; reflexivity).
  split; [exact at_end_region_ok|]. split; [exact H2|]. split; [exact H3|].
  exact (proj1 (read_at_end_of_packets (Toy.file Toy.movie) 0 Toy.at_end 0
                  (Toy.track Toy.at_end 0) at_end_region_ok H1 H2
                  (or_introl H3))).
Defined.

(** X8 on the file with two packets: four rounds are enough. *)
Lemma read_l_terminates_witness :
  region_ok (Toy.player Toy.movie)
  /\ 0 < mDataPacketSize (Toy.player Toy.movie)
  /\ (Z.to_nat ((mDataPacketEndOffset (Toy.player Toy.movie)
                 - mDataPacketCurrentOffset (Toy.player Toy.movie))
                / mDataPacketSize (Toy.player Toy.movie)) + 2 <= 4)%nat
  /\ read_l (Toy.file Toy.movie) 4 (Toy.player Toy.movie) 0 <> OutOfFuel.
Proof.
  assert (H1 : 0 < mDataPacketSize (Toy.player Toy.movie))
    by (vm_compute; reflexivity).
  assert (H2 : mTracks (Toy.player Toy.movie) !! 0%nat
               = Some (Toy.track (Toy.player Toy.movie) 0))
    by (vm_compute; reflexivity).
  assert (H3 : (Z.to_nat ((mDataPacketEndOffset (Toy.player Toy.movie)
                           - mDataPacketCurrentOffset (Toy.player Toy.movie))
                          / mDataPacketSize (Toy.player Toy.movie)) + 2 <= 4)%nat)
    by (vm_compute; lia).
  split; [exact movie_region_ok|]. split; [exact H1|]. split; [exact H3|].
  exact (proj1 (read_l_terminates (Toy.file Toy.movie) (Toy.player Toy.movie) 0
                  (Toy.track (Toy.player Toy.movie) 0) 4
                  movie_region_ok H1 H2 H3)).
Defined.

(** X9 on track 1 of the two-stream file, marked by the seek on track 0:
    a pull without options, then a seek request to the start. *)
Lemma mark_outlives_pulls_without_options_witness :
  seekCompleted (Toy.track Toy.after_seek 1) = true
  /\ Toy.status_of (read (Toy.file Toy.two_video_movie) 4 Toy.after_seek 1 None)
     = Some OK
  /\ seek_l (Toy.extractor_of
               (read (Toy.file Toy.two_video_movie) 4 Toy.after_seek 1 None))
            1 (Toy.seek_to 0)
     = Returns (OK,
                update_track 1 (set_seekCompleted false)
                  (Toy.extractor_of
                     (read (Toy.file Toy.two_video_movie) 4 Toy.after_seek 1
                           None))).
Proof.
  assert (H1 : mTracks Toy.after_seek !! 1%nat
               = Some (Toy.track Toy.after_seek 1))
    by (vm_compute; reflexivity).
  assert (H2 : seekCompleted (Toy.track Toy.after_seek 1) = true)
    by (vm_compute; reflexivity).
  assert (H3 : read (Toy.file Toy.two_video_movie) 4 Toy.after_seek
                    (Z.of_nat 1) None
               = Returns (OK,
                   Toy.buffer_of (read (Toy.file Toy.two_video_movie) 4
                                       Toy.after_seek 1 None),
                   Toy.extractor_of (read (Toy.file Toy.two_video_movie) 4
                                          Toy.after_seek 1 None)))
    by (vm_compute; reflexivity).
  split; [exact H2|]. split; [vm_compute; reflexivity|].
  destruct (mark_outlives_pulls_without_options (Toy.file Toy.two_video_movie)
              4 Toy.after_seek 1 (Toy.track Toy.after_seek 1) OK _ _
              (Toy.seek_to 0) H1 H2 H3) as (tB1 & _ & _ & Hseek & _).
  exact Hseek.
Defined.

Lemma silent_movie_fails :
  initialize (Toy.file Toy.silent_movie) 8 (AsfExtractor_new Toy.new)
  = Returns (ERROR_UNSUPPORTED, Toy.after_initialize Toy.silent_movie).
Proof. vm_compute; reflexivity. Qed.

(** X10 on the file whose header announces no stream. *)
Lemma failed_initialization_exposes_nothing_witness :
  initialize (Toy.file Toy.silent_movie) 8 (AsfExtractor_new Toy.new)
  = Returns (ERROR_UNSUPPORTED, Toy.after_initialize Toy.silent_movie)
  /\ mInitialized (Toy.after_initialize Toy.silent_movie) = false
  /\ countTracks (Toy.file Toy.silent_movie) 8 (AsfExtractor_new Toy.new)
     = Returns (0, Toy.after_initialize Toy.silent_movie)
  /\ getMetaData (Toy.file Toy.silent_movie) 8 (AsfExtractor_new Toy.new)
     = Returns ([], Toy.after_initialize Toy.silent_movie).
Proof.
  split; [exact silent_movie_fails|].
  destruct (failed_initialization_exposes_nothing (Toy.file Toy.silent_movie) 8
              (AsfExtractor_new Toy.new) ERROR_UNSUPPORTED
              (Toy.after_initialize Toy.silent_movie))
    as (_ & Hun & _ & _ & Hcount & Hmeta & _).
  - reflexivity.
  - exact silent_movie_fails.
  - discriminate.
  - split; [exact Hun|]. split; [exact Hcount | exact Hmeta].
Defined.

Lemma movie_initializes :
  initialize (Toy.file Toy.movie) 8 (AsfExtractor_new Toy.new)
  = Returns (OK, Toy.after_initialize Toy.movie).
Proof. vm_compute; reflexivity. Qed.

(** X11 on the file with one audio and one video stream. *)
Lemma initialization_builds_idle_video_tracks_witness :
  initialize (Toy.file Toy.movie) 8 (AsfExtractor_new Toy.new)
  = Returns (OK, Toy.after_initialize Toy.movie)
  /\ mTracks (Toy.after_initialize Toy.movie)
     = video_track (mParser (Toy.after_initialize Toy.movie))
         <$> getVideoInfo (mParser (Toy.after_initialize Toy.movie))
  /\ mDataPacketCurrentOffset (Toy.after_initialize Toy.movie)
     = mDataPacketBeginOffset (Toy.after_initialize Toy.movie).
Proof.
  split; [exact movie_initializes|].
  destruct (initialization_builds_idle_video_tracks (Toy.file Toy.movie) 8
              (AsfExtractor_new Toy.new) (Toy.after_initialize Toy.movie))
    as (_ & Htr & _ & Hcur & _).
  - reflexivity.
  - reflexivity.
  - exact movie_initializes.
  - split; [exact Htr | exact Hcur].
Defined.

(** X12 on the video stream of that file. *)
Lemma track_metadata_after_initialization_witness :
  getVideoInfo (mParser (Toy.after_initialize Toy.movie)) !! 0%nat
  = Some (Toy.video_info 2 false 0)
  /\ exists m,
       getTrackMetaData (Toy.file Toy.movie) 0 (Toy.after_initialize Toy.movie)
                        (Z.of_nat 0) 0
       = Returns (Some m, Toy.after_initialize Toy.movie)
       /\ meta_find kKeyMIMEType m = Some (VCString MEDIA_MIMETYPE_VIDEO_WMV)
       /\ meta_find kKeyConfigData m = None.
Proof.
  assert (H1 : getVideoInfo (mParser (Toy.after_initialize Toy.movie)) !! 0%nat
               = Some (Toy.video_info 2 false 0))
    by (vm_compute; reflexivity).
  split; [exact H1|].
  destruct (track_metadata_after_initialization (Toy.file Toy.movie) 8
              (AsfExtractor_new Toy.new) (Toy.after_initialize Toy.movie)
              0 (Toy.video_info 2 false 0) 0)
    as (m & Hget & _ & _ & Hmime & _ & _ & _ & Hconf & _).
  - reflexivity.
  - reflexivity.
  - exact movie_initializes.
  - exact H1.
  - vm_compute; discriminate.
  - exists m. split; [exact (Hget 0%nat)|]. split; [exact Hmime | exact Hconf].
Defined.

(** X13 on the seekable file whose packets are followed by an object of
    size 0: the scan started at the end of the packets, offset 96, never
    ends. *)
Lemma index_scan_stalls_on_empty_object_witness :
  read_fully (Toy.file Toy.stalled_movie) 96 24 = Some Toy.empty_object
  /\ isSimpleIndexObject Toy.empty_object = false
  /\ mDataPacketEndOffset (Toy.player Toy.movie) = 96
  /\ forall fuel,
       findSimpleIndex (Toy.file Toy.stalled_movie) fuel Toy.new 96 = OutOfFuel.
Proof.
  assert (H1 : read_fully (Toy.file Toy.stalled_movie) 96 24
               = Some Toy.empty_object) by (vm_compute; reflexivity).
  assert (H2 : isSimpleIndexObject Toy.empty_object = false)
    by (vm_compute; reflexivity).
  split; [exact H1|]. split; [exact H2|]. split; [vm_compute; reflexivity|].
  apply (index_scan_stalls_on_empty_object (Toy.file Toy.stalled_movie)
           Toy.new 96 Toy.empty_object H1 H2).
  - vm_compute; reflexivity.
  - lia.
Defined.

Lemma two_video_seek :
  seek_l (Toy.player Toy.two_video_movie) 0 (Toy.seek_to 1000000)
  = Returns (OK, Toy.after_seek).
Proof. vm_compute; reflexivity. Qed.

(** X14 on the seek to the first second of the two-stream file. *)
Lemma seek_keeps_tracks_and_region_witness :
  seek_l (Toy.player Toy.two_video_movie) 0 (Toy.seek_to 1000000)
  = Returns (OK, Toy.after_seek)
  /\ length (mTracks Toy.after_seek)
     = length (mTracks (Toy.player Toy.two_video_movie))
  /\ mStore Toy.after_seek = mStore (Toy.player Toy.two_video_movie)
  /\ mDataPacketEndOffset Toy.after_seek
     = mDataPacketEndOffset (Toy.player Toy.two_video_movie).
Proof.
  split; [exact two_video_seek|].
  destruct (seek_keeps_tracks_and_region (Toy.player Toy.two_video_movie) 0
              (Toy.seek_to 1000000) OK Toy.after_seek two_video_seek)
    as (Hlen & _ & Hstore & _ & _ & _ & _ & Hend & _).
  split; [exact Hlen|]. split; [exact Hstore | exact Hend].
Defined.

Lemma initialized_movie_skipped :
  forall j t, mTracks (Toy.initialized Toy.movie) !! j = Some t ->
              skipTrack t = true.
Proof.
  apply (single_track (Toy.initialized Toy.movie)
           (fun t => skipTrack t = true)); vm_compute; reflexivity.
Qed.

(** X15 on the initialized file before any track has been handed out. *)
Lemma payloads_without_active_track_are_dropped_witness :
  demuxPayloads (Toy.initialized Toy.movie) (Toy.interleaved 2 1)
  = Returns (Toy.initialized Toy.movie).
Proof.
  apply (payloads_without_active_track_are_dropped (Toy.initialized Toy.movie)
           (Toy.interleaved 2 1)).
  intros payload i t _ _ Hi. exact (initialized_movie_skipped i t Hi).
Defined.

(** X16 on the same extractor: a pull on the track that was not handed
    out runs to the end of the packets. *)
Lemma skipped_track_is_never_served_witness :
  skipTrack (Toy.track (Toy.initialized Toy.movie) 0) = true
  /\ bufferQueue (Toy.track (Toy.initialized Toy.movie) 0) = []
  /\ read_l (Toy.file Toy.movie) 4 (Toy.initialized Toy.movie) 0
     = Returns (ERROR_END_OF_STREAM, None, Toy.at_end)
  /\ mTracks Toy.at_end !! 0%nat
     = Some (Toy.track (Toy.initialized Toy.movie) 0).
Proof.
  assert (H1 : mTracks (Toy.initialized Toy.movie) !! 0%nat
               = Some (Toy.track (Toy.initialized Toy.movie) 0))
    by (vm_compute; reflexivity).
  assert (H2 : skipTrack (Toy.track (Toy.initialized Toy.movie) 0) = true)
    by (vm_compute; reflexivity).
  assert (H3 : bufferQueue (Toy.track (Toy.initialized Toy.movie) 0) = [])
    by (vm_compute; reflexivity).
  assert (H4 : read_l (Toy.file Toy.movie) 4 (Toy.initialized Toy.movie) 0
               = Returns (ERROR_END_OF_STREAM, None, Toy.at_end))
    by (vm_compute; reflexivity).
  split; [exact H2|]. split; [exact H3|]. split; [exact H4|].
  exact (proj2 (proj2 (skipped_track_is_never_served (Toy.file Toy.movie) 4
                         (Toy.initialized Toy.movie) 0
                         (Toy.track (Toy.initialized Toy.movie) 0)
                         ERROR_END_OF_STREAM None Toy.at_end H1 H2 H3 H4))).
Defined.

Lemma in_progress_routes :
  routes Toy.in_progress 2 0 (Toy.track Toy.in_progress 0).
Proof. split; [|split]; vm_compute; reflexivity. Qed.

(** X17 on the player that follows an object of three bytes when the
    first payload of another object of three bytes arrives. *)
Lemma new_object_replaces_unfinished_one_witness :
  bufferActive (Toy.track Toy.in_progress 0)
  = Some (object_buffer 0 (Toy.fragment 2 3 0 [x41; x42]))
  /\ exists e' t',
       demuxPayload Toy.in_progress (Toy.fragment 2 3 0 [x45; x46])
       = Returns e'
       /\ mTracks e' !! 0%nat = Some t'
       /\ bufferActive t'
          = Some (object_buffer (length (mStore Toy.in_progress))
                                (Toy.fragment 2 3 0 [x45; x46]))
       /\ bufferQueue t' = bufferQueue (Toy.track Toy.in_progress 0).
Proof.
  assert (H1 : bufferActive (Toy.track Toy.in_progress 0)
               = Some (object_buffer 0 (Toy.fragment 2 3 0 [x41; x42])))
    by (vm_compute; reflexivity).
  split; [exact H1|].
  destruct (new_object_replaces_unfinished_one Toy.in_progress 0
              (Toy.track Toy.in_progress 0)
              (object_buffer 0 (Toy.fragment 2 3 0 [x41; x42]))
              (Toy.fragment 2 3 0 [x45; x46]))
    as (e' & t' & Hrun & Ht' & Hact & Hq & _).
  - exact in_progress_routes.
  - vm_compute; reflexivity.
  - exact H1.
  - unfold payload_ok. split; [|split]; [split| |]; vm_compute; discriminate.
  - reflexivity.
  - vm_compute; reflexivity.
  - exists e', t'. split; [exact Hrun|]. split; [exact Ht'|].
    split; [exact Hact | exact Hq].
Defined.

(** X18 on the same player when a payload of two bytes arrives for
    offset 4095 of its allocation of 4096 bytes. *)
Lemma fragment_past_allocation_is_not_caught_witness :
  bufferActive (Toy.track Toy.in_progress 0)
  = Some (object_buffer 0 (Toy.fragment 2 3 0 [x41; x42]))
  /\ length <$> mStore Toy.in_progress !! 0%nat = Some 4096%nat
  /\ demuxPayload Toy.in_progress (Toy.fragment 2 5000 4095 [x43; x44])
     = Faults.
Proof.
  assert (H1 : bufferActive (Toy.track Toy.in_progress 0)
               = Some (object_buffer 0 (Toy.fragment 2 3 0 [x41; x42])))
    by (vm_compute; reflexivity).
  assert (H2 : mStore Toy.in_progress
                 !! mData (object_buffer 0 (Toy.fragment 2 3 0 [x41; x42]))
               = Some (default [] (mStore Toy.in_progress !! 0%nat)))
    by (vm_compute; reflexivity).
  split; [exact H1|]. split; [vm_compute; reflexivity|].
  refine (proj1 (fragment_past_allocation_is_not_caught Toy.in_progress 0
                   (Toy.track Toy.in_progress 0)
                   (object_buffer 0 (Toy.fragment 2 3 0 [x41; x42]))
                   (default [] (mStore Toy.in_progress !! 0%nat))
                   (Toy.fragment 2 5000 4095 [x43; x44])
                   in_progress_routes H1 H2 _ _ _)).
  - vm_compute; discriminate.
  - vm_compute; discriminate.
  - vm_compute; reflexivity.
Defined.


Lemma movie_no_encryption : no_encryption (Toy.player Toy.movie).
Proof.
  unfold no_encryption.
  apply (single_track (Toy.player Toy.movie) (fun t => encrypted t = false));
    vm_compute; reflexivity.
Qed.

Lemma movie_nothing_buffered : buffers_apart (Toy.player Toy.movie).
Proof.
  apply nothing_buffered_apart.
  apply (single_track (Toy.player Toy.movie)
           (fun t => bufferQueue t = [] /\ bufferActive t = None)).
  - vm_compute; reflexivity.
  - split; vm_compute; reflexivity.
Qed.

Lemma one_queued_no_encryption : no_encryption Toy.one_queued.
Proof.
  unfold no_encryption.
  apply (single_track Toy.one_queued (fun t => encrypted t = false));
    vm_compute; reflexivity.
Qed.

(** X20 on the two packets of the file: the object queued by the first
    shows the same bytes after the second. *)
Lemma queued_objects_are_not_overwritten_witness :
  no_encryption (Toy.player Toy.movie)
  /\ buffers_apart (Toy.player Toy.movie)
  /\ readPacket (Toy.file Toy.movie) (Toy.player Toy.movie)
     = Returns (OK, Toy.one_queued)
  /\ readPacket (Toy.file Toy.movie) Toy.one_queued
     = Returns (OK, Toy.two_queued)
  /\ forall b, b ∈ bufferQueue (Toy.track Toy.one_queued 0) ->
       range_bytes (mStore Toy.two_queued) b
       = range_bytes (mStore Toy.one_queued) b.
Proof.
  split; [exact movie_no_encryption|]. split; [exact movie_nothing_buffered|].
  split; [exact movie_first_packet|]. split; [exact movie_second_packet|].
  destruct (queued_objects_are_not_overwritten (Toy.file Toy.movie)
              (Toy.player Toy.movie) OK Toy.one_queued
              movie_no_encryption movie_nothing_buffered movie_first_packet)
    as (Hap1 & _).
  destruct (queued_objects_are_not_overwritten (Toy.file Toy.movie)
              Toy.one_queued OK Toy.two_queued
              one_queued_no_encryption Hap1 movie_second_packet)
    as (_ & Hkeep).
  intros b Hb.
  refine (proj2 (Hkeep 0%nat (Toy.track Toy.one_queued 0) b _ Hb)).
  vm_compute; reflexivity.
Defined.
